(** * MediaSwift [ffpe]: the conversion orchestrator of [ffpe.py]

    A shallow embedding of [ffpe.convert], [ffpe.convert_single] and
    [ffpe.get_duration] (src/MediaSwift/MediaSwift/ffpe.py), and the
    properties of the conversion core proved about it.

    Conventions of the model.
    - A Python [str] is a Rocq [string]; a character is a code point
      below 256 (Latin-1).  On that range the regular-expression class
      [\d] is exactly the ASCII digits and the multiplication sign is the
      single character 215.
    - A Python [int] is a [Z].  A Python [float] is read at two levels.
      The worker as a whole is modelled with exact rationals ([Q]); this
      level serves for the structure of a run (ordering, bounds, which
      branch is taken).  Module [B64] evaluates the arithmetic of the
      progress loop in IEEE 754 binary64, with its roundings, infinities
      and NaN; the value of the percent and the exceptions of the
      arithmetic are treated there.
    - Effects are explicit: a worker returns the list of events it
      performs; the outside world (the answer of the probe, the spawned
      process and the lines it prints, which files exist, the path module
      of the platform) is an argument; the threads of a batch run under
      a step relation that allows every interleaving. *)

From Stdlib Require Import String Ascii List Bool Arith ZArith QArith Qround Qminmax Lia.
From Stdlib Require Import DecimalString Sorted Qpower.
Import ListNotations.

Local Open Scope string_scope.
Local Open Scope list_scope.

(** ** Exceptions and results *)

(** The exceptions that can cross the [try] block of [convert_single]. *)
Inductive exn : Type :=
| CalledProcessError (returncode : Z)
| ValueError
| ZeroDivisionError
| OtherException (text : string).

Inductive result (A : Type) : Type :=
| Ok (a : A)
| Raise (e : exn).

Arguments Ok {A} a.
Arguments Raise {A} e.

Definition bind {A B : Type} (r : result A) (k : A -> result B) : result B :=
  match r with
  | Ok a => k a
  | Raise e => Raise e
  end.

Notation "x <- r ;; k" := (bind r (fun x => k))
  (at level 61, r at next level, right associativity).

(** ** Strings *)

Module Str.

(** [c in "0123456789"]: the class [\d] on Latin-1 text. *)
Definition is_digit (c : ascii) : bool :=
  let n := nat_of_ascii c in (48 <=? n)%nat && (n <=? 57)%nat.

Definition newline : ascii := ascii_of_nat 10.

Definition digit_value (c : ascii) : Z := (Z.of_nat (nat_of_ascii c) - 48)%Z.

Fixpoint all_digits (s : string) : bool :=
  match s with
  | EmptyString => true
  | String c s' => is_digit c && all_digits s'
  end.

(** Value of a run of decimal digits, most significant first. *)
Fixpoint digits_value_from (acc : Z) (s : string) : Z :=
  match s with
  | EmptyString => acc
  | String c s' => digits_value_from (10 * acc + digit_value c)%Z s'
  end.

Definition digits_value (s : string) : Z := digits_value_from 0 s.

(** [s.split(sep)] for a one-character separator. *)
Fixpoint split_from (sep : ascii) (cur : string) (s : string) : list string :=
  match s with
  | EmptyString => [cur]
  | String c s' =>
      if Ascii.eqb c sep then cur :: split_from sep "" s'
      else split_from sep (cur ++ String c "") s'
  end.

Definition split (sep : ascii) (s : string) : list string :=
  split_from sep "" s.

(** [s.replace(old, new)] for one-character [old] and [new]. *)
Fixpoint replace (old new : ascii) (s : string) : string :=
  match s with
  | EmptyString => EmptyString
  | String c s' =>
      String (if Ascii.eqb c old then new else c) (replace old new s')
  end.

(** Longest prefix of digits, and what follows it. *)
Fixpoint span_digits (s : string) : string * string :=
  match s with
  | EmptyString => ("", "")
  | String c s' =>
      if is_digit c then
        let (d, r) := span_digits s' in (String c d, r)
      else ("", s)
  end.

(** [str(n)] for an [int]. *)
Definition str_of_Z (n : Z) : string :=
  NilZero.string_of_int (Z.to_int n).

End Str.

(** ** The progress pattern

    [re.search(r"time=(\d+:\d+:\d+.\d+)", line)]: a leftmost search with
    greedy, backtracking repetition.  The dot of the pattern is not
    escaped, so it stands for any character but a newline. *)

Module Re.

Inductive atom : Type :=
| Lit (c : ascii)     (* the character itself *)
| Digit               (* \d *)
| AnyChar.            (* . *)

Inductive item : Type :=
| One (a : atom)      (* a  *)
| Many1 (a : atom).   (* a+ *)

Definition atom_matches (a : atom) (c : ascii) : bool :=
  match a with
  | Lit c' => Ascii.eqb c c'
  | Digit => Str.is_digit c
  | AnyChar => negb (Ascii.eqb c Str.newline)
  end.

(** [a+] followed by the continuation [k]: take as many characters as
    possible first, give them back one at a time when [k] fails.  The
    result is the text matched from here to the end of the match. *)
Fixpoint match_many1 (a : atom) (k : string -> option string) (s : string)
  : option string :=
  match s with
  | EmptyString => None
  | String c s' =>
      if atom_matches a c then
        match match_many1 a k s' with
        | Some m => Some (String c m)
        | None => option_map (String c) (k s')
        end
      else None
  end.

Fixpoint match_items (p : list item) : string -> option string :=
  match p with
  | [] => fun _ => Some ""
  | One a :: p' =>
      fun s =>
        match s with
        | EmptyString => None
        | String c s' =>
            if atom_matches a c then option_map (String c) (match_items p' s')
            else None
        end
  | Many1 a :: p' => match_many1 a (match_items p')
  end.

(** The literal prefix of the pattern; on success, what follows it. *)
Fixpoint skip_literal (lit s : string) : option string :=
  match lit, s with
  | EmptyString, _ => Some s
  | String a lit', String c s' =>
      if Ascii.eqb c a then skip_literal lit' s' else None
  | String _ _, EmptyString => None
  end.

(** Group 1 of the pattern: [\d+:\d+:\d+.\d+]. *)
Definition time_group : list item :=
  [Many1 Digit; One (Lit ":"); Many1 Digit; One (Lit ":");
   Many1 Digit; One AnyChar; Many1 Digit].

(** A match anchored at the start of [s]; the value is [match.group(1)]. *)
Definition match_here (s : string) : option string :=
  match skip_literal "time=" s with
  | Some rest => match_items time_group rest
  | None => None
  end.

(** [re.search]: the leftmost position at which the pattern matches. *)
Fixpoint search (s : string) : option string :=
  match match_here s with
  | Some g => Some g
  | None =>
      match s with
      | EmptyString => None
      | String _ s' => search s'
      end
  end.

End Re.

(** ** Reading the timestamp (lines 481-483) *)

(** [float(field)] for a field of the matched text.  After the split on
    [":"] a field starts with a digit and has at most one character that
    is not a digit (what the unescaped dot of the pattern matched); the
    function is [float] on texts of that shape.  [float] takes a run of
    digits, and between two runs a decimal point (the second run may be
    empty), a digit-group underscore or an exponent mark; it raises
    [ValueError] on any other character. *)
Definition float_field (field : string) : result Q :=
  let (d1, rest) := Str.span_digits field in
  match d1, rest with
  | EmptyString, _ => Raise ValueError
  | _, EmptyString => Ok (inject_Z (Str.digits_value d1))
  | _, String c d2 =>
      if negb (Str.all_digits d2) then Raise ValueError
      else if Ascii.eqb c "." then
        Ok (inject_Z (Str.digits_value d1)
            + inject_Z (Str.digits_value d2)
              / inject_Z (10 ^ Z.of_nat (String.length d2)))%Q
      else if (String.length d2 =? 0)%nat then Raise ValueError
      else if Ascii.eqb c "_" then
        Ok (inject_Z (Str.digits_value (d1 ++ d2)))
      else if Ascii.eqb c "e" || Ascii.eqb c "E" then
        Ok (inject_Z (Str.digits_value d1 * 10 ^ Str.digits_value d2))
      else Raise ValueError
  end.

(** [h, m, s = map(float, time_str.split(":"))]: the fields are converted
    from the left, and there must be exactly three of them. *)
Definition unpack_hms (fields : list string) : result (Q * Q * Q) :=
  match fields with
  | [fh; fm; fs] =>
      h <- float_field fh ;;
      m <- float_field fm ;;
      s <- float_field fs ;;
      Ok (h, m, s)
  | _ => Raise ValueError
  end.

(** [elapsed_time = h * 3600 + m * 60 + s]. *)
Definition elapsed_time (h m s : Q) : Q := (h * 3600 + m * 60 + s)%Q.

(** What one line of output gives the progress loop: nothing (the line is
    skipped), the elapsed seconds, or an exception. *)
Inductive line_reading : Type :=
| NoMatch
| Elapsed (seconds : Q)
| Failure (e : exn).

Definition parse_line (line : string) : line_reading :=
  match Re.search line with
  | None => NoMatch
  | Some time_str =>
      match unpack_hms (Str.split ":" time_str) with
      | Ok (h, m, s) => Elapsed (elapsed_time h m s)
      | Raise e => Failure e
      end
  end.

(** ** Percent of one progress line (lines 484-487) *)

(** [min(a, b)] returns [a] unless [b < a]. *)
Definition py_min (a b : Q) : Q := if Qle_bool a b then a else b.

(** [progress = min(elapsed_time / duration, 1.0)]. *)
Definition progress (elapsed duration : Q) : Q :=
  py_min (elapsed / duration) 1.

(** [progress_percentage = int(np.ceil(progress * 100))]. *)
Definition progress_percentage (elapsed duration : Q) : Z :=
  Qceiling (progress elapsed duration * 100).

(** ** The progress bar

    The counter of a [tqdm] bar created with [total=100]: it starts at
    zero, [update(k)] adds [k] to it (whatever the sign of [k]), and
    [close()] leaves it as it is. *)

Module Tqdm.

Record bar : Type := { n : Z; closed : bool }.

Definition create : bar := {| n := 0; closed := false |}.

Definition update (k : Z) (b : bar) : bar :=
  {| n := n b + k; closed := closed b |}.

Definition close (b : bar) : bar :=
  {| n := n b; closed := true |}.

End Tqdm.

(** ** Conversion options *)

(** A value passed for [ar], [ac], [ba], [r] or [bv]: the signature says
    [int], the documented calls also pass text such as ['192k']. *)
Inductive pyval : Type :=
| PyInt (n : Z)
| PyStr (s : string).

(** [str(v)]. *)
Definition py_str (v : pyval) : string :=
  match v with
  | PyInt n => Str.str_of_Z n
  | PyStr s => s
  end.

(** Truth value of a text and of a number-or-text. *)
Definition truthy_str (s : string) : bool := negb (String.eqb s "").

Definition truthy (v : pyval) : bool :=
  match v with
  | PyInt n => negb (n =? 0)%Z
  | PyStr s => truthy_str s
  end.

(** The keyword arguments shared by [convert] and [convert_single];
    [None] is the default of each. *)
Record options : Type := {
  cv : option string;
  ca : option string;
  s : option string;
  hwaccel : option string;
  ar : option pyval;
  ac : option pyval;
  ba : option pyval;
  r : option pyval;
  f : option string;
  preset : option string;
  bv : option pyval
}.

Definition no_options : options :=
  {| cv := None; ca := None; s := None; hwaccel := None; ar := None;
     ac := None; ba := None; r := None; f := None; preset := None;
     bv := None |}.

(** ** The command line (lines 433-463) *)

(** The multiplication sign (code point 215). *)
Definition times_sign : ascii := ascii_of_nat 215.

(** [if x: command += extra(x)] for a text option. *)
Definition if_str (x : option string) (extra : string -> list string)
  (command : list string) : list string :=
  match x with
  | Some v => if truthy_str v then command ++ extra v else command
  | None => command
  end.

(** [if x: command += extra(x)] for a number-or-text option. *)
Definition if_val (x : option pyval) (extra : pyval -> list string)
  (command : list string) : list string :=
  match x with
  | Some v => if truthy v then command ++ extra v else command
  | None => command
  end.

Definition build_command (ffpe_path input_file output_file : string)
  (o : options) : list string :=
  let command := [ffpe_path; "-hide_banner"] in
  let command := if_str (hwaccel o) (fun v => ["-hwaccel"; v]) command in
  let command := command ++ ["-i"; input_file] in
  let command := if_str (cv o) (fun v => ["-c:v"; v]) command in
  let command := if_str (ca o) (fun v => ["-c:a"; v]) command in
  let command :=
    if_str (s o) (fun v => ["-s"; Str.replace times_sign "x" v]) command in
  let command := if_val (ar o) (fun v => ["-ar"; py_str v]) command in
  let command := if_val (ac o) (fun v => ["-ac"; py_str v]) command in
  let command := if_val (ba o) (fun v => ["-b:a"; py_str v]) command in
  let command := if_val (r o) (fun v => ["-r"; py_str v]) command in
  let command := if_str (f o) (fun v => ["-f"; v]) command in
  let command := if_str (preset o) (fun v => ["-preset"; v]) command in
  let command := if_val (bv o) (fun v => ["-b:v"; py_str v]) command in
  let command :=
    if truthy_str output_file then command ++ ["-y"; output_file]
    else command in
  command.

(** ** Paths

    [os.path] is the path module of the platform.  The model takes it as
    an interface; [Posix] gives the functions as [posixpath] defines
    them. *)

Class OsPath : Type := {
  os_path_basename : string -> string;        (* os.path.basename(p) *)
  os_path_splitext_root : string -> string;   (* os.path.splitext(p)[0] *)
  os_path_join : string -> string -> string   (* os.path.join(a, b) *)
}.

Module Posix.

Definition sep : ascii := "/".
Definition extsep : ascii := ".".

(** [p.rfind(c)]: the last index of [c] in [p], or -1. *)
Fixpoint rfind_from (c : ascii) (i last : Z) (p : string) : Z :=
  match p with
  | EmptyString => last
  | String a p' =>
      rfind_from c (i + 1) (if Ascii.eqb a c then i else last) p'
  end.

Definition rfind (c : ascii) (p : string) : Z := rfind_from c 0 (-1) p.

(** [p[i:]] and [p[:i]] for [0 <= i]. *)
Definition drop (i : Z) (p : string) : string :=
  substring (Z.to_nat i) (String.length p - Z.to_nat i) p.

Definition take (i : Z) (p : string) : string :=
  substring 0 (Z.to_nat i) p.

(** [i = p.rfind(sep) + 1; return p[i:]]. *)
Definition basename (p : string) : string :=
  drop (rfind sep p + 1) p.

Fixpoint only_dots (p : string) : bool :=
  match p with
  | EmptyString => true
  | String a p' => Ascii.eqb a extsep && only_dots p'
  end.

(** [splitext(p)[0]]: the extension starts at the last dot of the last
    component, unless only dots come before it in that component. *)
Definition splitext_root (p : string) : string :=
  let sepIndex := rfind sep p in
  let dotIndex := rfind extsep p in
  if (sepIndex <? dotIndex)%Z then
    if only_dots (take (dotIndex - (sepIndex + 1)) (drop (sepIndex + 1) p))
    then p
    else take dotIndex p
  else p.

Definition startswith_sep (p : string) : bool :=
  match p with
  | String a _ => Ascii.eqb a sep
  | EmptyString => false
  end.

Fixpoint endswith_sep (p : string) : bool :=
  match p with
  | EmptyString => false
  | String a EmptyString => Ascii.eqb a sep
  | String _ p' => endswith_sep p'
  end.

(** [join(a, b)]. *)
Definition join (a b : string) : string :=
  if startswith_sep b then b
  else if String.eqb a "" || endswith_sep a then a ++ b
  else a ++ String sep b.

End Posix.

#[global] Instance posixpath : OsPath :=
  {| os_path_basename := Posix.basename;
     os_path_splitext_root := Posix.splitext_root;
     os_path_join := Posix.join |}.

(** ** One conversion (lines 465-501)

    [convert_single] is wrapped in [lru_cache], keyed on all its
    arguments; one of them is the progress bar, which [convert] creates
    anew for every call, so no call is answered from the cache and the
    body below is what every thread runs. *)

(** The transcoding process as the worker sees it: the lines its merged
    output yields, an error that ends the reading (if any), and the
    status it exits with. *)
Record process : Type := {
  stdout : list string;
  stdout_error : option exn;
  returncode : Z
}.

(** What lies outside the worker.  [probe path] is the outcome of the
    [ffprobe] call of [get_duration] with the conversion of its trimmed
    output to a float: the seconds, or the exception of [check_output],
    of [decode] or of [float].  [popen command] is the outcome of
    [subprocess.Popen]: the process, or the exception of the launch. *)
Record world : Type := {
  probe : string -> result Q;
  popen : list string -> result process
}.

Definition get_duration (w : world) (file_path : string) : result Q :=
  probe w file_path.

Inductive event : Type :=
| EvProbe (file_path : string)        (* get_duration(input_file) is called *)
| EvPopen (command : list string)     (* subprocess.Popen(command, ...) is called *)
| EvUpdate (k : Z)                    (* progress_bar.update(k) *)
| EvClose                             (* progress_bar.close() *)
| EvCompleted (name : string)         (* print: CONVERSION COMPLETED [name] *)
| EvSleep                             (* time.sleep(2) *)
| EvCommandFailed (e : exn)           (* print: FFPE COMMAND FAILED WITH ERROR *)
| EvError (e : exn)                   (* print: AN ERROR OCCURRED *)
| EvCollect.                          (* gc.collect() *)

(** A run of a piece of the worker: what it did, the bar it leaves, and
    whether it went through or raised. *)
Definition run (A : Type) : Type := list event * Tqdm.bar * result A.

(** The loop over [process.stdout] (lines 478-488). *)
Fixpoint read_progress (duration : Q) (lines : list string)
  (progress_bar : Tqdm.bar) : run unit :=
  match lines with
  | [] => ([], progress_bar, Ok tt)
  | line :: lines' =>
      match parse_line line with
      | NoMatch => read_progress duration lines' progress_bar
      | Failure e => ([], progress_bar, Raise e)
      | Elapsed elapsed =>
          if Qeq_bool duration 0 then ([], progress_bar, Raise ZeroDivisionError)
          else
            let k := (progress_percentage elapsed duration
                      - Tqdm.n progress_bar)%Z in
            let '(evs, bar', res) :=
              read_progress duration lines' (Tqdm.update k progress_bar) in
            (EvUpdate k :: evs, bar', res)
      end
  end.

(** The body of the [try] (lines 466-494). *)
Definition try_body {os : OsPath} (w : world) (command : list string)
  (input_file : string)
  (progress_bar : Tqdm.bar) : run unit :=
  match get_duration w input_file with
  | Raise e => ([EvProbe input_file], progress_bar, Raise e)
  | Ok duration =>
      match popen w command with
      | Raise e =>
          ([EvProbe input_file; EvPopen command], progress_bar, Raise e)
      | Ok proc =>
          let '(evs, bar', res) :=
            read_progress duration (stdout proc) progress_bar in
          let started := [EvProbe input_file; EvPopen command] ++ evs in
          match res, stdout_error proc with
          | Raise e, _ => (started, bar', Raise e)
          | Ok _, Some e => (started, bar', Raise e)
          | Ok _, None =>
              (started ++ [EvClose; EvCompleted (os_path_basename input_file); EvSleep],
               Tqdm.close bar', Ok tt)
          end
      end
  end.

(** The two [except] clauses (lines 496-499). *)
Definition handler (e : exn) : event :=
  match e with
  | CalledProcessError _ => EvCommandFailed e
  | _ => EvError e
  end.

Definition convert_single {os : OsPath} (w : world)
  (ffpe_path input_file output_file : string)
  (o : options) (progress_bar : Tqdm.bar) : list event * Tqdm.bar :=
  let command := build_command ffpe_path input_file output_file o in
  let '(evs, bar', res) := try_body w command input_file progress_bar in
  match res with
  | Ok _ => (evs ++ [EvCollect], bar')
  | Raise e => (evs ++ [handler e; EvCollect], bar')
  end.

(** The values the bar shows in the course of a run: its counter after
    each [update]. *)
Fixpoint bar_values (start : Z) (evs : list event) : list Z :=
  match evs with
  | [] => []
  | EvUpdate k :: evs' => (start + k)%Z :: bar_values (start + k) evs'
  | _ :: evs' => bar_values start evs'
  end.

(** How a job ends, as the worker reports it on the console. *)
Inductive JobOutcome : Type :=
| Succeeded
| Failed (reason : exn).

Fixpoint outcome (evs : list event) : option JobOutcome :=
  match evs with
  | [] => None
  | EvCompleted _ :: _ => Some Succeeded
  | EvCommandFailed e :: _ => Some (Failed e)
  | EvError e :: _ => Some (Failed e)
  | _ :: evs' => outcome evs'
  end.

(** ** The batch (lines 263-335) *)

(** The [input_files] argument: [None], a bare path, or a list. *)
Inductive py_files : Type :=
| FilesNone
| FilesStr (path : string)
| FilesList (paths : list string).

(** [not input_files]. *)
Definition no_files (input_files : py_files) : bool :=
  match input_files with
  | FilesNone => true
  | FilesStr path => negb (truthy_str path)
  | FilesList [] => true
  | FilesList (_ :: _) => false
  end.

(** [if not isinstance(input_files, list): input_files = [input_files]]. *)
Definition as_list (input_files : py_files) : list string :=
  match input_files with
  | FilesNone => []
  | FilesStr path => [path]
  | FilesList paths => paths
  end.

(** The arguments [convert] hands to one thread. *)
Record job : Type := {
  index : nat;              (* the [i] of [CONVERTING [i]] *)
  input_file : string;
  output_file : string;
  job_options : options
}.

(** The texts of [self.logger.error] and of [console.print]. *)
Inductive log_message : Type :=
| NoInputFiles                        (* ERROR: NO INPUT FILES PROVIDED. *)
| NoOutputDirectory                   (* ERROR: OUTPUT DIRECTORY NOT PROVIDED. *)
| InvalidInputFile (path : string).   (* INVALID INPUT FILE PATH: path *)

Inductive notice : Type :=
| ConvertingMultiple                  (* CONVERTING MULTIPLE MEDIA FILES... *)
| ConvertingSingle                    (* CONVERTING SINGLE MEDIA FILE... *)
| Rule.                               (* the horizontal rule *)

(** What the main thread does, in order. *)
Inductive action : Type :=
| LogError (msg : log_message) (* self.logger.error(msg) *)
| ClearConsole                (* clear_console() *)
| ConsolePrint (msg : notice) (* console.print(msg) *)
| NewBar (i : nat)            (* tqdm(total=100, desc=CONVERTING [i]) *)
| Start (j : job)             (* thread.start(); threads.append(thread) *)
| Join (k : nat).             (* threads[k].join() *)

(** [f"{v}"] for an optional text: [None] is printed as its name. *)
Definition format_opt (v : option string) : string :=
  match v with
  | Some text => text
  | None => "None"
  end.

(** Lines 295-298. *)
Definition derive_output_file {os : OsPath} (output_dir : string)
  (fmt : option string) (input_file : string) : string :=
  let filename := os_path_basename input_file in
  os_path_join output_dir
    (os_path_splitext_root filename ++ "." ++ format_opt fmt).

(** The first input that [os.path.exists] rejects (lines 275-278). *)
Fixpoint first_missing (exists_ : string -> bool) (files : list string)
  : option string :=
  match files with
  | [] => None
  | input_file :: files' =>
      if exists_ input_file then first_missing exists_ files'
      else Some input_file
  end.

(** Lines 281-288. *)
Definition banner (files : list string) : list action :=
  if (1 <? List.length files)%nat then
    [ClearConsole; ConsolePrint ConvertingMultiple]
  else if (List.length files =? 1)%nat then
    [ClearConsole; ConsolePrint ConvertingSingle]
  else [].

(** The loop of lines 294-331, counting from [i]. *)
Fixpoint start_threads {os : OsPath} (output_dir : string) (o : options) (i : nat)
  (files : list string) : list action :=
  match files with
  | [] => []
  | input_file :: files' =>
      let j := {| index := i; input_file := input_file;
                  output_file := derive_output_file output_dir (f o) input_file;
                  job_options := o |} in
      NewBar i :: Start j :: start_threads output_dir o (S i) files'
  end.

(** The loop of lines 334-335 over the [count] threads that were appended. *)
Definition join_threads (count : nat) : list action :=
  map Join (seq 0 count).

Definition convert {os : OsPath} (exists_ : string -> bool) (input_files : py_files)
  (output_dir : option string) (o : options) : list action :=
  if no_files input_files then [LogError NoInputFiles]
  else
    match output_dir with
    | None => [LogError NoOutputDirectory]
    | Some dir =>
        if negb (truthy_str dir) then [LogError NoOutputDirectory]
        else
          let files := as_list input_files in
          match first_missing exists_ files with
          | Some input_file => [LogError (InvalidInputFile input_file)]
          | None =>
              banner files ++ [ConsolePrint Rule]
              ++ start_threads dir o 1 files
              ++ join_threads (List.length files)
          end
    end.

(** ** Threads

    The main thread and the workers it has started run side by side.  A
    configuration holds what is left of the main thread and, for every
    started thread in the order of [threads], what is left of it.  A
    step is one action of the main thread or one event of one worker; a
    [join] can only be taken once the joined thread has nothing left. *)

Inductive label : Type :=
| LMain (a : action)
| LWorker (k : nat) (e : event).

Record cfg : Type := {
  main : list action;
  threads : list (list event)
}.

(** [l[k] = v] on a list that has an index [k]. *)
Fixpoint set_nth {A : Type} (k : nat) (v : A) (l : list A) : list A :=
  match l, k with
  | [], _ => []
  | _ :: l', O => v :: l'
  | x :: l', S k' => x :: set_nth k' v l'
  end.

Section Threads.

(** What the thread of a job does: the events of [convert_single] on
    the arguments of the job, in the world of that job. *)
Variable worker : job -> list event.

Definition step_main (c : cfg) : option (label * cfg) :=
  match main c with
  | [] => None
  | Start j :: rest =>
      Some (LMain (Start j),
            {| main := rest; threads := threads c ++ [worker j] |})
  | Join k :: rest =>
      match nth_error (threads c) k with
      | Some [] => Some (LMain (Join k), {| main := rest; threads := threads c |})
      | _ => None
      end
  | a :: rest => Some (LMain a, {| main := rest; threads := threads c |})
  end.

Definition step_worker (k : nat) (c : cfg) : option (label * cfg) :=
  match nth_error (threads c) k with
  | Some (e :: rest) =>
      Some (LWorker k e,
            {| main := main c; threads := set_nth k rest (threads c) |})
  | _ => None
  end.

Inductive step : cfg -> label -> cfg -> Prop :=
| StepMain c l c' : step_main c = Some (l, c') -> step c l c'
| StepWorker k c l c' : step_worker k c = Some (l, c') -> step c l c'.

(** Executions, with the labels in the order they happen. *)
Inductive steps : cfg -> list label -> cfg -> Prop :=
| StepsNil c : steps c [] c
| StepsCons c l c' ls c'' : step c l c' -> steps c' ls c'' -> steps c (l :: ls) c''.

(** A schedule picks the thread of each step: [None] for the main
    thread, [Some k] for worker [k].  A pick that cannot move is passed over. *)
Fixpoint run_schedule (sched : list (option nat)) (c : cfg) : list label * cfg :=
  match sched with
  | [] => ([], c)
  | pick :: sched' =>
      let next :=
        match pick with
        | None => step_main c
        | Some k => step_worker k c
        end in
      match next with
      | Some (l, c') =>
          let (ls, c'') := run_schedule sched' c' in (l :: ls, c'')
      | None => run_schedule sched' c
      end
  end.

End Threads.

(** The events of worker [k] in an execution, and the actions of the main thread. *)
Fixpoint worker_events (k : nat) (ls : list label) : list event :=
  match ls with
  | [] => []
  | LWorker k' e :: ls' =>
      if (k' =? k)%nat then e :: worker_events k ls' else worker_events k ls'
  | LMain _ :: ls' => worker_events k ls'
  end.

Fixpoint main_actions (ls : list label) : list action :=
  match ls with
  | [] => []
  | LMain a :: ls' => a :: main_actions ls'
  | LWorker _ _ :: ls' => main_actions ls'
  end.

(** The jobs of the [Start] actions, in order. *)
Fixpoint started (acts : list action) : list job :=
  match acts with
  | [] => []
  | Start j :: acts' => j :: started acts'
  | _ :: acts' => started acts'
  end.

(** The outcomes a batch reports, in the order the workers print them. *)
Fixpoint reported (ls : list label) : list (nat * JobOutcome) :=
  match ls with
  | [] => []
  | LWorker k e :: ls' =>
      match outcome [e] with
      | Some out => (k, out) :: reported ls'
      | None => reported ls'
      end
  | LMain _ :: ls' => reported ls'
  end.

(** The batch as a whole: [worlds k] is the world of the job that is
    started at position [k] of the input. *)
Definition job_events {os : OsPath} (ffpe_path : string) (worlds : nat -> world)
  (j : job)
  : list event :=
  fst (convert_single (worlds (index j)) ffpe_path (input_file j)
         (output_file j) (job_options j) Tqdm.create).

Definition initial {os : OsPath} (exists_ : string -> bool) (input_files : py_files)
  (output_dir : option string) (o : options) : cfg :=
  {| main := convert exists_ input_files output_dir o; threads := [] |}.

(** ** Notions used in the statements *)


Definition is_update (e : event) : bool :=
  match e with
  | EvUpdate _ => true
  | _ => false
  end.


(** ** Concrete jobs *)

(** A world in which the probe answers [duration] and the launch gives [proc]. *)
Definition world_of (duration : Q) (proc : process) : world :=
  {| probe := fun _ => Ok duration; popen := fun _ => Ok proc |}.


(** A 60-second input: 15 seconds, a line without a time, 60 seconds. *)
Definition steady_process : process :=
  {| stdout := ["time=00:00:15.00"; "frame=120 size=..."; "time=00:00:60.00"];
     stdout_error := None;
     returncode := 0 |}.

(** ** The command line as the specification words it *)

(** An option is present when its value counts as true. *)
Definition present_str (x : option string) : option string :=
  match x with
  | Some v => if truthy_str v then Some v else None
  | None => None
  end.

Definition present_val (x : option pyval) : option pyval :=
  match x with
  | Some v => if truthy v then Some v else None
  | None => None
  end.

(** A flag with its value, or nothing. *)
Definition flag_pair (flag : string) (value : option string) : list string :=
  match value with
  | Some v => [flag; v]
  | None => []
  end.

(** The pairs of the options that follow the input, in the order of the
    specification. *)
Definition option_pairs (o : options) : list string :=
  flag_pair "-c:v" (present_str (cv o))
  ++ flag_pair "-c:a" (present_str (ca o))
  ++ flag_pair "-s" (option_map (Str.replace times_sign "x") (present_str (s o)))
  ++ flag_pair "-ar" (option_map py_str (present_val (ar o)))
  ++ flag_pair "-ac" (option_map py_str (present_val (ac o)))
  ++ flag_pair "-b:a" (option_map py_str (present_val (ba o)))
  ++ flag_pair "-r" (option_map py_str (present_val (r o)))
  ++ flag_pair "-f" (present_str (f o))
  ++ flag_pair "-preset" (present_str (preset o))
  ++ flag_pair "-b:v" (option_map py_str (present_val (bv o))).

Definition spec_command_line (executable input_path output_path : string)
  (o : options) : list string :=
  [executable; "-hide_banner"]
  ++ flag_pair "-hwaccel" (present_str (hwaccel o))
  ++ ["-i"; input_path]
  ++ option_pairs o
  ++ ["-y"; output_path].

(** The options with every value that counts as false taken away. *)
Definition drop_falsy (o : options) : options :=
  {| cv := present_str (cv o);
     ca := present_str (ca o);
     s := present_str (s o);
     hwaccel := present_str (hwaccel o);
     ar := present_val (ar o);
     ac := present_val (ac o);
     ba := present_val (ba o);
     r := present_val (r o);
     f := present_str (f o);
     preset := present_str (preset o);
     bv := present_val (bv o) |}.

(** Every option passed, each with a value that counts as false. *)
Definition falsy_options : options :=
  {| cv := Some ""; ca := Some ""; s := Some ""; hwaccel := Some "";
     ar := Some (PyInt 0); ac := Some (PyInt 0); ba := Some (PyInt 0);
     r := Some (PyInt 0); f := Some ""; preset := Some "";
     bv := Some (PyInt 0) |}.

(** The call of the docstring. *)
Definition docstring_options : options :=
  {| cv := Some "h264"; ca := Some "aac";
     s := Some ("1920" ++ String times_sign "1080")%string;
     hwaccel := Some "cuda"; ar := Some (PyInt 44100); ac := Some (PyInt 2);
     ba := Some (PyStr "192k"); r := Some (PyInt 30); f := Some "mp4";
     preset := Some "fast"; bv := Some (PyStr "50m") |}.

Definition is_probe (e : event) : bool :=
  match e with
  | EvProbe _ => true
  | _ => false
  end.

Definition is_popen (e : event) : bool :=
  match e with
  | EvPopen _ => true
  | _ => false
  end.

(** The probe fails: [ffprobe] prints no number and [float] raises. *)
Definition unprobed_world : world :=
  {| probe := fun _ => Raise ValueError;
     popen := fun _ => Ok steady_process |}.

(** The transcoder rejects its arguments: one line of complaint, status 1. *)
Definition rejected_process : process :=
  {| stdout := ["Unknown encoder 'h265x'"];
     stdout_error := None;
     returncode := 1 |}.

(** The transcoder stops half way through a 60-second input, status 0. *)
Definition halfway_process : process :=
  {| stdout := ["time=00:00:30.00"];
     stdout_error := None;
     returncode := 0 |}.

(** A line whose time has [x] where the decimal point should be, between
    two well-formed progress lines. *)
Definition malformed_process : process :=
  {| stdout := ["time=00:00:10.00"; "time=00:00:03x04"; "time=00:00:50.00"];
     stdout_error := None;
     returncode := 0 |}.

(** The same process with another exit status. *)
Definition with_returncode (status : Z) (proc : process) : process :=
  {| stdout := stdout proc;
     stdout_error := stdout_error proc;
     returncode := status |}.

(** The threads of a configuration and of the jobs that are still to be
    started: what is left to do of every worker of the batch. *)
Definition pending (worker : job -> list event) (c : cfg) : list (list event) :=
  threads c ++ map worker (started (main c)).

(** The [k] of the [Join] actions, in order. *)
Fixpoint joined (acts : list action) : list nat :=
  match acts with
  | [] => []
  | Join k :: acts' => k :: joined acts'
  | _ :: acts' => joined acts'
  end.

(** Three inputs; the probe of the second one fails. *)
Definition three_files : list string := ["a.avi"; "b.avi"; "c.avi"].

Definition three_worlds (i : nat) : world :=
  match i with
  | 2%nat => unprobed_world
  | _ => world_of 60 steady_process
  end.

(** The main thread starts the three workers; the second worker runs to
    its end, then the first, then the third; the main thread joins them. *)
Definition second_first : list (option nat) :=
  repeat None 9 ++ repeat (Some 1%nat) 3 ++ repeat (Some 0%nat) 8
  ++ repeat (Some 2%nat) 8 ++ repeat None 3.

(** ** Timestamps as the specification words them *)

(** A run of at least one digit. *)
Definition number (d : string) : Prop := d <> "" /\ Str.all_digits d = true.

(** The text [HH:MM:SS.ss]. *)
Definition timestamp (hh mm ss frac : string) : string :=
  (hh ++ ":" ++ mm ++ ":" ++ ss ++ "." ++ frac)%string.

(** Its seconds: [h * 3600 + m * 60 + s]. *)
Definition timestamp_seconds (hh mm ss frac : string) : Q :=
  elapsed_time (inject_Z (Str.digits_value hh)) (inject_Z (Str.digits_value mm))
    (inject_Z (Str.digits_value ss)
     + inject_Z (Str.digits_value frac)
       / inject_Z (10 ^ Z.of_nat (String.length frac)))%Q.

Definition starts_with_digit (text : string) : bool :=
  match text with
  | String c _ => Str.is_digit c
  | EmptyString => false
  end.

(** The character [c] does not occur in the text. *)
Fixpoint lacks (c : ascii) (text : string) : bool :=
  match text with
  | EmptyString => true
  | String a text' => negb (Ascii.eqb a c) && lacks c text'
  end.

(** ** Notions used in the further properties of the worker *)

(** The sum of what the worker hands to [progress_bar.update]. *)
Fixpoint updates_total (evs : list event) : Z :=
  match evs with
  | [] => 0
  | EvUpdate k :: evs' => k + updates_total evs'
  | _ :: evs' => updates_total evs'
  end.

(** The three prints that tell how a job ended. *)
Definition is_report (e : event) : bool :=
  match e with
  | EvCompleted _ | EvCommandFailed _ | EvError _ => true
  | _ => false
  end.

(** The line makes the loop do something: the pattern is found in it. *)
Definition has_time (line : string) : bool :=
  match parse_line line with
  | NoMatch => false
  | _ => true
  end.

(** The world [w] with [proc] as the process of every launch, and the
    process [proc] with other output lines. *)
Definition with_process (w : world) (proc : process) : world :=
  {| probe := probe w; popen := fun _ => Ok proc |}.

Definition with_stdout (lines : list string) (proc : process) : process :=
  {| stdout := lines;
     stdout_error := stdout_error proc;
     returncode := returncode proc |}.

(** How a run ends: with the print of a failure, or with the closing of
    the bar and the print of the completion. *)
Inductive ending (progress_bar : Tqdm.bar) : list event -> Tqdm.bar -> Prop :=
| EndFailed e : ending progress_bar [handler e] progress_bar
| EndCompleted name :
    ending progress_bar [EvClose; EvCompleted name; EvSleep]
      (Tqdm.close progress_bar).

(** ** A call without a progress bar

    [progress_bar] has the default [None]; [convert_single] uses it
    without a test, so the first use raises [AttributeError]. *)

Definition no_attribute (name : string) : exn :=
  OtherException ("'NoneType' object has no attribute '" ++ name ++ "'").

(** ** Notions used in the further properties of the batch *)

(** The main thread can run to its end: what is left of it is actions
    that are not joins, then joins of threads that are started or are
    among those still to be started. *)
Definition ready (c : cfg) : Prop :=
  exists acts ks,
    main c = acts ++ map Join ks
    /\ joined acts = []
    /\ Forall (fun k => (k < List.length (threads c) + List.length (started acts))%nat) ks.

(** ** Text operations of the queries *)

Module Text.

(** [c.isspace()] on Latin-1: what [strip()] and [split()] take away. *)
Definition is_space (c : ascii) : bool :=
  let n := nat_of_ascii c in
  ((9 <=? n) && (n <=? 13) || (28 <=? n) && (n <=? 32)
   || (n =? 133) || (n =? 160))%nat.

(** [c in text] for one character. *)
Fixpoint contains (c : ascii) (text : string) : bool :=
  match text with
  | EmptyString => false
  | String a text' => Ascii.eqb a c || contains c text'
  end.

(** [text.lstrip(chars)], [text.rstrip(chars)] and [text.strip(chars)],
    the characters to take away given as a test. *)
Fixpoint lstrip_if (drop : ascii -> bool) (text : string) : string :=
  match text with
  | EmptyString => EmptyString
  | String a text' => if drop a then lstrip_if drop text' else text
  end.

Fixpoint rstrip_if (drop : ascii -> bool) (text : string) : string :=
  match text with
  | EmptyString => EmptyString
  | String a text' =>
      match rstrip_if drop text' with
      | EmptyString => if drop a then EmptyString else String a EmptyString
      | kept => String a kept
      end
  end.

Definition strip_if (drop : ascii -> bool) (text : string) : string :=
  rstrip_if drop (lstrip_if drop text).

(** [text.strip()]. *)
Definition strip (text : string) : string := strip_if is_space text.

(** [text.strip("()")]. *)
Definition strip_parens (text : string) : string :=
  strip_if (fun c => Ascii.eqb c "(" || Ascii.eqb c ")") text.

(** [text.split()]: the runs of characters that are not white space. *)
Fixpoint split_ws_from (cur : string) (text : string) : list string :=
  match text with
  | EmptyString => if String.eqb cur "" then [] else [cur]
  | String a text' =>
      if is_space a then
        if String.eqb cur "" then split_ws_from "" text'
        else cur :: split_ws_from "" text'
      else split_ws_from (cur ++ String a "") text'
  end.

Definition split_ws (text : string) : list string := split_ws_from "" text.

(** [sep.join(items)]. *)
Fixpoint join (sep : string) (items : list string) : string :=
  match items with
  | [] => ""
  | [item] => item
  | item :: items' => item ++ sep ++ join sep items'
  end.

(** [text.split(":", 1)] for a text with a colon in it: what is before
    the first colon and what is after it. *)
Fixpoint split_once (sep : ascii) (text : string) : string * string :=
  match text with
  | EmptyString => ("", "")
  | String a text' =>
      if Ascii.eqb a sep then ("", text')
      else let (before, after) := split_once sep text' in (String a before, after)
  end.

End Text.

(** ** The queries (lines 509-741) *)

(** [subprocess.run(command, stdout=PIPE, stderr=PIPE, check=True)] with
    the decoding of its output: the text, or the exception of the run or
    of the decoding. *)
Record query_world : Type := {
  run_command : list string -> result string
}.

Inductive legend : Type :=
| CodecsLegend     (* CODECS FEATURES LEGEND: ... *)
| FormatsLegend.   (* FILE FORMATS FEATURES LEGEND: ... *)

(** What a query does: the run of the command, and what it hands to
    [console.print].  A table is its column titles and the rows given to
    [add_row]; how the console draws it is not part of the model. *)
Inductive shown : Type :=
| Ran (command : list string)
| ShowLegend (l : legend)
| ShowRule
| ShowTable (titles : list string) (rows : list (list string))
| ShowCommandFailed (e : exn)   (* FFPE COMMAND FAILED WITH ERROR *)
| ShowError (e : exn)           (* AN ERROR OCCURRED *)
| Collected.                    (* gc.collect() *)

(** The sum of lines 586-595 (and 672-681). *)
Definition features_str (features : string) : string :=
  ((if Text.contains "D" features then ".D" else "")
   ++ (if Text.contains "E" features then ".E" else "")
   ++ (if Text.contains "V" features then ".V" else "")
   ++ (if Text.contains "A" features then ".A" else "")
   ++ (if Text.contains "S" features then ".S" else "")
   ++ (if Text.contains "T" features then ".T" else "")
   ++ (if Text.contains "I" features then ".I" else "")
   ++ (if Text.contains "L" features then ".L" else ""))%string.

(** The row of one line of [-codecs] (lines 578-599), if it gives one. *)
Definition codec_row (line : string) : option (list string) :=
  if truthy_str line then
    let fields := Text.split_ws line in
    if (4 <=? List.length fields)%nat then
      let codec_name := nth 1 fields "" in
      let codec_type := Text.strip_parens (nth 2 fields "") in
      let codec_description := Text.join " " (skipn 3 fields) in
      let features := nth 0 fields "" in
      Some [codec_name; codec_type; codec_description; features_str features]
    else None
  else None.

(** The row of one line of [-formats] (lines 664-683), if it gives one. *)
Definition format_row (line : string) : option (list string) :=
  if truthy_str line then
    let fields := Text.split_ws line in
    if (2 <=? List.length fields)%nat then
      let format_name := nth 1 fields "" in
      let format_description := Text.join " " (skipn 2 fields) in
      let features := nth 0 fields "" in
      Some [format_name; format_description; features_str features]
    else None
  else None.

(** The rows of a loop that adds at most one row per line. *)
Fixpoint rows_of (row : string -> option (list string)) (lines : list string)
  : list (list string) :=
  match lines with
  | [] => []
  | line :: lines' =>
      match row line with
      | Some cells => cells :: rows_of row lines'
      | None => rows_of row lines'
      end
  end.

Section Queries.

(** [str.upper]: on Latin-1 text it can lead out of Latin-1, so it is
    taken as given. *)
Variable upper : string -> string.

(** [x.strip().upper() if x.strip() else "NONE"]. *)
Definition cell (x : string) : string :=
  if truthy_str (Text.strip x) then upper (Text.strip x) else "NONE".

(** The rows of the help of an encoder (lines 553-563). *)
Fixpoint encoder_rows (lines : list string) : list (list string) :=
  match lines with
  | [] => []
  | line :: lines' =>
      if truthy_str line && Text.contains ":" line then
        let (property, value) := Text.split_once ":" line in
        [cell property; cell value] :: [""; ""] :: encoder_rows lines'
      else encoder_rows lines'
  end.

(** [except CalledProcessError ... except Exception ...] of the queries. *)
Definition show_failure (e : exn) : shown :=
  match e with
  | CalledProcessError _ => ShowCommandFailed e
  | _ => ShowError e
  end.

(** The body of [codecs] (lines 531-625). *)
Definition codecs_body (w : query_world) (ffpe_path : string)
  (encoder : option string) : list shown :=
  let asked := match encoder with Some e => truthy_str e | None => false end in
  let command :=
    if asked then [ffpe_path; "-h"; ("encoder=" ++ format_opt encoder)%string]
    else [ffpe_path; "-codecs"] in
  match run_command w command with
  | Raise e => [Ran command; show_failure e; Collected]
  | Ok output =>
      let lines := Str.split Str.newline output in
      if asked then
        [Ran command;
         ShowTable ["PROPERTY"; "VALUE"] (encoder_rows (skipn 1 lines));
         Collected]
      else
        [Ran command; ShowLegend CodecsLegend; ShowRule;
         ShowTable ["CODECS"; "TYPE"; "DESCRIPTION"; "FEATURES"]
           (rows_of codec_row (skipn 11 lines));
         Collected]
  end.

(** The body of [formats] (lines 644-700). *)
Definition formats_body (w : query_world) (ffpe_path : string) : list shown :=
  let command := [ffpe_path; "-formats"] in
  match run_command w command with
  | Raise e => [Ran command; show_failure e; Collected]
  | Ok output =>
      let lines := Str.split Str.newline output in
      [Ran command; ShowLegend FormatsLegend; ShowRule;
       ShowTable ["FORMAT"; "DESCRIPTION"; "FEATURES"]
         (rows_of format_row (skipn 5 lines));
       Collected]
  end.

(** The body of [hwaccels] (lines 718-741). *)
Definition hwaccels_body (w : query_world) (ffpe_path : string) : list shown :=
  let command := [ffpe_path; "-hwaccels"] in
  match run_command w command with
  | Raise e => [Ran command; show_failure e; Collected]
  | Ok output =>
      let hwaccels := Str.split Str.newline (Text.strip output) in
      [Ran command;
       ShowTable ["HARDWARE ACCELERATION METHODS"]
         (map (fun hwaccel => [hwaccel]) (skipn 1 hwaccels));
       Collected]
  end.

(** How a query is called: [lru_cache] keeps one entry per way of
    passing the arguments ([self] apart, which is the same throughout). *)
Inductive call : Type :=
| CodecsDefault                          (* codecs() *)
| CodecsPositional (encoder : option string)  (* codecs(x) *)
| CodecsKeyword (encoder : option string)     (* codecs(encoder=x) *)
| Formats                                (* formats() *)
| Hwaccels.                              (* hwaccels() *)

Definition option_eqb (x y : option string) : bool :=
  match x, y with
  | Some a, Some b => String.eqb a b
  | None, None => true
  | _, _ => false
  end.

Definition call_eqb (x y : call) : bool :=
  match x, y with
  | CodecsDefault, CodecsDefault => true
  | CodecsPositional a, CodecsPositional b => option_eqb a b
  | CodecsKeyword a, CodecsKeyword b => option_eqb a b
  | Formats, Formats => true
  | Hwaccels, Hwaccels => true
  | _, _ => false
  end.

Definition body_of (w : query_world) (ffpe_path : string) (c : call)
  : list shown :=
  match c with
  | CodecsDefault => codecs_body w ffpe_path None
  | CodecsPositional encoder => codecs_body w ffpe_path encoder
  | CodecsKeyword encoder => codecs_body w ffpe_path encoder
  | Formats => formats_body w ffpe_path
  | Hwaccels => hwaccels_body w ffpe_path
  end.

(** A call through [lru_cache(maxsize=None)]: the body runs when the
    call is not in the cache, and the call is then kept (the bodies
    always return, their exceptions being caught inside). *)
Definition query (w : query_world) (ffpe_path : string) (c : call)
  (cache : list call) : list shown * list call :=
  if existsb (call_eqb c) cache then ([], cache)
  else (body_of w ffpe_path c, c :: cache).

(** A session: calls one after the other, each in the world of its time. *)
Fixpoint session (ffpe_path : string) (calls : list (query_world * call))
  (cache : list call) : list (list shown) * list call :=
  match calls with
  | [] => ([], cache)
  | (w, c) :: calls' =>
      let (out, cache') := query w ffpe_path c cache in
      let (outs, cache'') := session ffpe_path calls' cache' in
      (out :: outs, cache'')
  end.

End Queries.

(** [str.upper] on ASCII text. *)
Definition ascii_upper_char (c : ascii) : ascii :=
  let n := nat_of_ascii c in
  if ((97 <=? n) && (n <=? 122))%nat then ascii_of_nat (n - 32) else c.

Fixpoint ascii_upper (text : string) : string :=
  match text with
  | EmptyString => EmptyString
  | String c text' => String (ascii_upper_char c) (ascii_upper text')
  end.

(** ** Notions used in the properties of the queries *)

(** No character of the text is white space; all of them are. *)
Fixpoint no_space (text : string) : bool :=
  match text with
  | EmptyString => true
  | String a text' => negb (Text.is_space a) && no_space text'
  end.

Fixpoint all_space (text : string) : bool :=
  match text with
  | EmptyString => true
  | String a text' => Text.is_space a && all_space text'
  end.

(** A field of a line: not empty, no white space in it. *)
Definition is_word (text : string) : bool := truthy_str text && no_space text.

(** The text of a line break. *)
Definition line_break : string := String Str.newline "".

(** Every row of a table has one cell per title. *)
Definition well_formed (ev : shown) : Prop :=
  match ev with
  | ShowTable titles rows =>
      Forall (fun cells => List.length cells = List.length titles) rows
  | _ => True
  end.

(** The rows of the table a query shows, if it shows one. *)
Fixpoint table_rows (evs : list shown) : option (list (list string)) :=
  match evs with
  | [] => None
  | ShowTable _ rows :: _ => Some rows
  | _ :: evs' => table_rows evs'
  end.

(** The executable that prints [output] whatever it is asked. *)
Definition answering (output : string) : query_world :=
  {| run_command := fun _ => Ok output |}.

(** The number of lines of a text. *)
Definition line_count (output : string) : nat :=
  List.length (Str.split Str.newline output).

(** ** The logger (lines 140-167)

    [logging.getLogger("ffpe_logger")] is one logger for the whole
    process; its state here is the number of stream handlers attached
    to it.  [addHandler] attaches a handler that is not attached yet,
    and [error] makes every attached handler write the message. *)

Record logging : Type := { handlers : nat }.

(** A process in which no instance has been made yet. *)
Definition fresh_logging : logging := {| handlers := 0 |}.

(** [_initialize_logger]: a new [StreamHandler] is made and attached. *)
Definition _initialize_logger (st : logging) : logging :=
  {| handlers := S (handlers st) |}.

(** [__init__]: the path of the executable is set and the logger is
    initialized. *)
Definition __init__ (st : logging) : logging := _initialize_logger st.

(** The messages the handlers write while the main thread performs [acts]. *)
Fixpoint written (st : logging) (acts : list action) : list log_message :=
  match acts with
  | [] => []
  | LogError msg :: acts' => repeat msg (handlers st) ++ written st acts'
  | _ :: acts' => written st acts'
  end.

(** The error messages among the actions. *)
Fixpoint errors (acts : list action) : list log_message :=
  match acts with
  | [] => []
  | LogError msg :: acts' => msg :: errors acts'
  | _ :: acts' => errors acts'
  end.

(** * The arithmetic of the progress loop in binary64

    Python's [float] is IEEE 754 binary64.  The definitions above read
    the numbers of the loop as exact rationals, which is enough for the
    order and the bounds of the percents; the module below evaluates the
    same lines of the source with every operation rounded as the machine
    rounds it (to nearest, ties to even), with the infinities and NaN.
    The two zeros are not told apart: nothing in the loop observes the
    sign of a zero ([x / -0.0] raises like [x / 0.0]). *)

(** [int(x)] for an infinite [x] raises [OverflowError]; for a NaN it
    raises [ValueError]. *)
Definition OverflowError : exn :=
  OtherException "OverflowError: cannot convert float infinity to integer".

Module B64.

(** A binary64 value: a finite number (given by its exact value), an
    infinity, or NaN. *)
Inductive t : Type :=
| Finite (q : Q)
| PosInf
| NegInf
| NaN.

(** The format: 53 binary digits; the least normal number is [2^emin];
    [2^emax] is the first power of two that is out of range. *)
Definition prec : Z := 53.
Definition emin : Z := -1022.
Definition emax : Z := 1024.

Definition pow2 (e : Z) : Q := (2 ^ e)%Q.

(** [floor(log2 a)] for a positive rational [a]. *)
Definition ilog2 (a : Q) : Z :=
  let d := (Z.log2 (Qnum a) - Z.log2 (Zpos (Qden a)))%Z in
  if Qle_bool (pow2 d) a then d else (d - 1)%Z.

(** The nearest integer, a tie going to the even one. *)
Definition rne (x : Q) : Z :=
  let f := Qfloor x in
  match (x - inject_Z f ?= 1 # 2)%Q with
  | Lt => f
  | Gt => (f + 1)%Z
  | Eq => if Z.even f then f else (f + 1)%Z
  end.

(** The gap between the binary64 numbers around a positive [a]: below
    [2^emin] (the subnormal range) it is the least gap, [2^-1074]. *)
Definition ulp (a : Q) : Q := pow2 (Z.max (ilog2 a) emin - (prec - 1)).

(** The multiple of [ulp a] nearest to a positive [a]. *)
Definition round_abs (a : Q) : Q :=
  Qred (inject_Z (rne (a / ulp a)) * ulp a)%Q.

(** The binary64 value of an exact result: rounded to nearest, ties to
    even; what rounds to [2^emax] or beyond is an infinity. *)
Definition round (x : Q) : t :=
  match (x ?= 0)%Q with
  | Eq => Finite 0
  | Gt => let r := round_abs x in
          if Qle_bool (pow2 emax) r then PosInf else Finite r
  | Lt => let r := round_abs (- x)%Q in
          if Qle_bool (pow2 emax) r then NegInf else Finite (- r)%Q
  end.

Definition opp (x : t) : t :=
  match x with
  | Finite q => Finite (- q)%Q
  | PosInf => NegInf
  | NegInf => PosInf
  | NaN => NaN
  end.

(** An infinity times (or divided by) a finite number. *)
Definition scale_inf (inf : t) (a : Q) : t :=
  match (a ?= 0)%Q with
  | Gt => inf
  | Lt => opp inf
  | Eq => NaN
  end.

(** [x * y]. *)
Definition mul (x y : t) : t :=
  match x, y with
  | NaN, _ | _, NaN => NaN
  | Finite a, Finite b => round (a * b)
  | Finite a, _ => scale_inf y a
  | _, Finite b => scale_inf x b
  | PosInf, PosInf | NegInf, NegInf => PosInf
  | _, _ => NegInf
  end.

(** [x + y]. *)
Definition add (x y : t) : t :=
  match x, y with
  | NaN, _ | _, NaN => NaN
  | Finite a, Finite b => round (a + b)
  | PosInf, NegInf | NegInf, PosInf => NaN
  | PosInf, _ | _, PosInf => PosInf
  | _, _ => NegInf
  end.

Definition is_zero (x : t) : bool :=
  match x with
  | Finite q => Qeq_bool q 0
  | _ => false
  end.

(** [x / y]: Python raises [ZeroDivisionError] when [y] is a zero,
    whatever [x] is. *)
Definition div (x y : t) : result t :=
  if is_zero y then Raise ZeroDivisionError
  else Ok match x, y with
          | NaN, _ | _, NaN => NaN
          | Finite a, Finite b => round (a / b)
          | Finite _, _ => Finite 0
          | _, Finite b => scale_inf x b
          | _, _ => NaN
          end.

(** [x < y]; a comparison with NaN is false. *)
Definition ltb (x y : t) : bool :=
  match x, y with
  | NaN, _ | _, NaN => false
  | Finite a, Finite b => negb (Qle_bool b a)
  | _, NegInf => false
  | NegInf, _ => true
  | PosInf, _ => false
  | _, PosInf => true
  end.

(** [min(x, y)] returns [x] unless [y < x]. *)
Definition min (x y : t) : t := if ltb y x then y else x.

(** [np.ceil(x)]. *)
Definition ceil (x : t) : t :=
  match x with
  | Finite q => Finite (inject_Z (Qceiling q))
  | _ => x
  end.

(** [int(x)]: towards zero. *)
Definition int (x : t) : result Z :=
  match x with
  | Finite q => Ok (if Qle_bool 0 q then Qfloor q else Qceiling q)
  | PosInf | NegInf => Raise OverflowError
  | NaN => Raise ValueError
  end.

(** [float(field)]: the binary64 number nearest to the number the text
    denotes. *)
Definition float (field : string) : result t :=
  q <- float_field field ;; Ok (round q).

(** [h, m, s = map(float, time_str.split(":"))]. *)
Definition unpack_hms (fields : list string) : result (t * t * t) :=
  match fields with
  | [fh; fm; fs] =>
      h <- float fh ;;
      m <- float fm ;;
      s <- float fs ;;
      Ok (h, m, s)
  | _ => Raise ValueError
  end.

(** [elapsed_time = h * 3600 + m * 60 + s]. *)
Definition elapsed_time (h m s : t) : t :=
  add (add (mul h (Finite 3600)) (mul m (Finite 60))) s.

Inductive line_reading : Type :=
| NoMatch
| Elapsed (seconds : t)
| Failure (e : exn).

(** Lines 479-483. *)
Definition parse_line (line : string) : line_reading :=
  match Re.search line with
  | None => NoMatch
  | Some time_str =>
      match unpack_hms (Str.split ":" time_str) with
      | Ok (h, m, s) => Elapsed (elapsed_time h m s)
      | Raise e => Failure e
      end
  end.

(** [progress = min(elapsed_time / duration, 1.0)]. *)
Definition progress (elapsed duration : t) : result t :=
  quotient <- div elapsed duration ;; Ok (min quotient (Finite 1)).

(** [progress_percentage = int(np.ceil(progress * 100))]. *)
Definition progress_percentage (elapsed duration : t) : result Z :=
  p <- progress elapsed duration ;; int (ceil (mul p (Finite 100))).

(** The loop over [process.stdout] (lines 478-488). *)
Fixpoint read_progress (duration : t) (lines : list string)
  (progress_bar : Tqdm.bar) : run unit :=
  match lines with
  | [] => ([], progress_bar, Ok tt)
  | line :: lines' =>
      match parse_line line with
      | NoMatch => read_progress duration lines' progress_bar
      | Failure e => ([], progress_bar, Raise e)
      | Elapsed elapsed =>
          match progress_percentage elapsed duration with
          | Raise e => ([], progress_bar, Raise e)
          | Ok percent =>
              let k := (percent - Tqdm.n progress_bar)%Z in
              let '(evs, bar', res) :=
                read_progress duration lines' (Tqdm.update k progress_bar) in
              (EvUpdate k :: evs, bar', res)
          end
      end
  end.

(** [get_duration]: the seconds the probe gives, as a binary64 value. *)
Definition get_duration (w : world) (file_path : string) : result t :=
  d <- probe w file_path ;; Ok (round d).

(** The seconds of the text [HH:MM:SS.ss]: each field is converted, then
    [h * 3600 + m * 60 + s] is computed with three roundings. *)
Definition timestamp_seconds (hh mm ss frac : string) : t :=
  elapsed_time
    (round (inject_Z (Str.digits_value hh)))
    (round (inject_Z (Str.digits_value mm)))
    (round (inject_Z (Str.digits_value ss)
            + inject_Z (Str.digits_value frac)
              / inject_Z (10 ^ Z.of_nat (String.length frac)))%Q).

(** The value is not NaN and not below zero. *)
Definition nonneg (x : t) : Prop :=
  match x with
  | Finite q => (0 <= q)%Q
  | PosInf => True
  | _ => False
  end.

(** The value is a number, or minus infinity, not above a whole number. *)
Definition at_most (M : Z) (x : t) : Prop :=
  match x with
  | Finite q => (q <= inject_Z M)%Q
  | NegInf => True
  | _ => False
  end.

End B64.

(** ** A direct call of [convert_single] without a progress bar

    [convert_single] is wrapped in [lru_cache(maxsize=None)] (line 337)
    and its body always returns, the exceptions being caught inside it.
    A direct call is therefore answered from the cache when the same
    call was made before, and nothing of the body runs then. *)

(** The loop of lines 478-488 with [progress_bar = None]: the percent is
    computed before the bar is used. *)
Fixpoint read_progress_no_bar (duration : B64.t) (lines : list string)
  : result unit :=
  match lines with
  | [] => Ok tt
  | line :: lines' =>
      match B64.parse_line line with
      | B64.NoMatch => read_progress_no_bar duration lines'
      | B64.Failure e => Raise e
      | B64.Elapsed elapsed =>
          _ <- B64.progress_percentage elapsed duration ;;
          Raise (no_attribute "update")
      end
  end.

(** The body of [convert_single] with [progress_bar = None]. *)
Definition convert_single_no_bar {os : OsPath} (w : world)
  (ffpe_path input_file output_file : string) (o : options) : list event :=
  let command := build_command ffpe_path input_file output_file o in
  match B64.get_duration w input_file with
  | Raise e => [EvProbe input_file; handler e; EvCollect]
  | Ok duration =>
      match popen w command with
      | Raise e => [EvProbe input_file; EvPopen command; handler e; EvCollect]
      | Ok proc =>
          let raised :=
            match read_progress_no_bar duration (stdout proc), stdout_error proc with
            | Raise e, _ => e
            | Ok _, Some e => e
            | Ok _, None => no_attribute "close"
            end in
          [EvProbe input_file; EvPopen command; handler raised; EvCollect]
      end
  end.

(** A direct call: the way the arguments are passed (which of them by
    position, which by keyword and in what order; [lru_cache] tells them
    apart) and the values passed ([self] apart, which is the same
    throughout). *)
Record direct_call : Type := {
  passing : nat;
  call_input : string;
  call_output : string;
  call_options : options
}.

Definition direct_call_eq_dec (x y : direct_call) : {x = y} + {x <> y}.
Proof. repeat decide equality. Defined.

(** The call through [lru_cache]: the events of the call and the cache
    after it. *)
Definition convert_single_direct {os : OsPath} (w : world)
  (ffpe_path : string) (c : direct_call) (cache : list direct_call)
  : list event * list direct_call :=
  if in_dec direct_call_eq_dec c cache then ([], cache)
  else (convert_single_no_bar w ffpe_path
          (call_input c) (call_output c) (call_options c),
        c :: cache).
(** * Properties *)

(** ** The model on concrete inputs *)

Example search_leftmost :
  Re.search "xtime=1:time=00:10:03.04 time=1:1:1.1" = Some "00:10:03.04".
Proof. reflexivity. Qed.

Example search_needs_three_fields : Re.search "time=0:0:12" = None.
Proof. reflexivity. Qed.

Example search_dot_is_not_newline :
  Re.search ("time=00:00:03" ++ String Str.newline "04") = None.
Proof. reflexivity. Qed.

Example search_gives_back_digits : Re.search "time=00:00:0304" = Some "00:00:0304".
Proof. reflexivity. Qed.

Example parse_line_no_marker : parse_line "frame=120 size=..." = NoMatch.
Proof. reflexivity. Qed.

Example parse_line_not_available : parse_line "size=N/A time=N/A bitrate=N/A" = NoMatch.
Proof. reflexivity. Qed.

Example parse_line_underscore : parse_line "time=00:00:03_04" = Elapsed 304.
Proof. vm_compute. reflexivity. Qed.

Example parse_line_exponent : parse_line "time=00:00:03e2" = Elapsed 300.
Proof. vm_compute. reflexivity. Qed.

Example parse_line_four_fields : parse_line "time=00:00:03:04" = Failure ValueError.
Proof. reflexivity. Qed.

Example split_fields : Str.split ":" "01:02:03.50" = ["01"; "02"; "03.50"].
Proof. reflexivity. Qed.

Example str_of_Z_examples :
  (Str.str_of_Z 0, Str.str_of_Z 44100, Str.str_of_Z (-5)) = ("0", "44100", "-5").
Proof. reflexivity. Qed.

Example posix_examples :
  map (derive_output_file "out" None)
    ["/in/a.mp4"; "b.tar.gz"; ".bashrc"; "/x/..c"]
  = ["out/a.None"; "out/b.tar.None"; "out/.bashrc.None"; "out/..c.None"]
  /\ (Posix.join "out/" "x", Posix.join "" "x", Posix.join "a" "/x")
     = ("out/x", "x", "/x").
Proof. split; reflexivity. Qed.

Example percent_examples :
  map (fun elapsed => progress_percentage elapsed 60) [0; 15; 29.5; 60; 61]%Q
  = [0; 25; 50; 100; 100]%Z.
Proof. reflexivity. Qed.

(** ** The percent of a line *)

Lemma py_min_Qmin (a b : Q) : py_min a b = Qmin a b.
Proof.
  unfold py_min, Qmin, GenericMinMax.gmin.
  destruct (Qle_bool a b) eqn:Hle.
  - apply Qle_bool_iff in Hle.
    destruct (a ?= b)%Q eqn:Hc; try reflexivity.
    apply Qgt_alt in Hc. exfalso. apply (Qlt_not_le _ _ Hc Hle).
  - destruct (a ?= b)%Q eqn:Hc; try reflexivity; exfalso.
    + apply Qeq_alt in Hc. assert (Hle' : (a <= b)%Q) by (rewrite Hc; apply Qle_refl).
      apply Qle_bool_iff in Hle'. congruence.
    + apply Qlt_alt in Hc. apply Qlt_le_weak in Hc.
      apply Qle_bool_iff in Hc. congruence.
Qed.




(** ** The values of the bar within a job *)








(** ** The command line *)

Lemma if_str_pairs (x : option string) (extra : string -> list string)
  (command : list string) :
  if_str x extra command
  = command ++ match present_str x with Some v => extra v | None => [] end.
Proof.
  unfold if_str, present_str.
  destruct x as [v |]; [destruct (truthy_str v) |]; now rewrite ?app_nil_r.
Qed.

Lemma if_val_pairs (x : option pyval) (extra : pyval -> list string)
  (command : list string) :
  if_val x extra command
  = command ++ match present_val x with Some v => extra v | None => [] end.
Proof.
  unfold if_val, present_val.
  destruct x as [v |]; [destruct (truthy v) |]; now rewrite ?app_nil_r.
Qed.

Lemma flag_pair_str (flag : string) (x : option string) (g : string -> string) :
  match x with Some v => [flag; g v] | None => [] end
  = flag_pair flag (option_map g x).
Proof. now destruct x. Qed.

Lemma flag_pair_val (flag : string) (x : option pyval) :
  match x with Some v => [flag; py_str v] | None => [] end
  = flag_pair flag (option_map py_str x).
Proof. now destruct x. Qed.

(** The command whatever the output path: the overwrite flag and the
    path are added when the path is not empty. *)
Lemma build_command_shape (ffpe_path inp out : string) (o : options) :
  build_command ffpe_path inp out o
  = [ffpe_path; "-hide_banner"]
    ++ flag_pair "-hwaccel" (present_str (hwaccel o))
    ++ ["-i"; inp]
    ++ option_pairs o
    ++ (if truthy_str out then ["-y"; out] else []).
Proof.
  unfold build_command, option_pairs.
  rewrite !if_str_pairs, !if_val_pairs.
  rewrite !flag_pair_val.
  rewrite (flag_pair_str "-s" _ (Str.replace times_sign "x")).
  rewrite !(flag_pair_str _ _ (fun v => v)).
  assert (Hid : forall x : option string, option_map (fun v => v) x = x)
    by (now intros []).
  rewrite !Hid.
  destruct (truthy_str out); rewrite <- ?app_assoc; rewrite ?app_nil_r;
    reflexivity.
Qed.

Lemma present_str_idem (x : option string) :
  present_str (present_str x) = present_str x.
Proof.
  destruct x as [v |]; cbn; [| reflexivity].
  destruct (truthy_str v) eqn:Hv; cbn; now rewrite ?Hv.
Qed.

Lemma present_val_idem (x : option pyval) :
  present_val (present_val x) = present_val x.
Proof.
  destruct x as [v |]; cbn; [| reflexivity].
  destruct (truthy v) eqn:Hv; cbn; now rewrite ?Hv.
Qed.



Lemma build_command_of_present (ffpe_path inp out : string) (o : options) :
  build_command ffpe_path inp out o
  = build_command ffpe_path inp out (drop_falsy o).
Proof.
  rewrite !build_command_shape. unfold option_pairs, drop_falsy.
  cbn [cv ca s hwaccel ar ac ba r f preset bv].
  now rewrite !present_str_idem, !present_val_idem.
Qed.

(** C10.  An option whose value counts as false (0, or the empty text)
    leaves the command as it is without the option: the command of any
    options is the command of the same options with those values taken
    away, two calls whose options agree once such values are taken away
    give the same command, and passing every option with such a value
    gives the command of passing none. *)
Theorem build_command_drops_falsy (ffpe_path inp out : string) (o : options) :
  build_command ffpe_path inp out o
  = build_command ffpe_path inp out (drop_falsy o)
  /\ (forall o', drop_falsy o' = drop_falsy o ->
                 build_command ffpe_path inp out o'
                 = build_command ffpe_path inp out o)
  /\ build_command ffpe_path inp out falsy_options
     = build_command ffpe_path inp out no_options.
Proof.
  split; [apply build_command_of_present | split].
  - intros o' H.
    rewrite (build_command_of_present ffpe_path inp out o').
    rewrite (build_command_of_present ffpe_path inp out o).
    now rewrite H.
  - reflexivity.
Qed.

(** ** The worker *)

Lemma handler_outcome (e : exn) (rest : list event) :
  outcome (handler e :: rest) = Some (Failed e).
Proof. now destruct e. Qed.

(** C8.  When the duration probe of a job raises, the worker has called
    the probe once and has not launched the transcoder; it reports the
    job as failed with the exception of the probe, and leaves the bar
    untouched. *)
Theorem probe_failure_fails_job_without_launch {os : OsPath} (w : world)
  (ffpe_path inp out : string) (o : options) (progress_bar : Tqdm.bar) (e : exn) :
  get_duration w inp = Raise e ->
  let evs := fst (convert_single w ffpe_path inp out o progress_bar) in
  evs = [EvProbe inp; handler e; EvCollect]
  /\ outcome evs = Some (Failed e)
  /\ existsb is_popen evs = false
  /\ List.length (filter is_probe evs) = 1%nat
  /\ snd (convert_single w ffpe_path inp out o progress_bar) = progress_bar.
Proof.
  intros Hprobe. cbv zeta.
  unfold convert_single, try_body. rewrite Hprobe. cbn [fst snd app].
  repeat split.
  - apply handler_outcome.
  - now destruct e.
  - now destruct e.
Qed.

Lemma probe_failure_fails_job_without_launch_witness :
  let evs :=
    fst (convert_single unprobed_world "ffpe.exe" "a.avi" "out/a.mp4"
           no_options Tqdm.create) in
  get_duration unprobed_world "a.avi" = Raise ValueError
  /\ evs = [EvProbe "a.avi"; EvError ValueError; EvCollect]
  /\ outcome evs = Some (Failed ValueError)
  /\ existsb is_popen evs = false
  /\ List.length (filter is_probe evs) = 1%nat
  /\ snd (convert_single unprobed_world "ffpe.exe" "a.avi" "out/a.mp4"
            no_options Tqdm.create) = Tqdm.create.
Proof.
  cbv zeta. split; [reflexivity |].
  apply (probe_failure_fails_job_without_launch unprobed_world "ffpe.exe"
           "a.avi" "out/a.mp4" no_options Tqdm.create ValueError).
  reflexivity.
Defined.

(** The exit status of the process is never read. *)
Lemma convert_single_ignores_returncode {os : OsPath} (duration : Q) (proc : process)
  (status : Z) (ffpe_path inp out : string) (o : options) (progress_bar : Tqdm.bar) :
  convert_single (world_of duration (with_returncode status proc))
    ffpe_path inp out o progress_bar
  = convert_single (world_of duration proc) ffpe_path inp out o progress_bar.
Proof. reflexivity. Qed.

(** A launch that raises makes the job fail. *)
Lemma launch_failure_fails_job {os : OsPath} (w : world)
  (ffpe_path inp out : string) (o : options) (progress_bar : Tqdm.bar)
  (duration : Q) (e : exn) :
  get_duration w inp = Ok duration ->
  popen w (build_command ffpe_path inp out o) = Raise e ->
  outcome (fst (convert_single w ffpe_path inp out o progress_bar))
  = Some (Failed e).
Proof.
  intros Hprobe Hpopen. unfold convert_single, try_body.
  rewrite Hprobe, Hpopen. cbn [fst app].
  change (outcome (handler e :: [EvCollect]) = Some (Failed e)).
  apply handler_outcome.
Qed.

Lemma outcome_updates (evs tail : list event) :
  forallb is_update evs = true -> outcome (evs ++ tail) = outcome tail.
Proof.
  induction evs as [| e evs IH]; [reflexivity |].
  cbn. intros H. apply andb_prop in H as [He Hevs].
  destruct e; try discriminate. cbn. auto.
Qed.



(** C3 at a process that exits with status 1 after one line of complaint:
    the worker reports the job as completed.  And at a process that
    exits with status 0 half way: the bar is closed at 50, nothing moves
    it to 100. *)
Theorem convert_single_reports_success_on_exit_1 :
  returncode rejected_process = 1%Z
  /\ convert_single (world_of 100 rejected_process) "ffpe.exe" "a.avi"
       "out/a.mp4" no_options Tqdm.create
     = ([EvProbe "a.avi";
         EvPopen ["ffpe.exe"; "-hide_banner"; "-i"; "a.avi"; "-y"; "out/a.mp4"];
         EvClose; EvCompleted "a.avi"; EvSleep; EvCollect],
        {| Tqdm.n := 0; Tqdm.closed := true |})
  /\ outcome (fst (convert_single (world_of 100 rejected_process) "ffpe.exe"
                     "a.avi" "out/a.mp4" no_options Tqdm.create))
     = Some Succeeded
  /\ convert_single (world_of 60 halfway_process) "ffpe.exe" "a.avi"
       "out/a.mp4" no_options Tqdm.create
     = ([EvProbe "a.avi";
         EvPopen ["ffpe.exe"; "-hide_banner"; "-i"; "a.avi"; "-y"; "out/a.mp4"];
         EvUpdate 50; EvClose; EvCompleted "a.avi"; EvSleep; EvCollect],
        {| Tqdm.n := 50; Tqdm.closed := true |}).
Proof. repeat split; vm_compute; reflexivity. Qed.

(** The documented line is read as 3723.5 seconds. *)
Lemma parse_line_documented_example :
  exists elapsed,
    parse_line "time=01:02:03.50" = Elapsed elapsed /\ (elapsed == 3723.5)%Q.
Proof. eexists. split; [vm_compute; reflexivity | reflexivity]. Qed.

(** C2 at the line [time=00:00:03x04]: the dot of the pattern matches
    the [x], the conversion of [03x04] raises [ValueError], and the job
    that meets the line is reported as failed; the progress line after
    it is not read.  A line with no decimal point at all is given a
    value. *)
Theorem parse_line_raises_on_malformed_time :
  Re.search "time=00:00:03x04" = Some "00:00:03x04"
  /\ parse_line "time=00:00:03x04" = Failure ValueError
  /\ convert_single (world_of 100 malformed_process) "ffpe.exe" "a.avi"
       "out/a.mp4" no_options Tqdm.create
     = ([EvProbe "a.avi";
         EvPopen ["ffpe.exe"; "-hide_banner"; "-i"; "a.avi"; "-y"; "out/a.mp4"];
         EvUpdate 10; EvError ValueError; EvCollect],
        {| Tqdm.n := 10; Tqdm.closed := false |})
  /\ parse_line "time=00:00:0304" = Elapsed 304.
Proof. repeat split; vm_compute; reflexivity. Qed.

(** C9 at a call without [f]: the name of [None] becomes the extension of
    the output file, which the worker then hands to the transcoder; no
    [-f] pair is added. *)
Theorem absent_format_names_output_None :
  derive_output_file "out" None "videos/clip.avi" = "out/clip.None"
  /\ started (convert (fun _ => true) (FilesList ["videos/clip.avi"])
                (Some "out") no_options)
     = [{| index := 1; input_file := "videos/clip.avi";
           output_file := "out/clip.None"; job_options := no_options |}]
  /\ build_command "ffpe.exe" "videos/clip.avi"
       (derive_output_file "out" (f no_options) "videos/clip.avi") no_options
     = ["ffpe.exe"; "-hide_banner"; "-i"; "videos/clip.avi"; "-y"; "out/clip.None"].
Proof. repeat split; vm_compute; reflexivity. Qed.

(** ** Executions of a batch *)

Lemma set_nth_length {A : Type} (k : nat) (v : A) (l : list A) :
  List.length (set_nth k v l) = List.length l.
Proof.
  revert k. induction l as [| x l IH]; intros [| k]; cbn; auto.
Qed.

Lemma nth_error_set_nth_same {A : Type} (k : nat) (v : A) (l : list A) :
  (k < List.length l)%nat -> nth_error (set_nth k v l) k = Some v.
Proof.
  revert k. induction l as [| x l IH]; intros [| k] Hk; cbn in *; try lia.
  - reflexivity.
  - apply IH. lia.
Qed.

Lemma nth_error_set_nth_other {A : Type} (k k' : nat) (v : A) (l : list A) :
  k <> k' -> nth_error (set_nth k v l) k' = nth_error l k'.
Proof.
  revert k k'. induction l as [| x l IH]; intros [| k] [| k'] Hk; cbn;
    try reflexivity; try congruence.
  apply IH. congruence.
Qed.

Lemma nth_set_nth {A : Type} (k k' : nat) (v d : A) (l : list A) :
  (k < List.length l)%nat ->
  nth k' (set_nth k v l) d = if (k =? k')%nat then v else nth k' l d.
Proof.
  revert k k'. induction l as [| x l IH]; intros [| k] [| k'] Hk; cbn in *;
    try lia; try reflexivity.
  apply IH. lia.
Qed.

Lemma set_nth_app_l {A : Type} (k : nat) (v : A) (l l' : list A) :
  (k < List.length l)%nat -> set_nth k v l ++ l' = set_nth k v (l ++ l').
Proof.
  revert k. induction l as [| x l IH]; intros [| k] Hk; cbn in *; try lia.
  - reflexivity.
  - f_equal. apply IH. lia.
Qed.

Lemma set_nth_twice {A : Type} (k : nat) (v v' : A) (l : list A) :
  set_nth k v (set_nth k v' l) = set_nth k v l.
Proof.
  revert k. induction l as [| x l IH]; intros [| k]; cbn; try reflexivity.
  f_equal. apply IH.
Qed.

Section Executions.

Variable worker : job -> list event.

Lemma step_main_inv (c c' : cfg) (l : label) :
  step_main worker c = Some (l, c') ->
  exists a, l = LMain a /\ main c = a :: main c'
            /\ pending worker c' = pending worker c
            /\ (forall k, nth_error (threads c) k = Some [] ->
                          nth_error (threads c') k = Some [])
            /\ (forall k, a = Join k -> nth_error (threads c') k = Some []).
Proof.
  unfold step_main, pending. destruct c as [m ts]. cbn [main threads].
  destruct m as [| a rest]; [discriminate |].
  destruct a as [msg | | msg | i | j | k]; intros H;
    try (injection H as <- <-; eexists; repeat split; cbn; auto; discriminate).
  - injection H as <- <-. eexists. repeat split; cbn.
    + now rewrite <- app_assoc.
    + intros k Hk. rewrite nth_error_app1; [exact Hk |].
      apply nth_error_Some. congruence.
    + discriminate.
  - destruct (nth_error ts k) as [[| e evs] |] eqn:Hk; try discriminate.
    injection H as <- <-. eexists. repeat split; cbn; auto.
    intros k' [= <-]. exact Hk.
Qed.

Lemma step_worker_inv (k : nat) (c c' : cfg) (l : label) :
  step_worker k c = Some (l, c') ->
  exists e rest, l = LWorker k e /\ main c' = main c
                 /\ nth_error (threads c) k = Some (e :: rest)
                 /\ threads c' = set_nth k rest (threads c).
Proof.
  unfold step_worker. destruct (nth_error (threads c) k) as [[| e rest] |] eqn:Hk;
    try discriminate.
  intros [= <- <-]. now exists e, rest.
Qed.

(** The actions of the main thread in an execution are what has gone
    from the front of its program. *)
Lemma steps_main_actions (c c' : cfg) (ls : list label) :
  steps worker c ls c' -> main c = main_actions ls ++ main c'.
Proof.
  induction 1 as [c | c l c' ls c'' Hstep _ IH]; [reflexivity |].
  destruct Hstep as [c l c' Hm | k c l c' Hw].
  - apply step_main_inv in Hm as (a & -> & Hmain & _). cbn.
    rewrite Hmain. now f_equal.
  - apply step_worker_inv in Hw as (e & rest & -> & Hmain & _). cbn.
    now rewrite <- Hmain.
Qed.

(** What is left of worker [k] before an execution is what it does in
    the execution followed by what is left of it after. *)
Lemma steps_pending (c c' : cfg) (ls : list label) (k : nat) :
  steps worker c ls c' ->
  nth k (pending worker c) [] = worker_events k ls ++ nth k (pending worker c') [].
Proof.
  induction 1 as [c | c l c' ls c'' Hstep _ IH]; [reflexivity |].
  destruct Hstep as [c l c' Hm | k0 c l c' Hw].
  - apply step_main_inv in Hm as (a & -> & _ & Hp & _). cbn.
    now rewrite <- Hp.
  - apply step_worker_inv in Hw as (e & rest & -> & Hmain & Hk0 & Hts).
    assert (Hlt : (k0 < List.length (threads c))%nat)
      by (apply nth_error_Some; congruence).
    assert (Hp : pending worker c' = set_nth k0 rest (pending worker c)).
    { unfold pending. rewrite Hts, Hmain. now apply set_nth_app_l. }
    rewrite Hp in IH. cbn [worker_events].
    rewrite nth_set_nth in IH
      by (unfold pending; rewrite length_app; lia).
    destruct (Nat.eqb_spec k0 k) as [-> | Hne].
    + cbn. rewrite <- IH. unfold pending.
      rewrite app_nth1 by exact Hlt.
      now rewrite (nth_error_nth _ _ _ Hk0).
    + exact IH.
Qed.

(** A thread that has nothing left stays so. *)
Lemma steps_finished (c c' : cfg) (ls : list label) (k : nat) :
  steps worker c ls c' ->
  nth_error (threads c) k = Some [] -> nth_error (threads c') k = Some [].
Proof.
  induction 1 as [c | c l c' ls c'' Hstep _ IH]; [auto |].
  intros Hk. apply IH.
  destruct Hstep as [c l c' Hm | k0 c l c' Hw].
  - apply step_main_inv in Hm as (a & _ & _ & _ & Hkeep & _). auto.
  - apply step_worker_inv in Hw as (e & rest & _ & _ & Hk0 & Hts).
    rewrite Hts. rewrite nth_error_set_nth_other; [exact Hk | congruence].
Qed.

(** A thread that has been joined has nothing left. *)
Lemma steps_joined (c c' : cfg) (ls : list label) (k : nat) :
  steps worker c ls c' ->
  In k (joined (main_actions ls)) -> nth_error (threads c') k = Some [].
Proof.
  induction 1 as [c | c l c' ls c'' Hstep Hsteps IH]; [intros [] |].
  destruct Hstep as [c l c' Hm | k0 c l c' Hw].
  - apply step_main_inv in Hm as (a & -> & _ & _ & _ & Hjoin).
    cbn [main_actions]. destruct a; cbn [joined]; auto.
    intros [<- | Hin]; [| auto].
    eapply steps_finished; [exact Hsteps | now apply Hjoin].
  - apply step_worker_inv in Hw as (e & rest & -> & _). cbn. auto.
Qed.

Lemma steps_app (c c' c'' : cfg) (ls ls' : list label) :
  steps worker c ls c' -> steps worker c' ls' c'' -> steps worker c (ls ++ ls') c''.
Proof.
  induction 1 as [c | c l c1 ls c2 Hstep _ IH]; intros H'; cbn; [exact H' |].
  econstructor; [exact Hstep | now apply IH].
Qed.

(** A schedule yields an execution. *)
Lemma run_schedule_steps (sched : list (option nat)) (c : cfg) :
  steps worker c (fst (run_schedule worker sched c))
    (snd (run_schedule worker sched c)).
Proof.
  revert c. induction sched as [| pick sched IH]; intros c; cbn.
  - constructor.
  - destruct pick as [k |].
    + destruct (step_worker k c) as [[l c'] |] eqn:Hw; [| apply IH].
      specialize (IH c'). destruct (run_schedule worker sched c') as [ls c''].
      cbn in *. econstructor; [eapply StepWorker; exact Hw | exact IH].
    + destruct (step_main worker c) as [[l c'] |] eqn:Hm; [| apply IH].
      specialize (IH c'). destruct (run_schedule worker sched c') as [ls c''].
      cbn in *. econstructor; [eapply StepMain; exact Hm | exact IH].
Qed.

End Executions.

(** ** The program of the main thread *)

Lemma started_app (acts acts' : list action) :
  started (acts ++ acts') = started acts ++ started acts'.
Proof.
  induction acts as [| a acts IH]; [reflexivity |].
  destruct a; cbn; now rewrite ?IH.
Qed.

Lemma joined_app (acts acts' : list action) :
  joined (acts ++ acts') = joined acts ++ joined acts'.
Proof.
  induction acts as [| a acts IH]; [reflexivity |].
  destruct a; cbn; now rewrite ?IH.
Qed.

Lemma banner_quiet (files : list string) :
  started (banner files) = [] /\ joined (banner files) = [].
Proof.
  unfold banner.
  destruct (1 <? List.length files)%nat; [now split |].
  destruct (List.length files =? 1)%nat; now split.
Qed.

Lemma start_threads_quiet {os : OsPath} (dir : string) (o : options) (files : list string) :
  forall i, joined (start_threads dir o i files) = [].
Proof. induction files as [| p files IH]; intros i; cbn; auto. Qed.

Lemma start_threads_jobs {os : OsPath} (dir : string) (o : options) (files : list string) :
  forall i,
    map input_file (started (start_threads dir o i files)) = files
    /\ map index (started (start_threads dir o i files))
       = seq i (List.length files).
Proof.
  induction files as [| p files IH]; intros i; cbn; [now split |].
  destruct (IH (S i)) as [H1 H2]. split; now f_equal.
Qed.

Lemma join_threads_spec (count : nat) :
  started (join_threads count) = [] /\ joined (join_threads count) = seq 0 count.
Proof.
  unfold join_threads. generalize 0%nat.
  induction count as [| count IH]; intros k; cbn; [now split |].
  destruct (IH (S k)) as [H1 H2]. split; [exact H1 | now f_equal].
Qed.

Lemma first_missing_none (exists_ : string -> bool) (files : list string) :
  forallb exists_ files = true -> first_missing exists_ files = None.
Proof.
  induction files as [| p files IH]; cbn; [reflexivity |].
  intros H. apply andb_prop in H as [Hp Hfiles]. rewrite Hp. auto.
Qed.

Lemma first_missing_some (exists_ : string -> bool) (files : list string) (p : string) :
  In p files -> exists_ p = false ->
  exists q, first_missing exists_ files = Some q.
Proof.
  induction files as [| p' files IH]; cbn; [intros [] |].
  intros [-> | Hin] Hp.
  - rewrite Hp. eauto.
  - destruct (exists_ p'); eauto.
Qed.

Lemma truthy_str_true (text : string) : text <> "" -> truthy_str text = true.
Proof.
  intros H. unfold truthy_str. now destruct (String.eqb_spec text "").
Qed.

(** The program of a batch that passes the checks. *)
Lemma convert_accepted {os : OsPath} (exists_ : string -> bool) (files : list string)
  (dir : string) (o : options) :
  files <> [] -> dir <> "" -> forallb exists_ files = true ->
  convert exists_ (FilesList files) (Some dir) o
  = (banner files ++ [ConsolePrint Rule] ++ start_threads dir o 1 files)
    ++ join_threads (List.length files).
Proof.
  intros Hfiles Hdir Hall. unfold convert. cbn [no_files as_list].
  destruct files as [| p files]; [contradiction |].
  rewrite (truthy_str_true dir Hdir). cbn [negb].
  rewrite (first_missing_none _ _ Hall).
  now rewrite <- !app_assoc.
Qed.

(** The program of a batch that fails a check. *)
Lemma convert_rejected {os : OsPath} (exists_ : string -> bool) (input_files : py_files)
  (output_dir : option string) (o : options) :
  no_files input_files = true
  \/ (exists p, In p (as_list input_files) /\ exists_ p = false) ->
  exists msg, convert exists_ input_files output_dir o = [LogError msg].
Proof.
  intros H. unfold convert.
  destruct (no_files input_files); [eauto |].
  destruct H as [H | (p & Hin & Hp)]; [discriminate |].
  destruct output_dir as [dir |]; [| eauto].
  destruct (negb (truthy_str dir)); [eauto |].
  destruct (first_missing_some exists_ _ p Hin Hp) as [q ->]. eauto.
Qed.

Section Completion.

Variable worker : job -> list event.

Lemma set_nth_same {A : Type} (k : nat) (v : A) (l : list A) :
  nth_error l k = Some v -> set_nth k v l = l.
Proof.
  revert k. induction l as [| x l IH]; intros [| k]; cbn; try discriminate.
  - now intros [= ->].
  - intros H. f_equal. auto.
Qed.

(** The main thread runs through actions that are not joins. *)
Lemma steps_no_join (acts rest : list action) :
  joined acts = [] ->
  forall ts,
    steps worker {| main := acts ++ rest; threads := ts |} (map LMain acts)
      {| main := rest; threads := ts ++ map worker (started acts) |}.
Proof.
  induction acts as [| a acts IH]; intros Hj ts; cbn.
  - rewrite app_nil_r. constructor.
  - destruct a; cbn in Hj; try discriminate;
      (econstructor; [apply StepMain; reflexivity |]);
      try (apply IH; exact Hj).
    cbn. replace (ts ++ worker j :: map worker (started acts))
      with ((ts ++ [worker j]) ++ map worker (started acts))
      by (now rewrite <- app_assoc).
    apply IH. exact Hj.
Qed.

(** A worker runs to its end. *)
Lemma steps_drain (m : list action) (k : nat) (evs : list event) :
  forall ts,
    nth_error ts k = Some evs ->
    steps worker {| main := m; threads := ts |} (map (LWorker k) evs)
      {| main := m; threads := set_nth k [] ts |}.
Proof.
  induction evs as [| e evs IH]; intros ts Hk; cbn.
  - rewrite (set_nth_same _ _ _ Hk). constructor.
  - assert (Hlt : (k < List.length ts)%nat) by (apply nth_error_Some; congruence).
    econstructor.
    + eapply StepWorker with (k := k). unfold step_worker. cbn. rewrite Hk. reflexivity.
    + rewrite <- (set_nth_twice k [] evs ts). apply IH.
      now apply nth_error_set_nth_same.
Qed.

(** The joins of the threads from [k] on can all be taken. *)
Lemma steps_join_all (count : nat) :
  forall k ts,
    List.length ts = (k + count)%nat ->
    exists ls c',
      steps worker {| main := map Join (seq k count); threads := ts |} ls c'
      /\ main c' = [].
Proof.
  induction count as [| count IH]; intros k ts Hlen; cbn.
  - exists [], {| main := []; threads := ts |}. split; [constructor | reflexivity].
  - destruct (nth_error ts k) as [evs |] eqn:Hk.
    2:{ apply nth_error_None in Hk. lia. }
    assert (Hlt : (k < List.length ts)%nat) by lia.
    destruct (IH (S k) (set_nth k [] ts)) as (ls & c' & Hsteps & Hmain).
    { rewrite set_nth_length. lia. }
    exists (map (LWorker k) evs ++ LMain (Join k) :: ls), c'.
    split; [| exact Hmain].
    eapply steps_app; [apply steps_drain; exact Hk |].
    econstructor; [| exact Hsteps].
    apply StepMain. unfold step_main. cbn.
    now rewrite nth_error_set_nth_same.
Qed.

End Completion.

(** C4.  When the list of inputs is empty, or one of the inputs does not
    exist, the whole program of [convert] is one error message: in every
    execution no thread is started and no worker does anything, so the
    probe and the transcoder are never run. *)
Theorem convert_rejects_batch_before_any_worker {os : OsPath} (exists_ : string -> bool)
  (input_files : py_files) (output_dir : option string) (o : options)
  (worker : job -> list event) :
  no_files input_files = true
  \/ (exists p, In p (as_list input_files) /\ exists_ p = false) ->
  (exists msg, convert exists_ input_files output_dir o = [LogError msg])
  /\ forall ls c',
      steps worker (initial exists_ input_files output_dir o) ls c' ->
      started (main_actions ls) = []
      /\ forall k, worker_events k ls = [].
Proof.
  intros H. destruct (convert_rejected exists_ input_files output_dir o H) as [msg Hc].
  split; [eauto |].
  intros ls c' Hsteps. split.
  - apply steps_main_actions in Hsteps. unfold initial in Hsteps.
    cbn [main] in Hsteps. rewrite Hc in Hsteps.
    destruct (main_actions ls) as [| a [| a' acts]]; [reflexivity | |].
    + injection Hsteps as <- _. reflexivity.
    + destruct acts; discriminate.
  - intros k. pose proof (steps_pending worker _ _ _ k Hsteps) as Hp.
    unfold initial in Hp. unfold pending at 1 in Hp. cbn [main threads] in Hp.
    rewrite Hc in Hp. cbn in Hp. destruct k; cbn in Hp;
      symmetry in Hp; now apply app_eq_nil in Hp.
Qed.

Lemma convert_rejects_batch_before_any_worker_witness :
  let exists_ := fun p => String.eqb p "a.avi" in
  let batch := FilesList ["a.avi"; "b.avi"] in
  (no_files batch = true
   \/ (exists p, In p (as_list batch) /\ exists_ p = false))
  /\ (exists msg, convert exists_ batch (Some "out") no_options = [LogError msg])
  /\ forall ls c',
      steps (job_events "ffpe.exe" three_worlds)
        (initial exists_ batch (Some "out") no_options) ls c' ->
      started (main_actions ls) = []
      /\ forall k, worker_events k ls = [].
Proof.
  cbv zeta.
  assert (H : no_files (FilesList ["a.avi"; "b.avi"]) = true
              \/ (exists p, In p (as_list (FilesList ["a.avi"; "b.avi"]))
                            /\ String.eqb p "a.avi" = false)).
  { right. exists "b.avi". split; [cbn; auto | reflexivity]. }
  split; [exact H |].
  exact (convert_rejects_batch_before_any_worker
           (fun p => String.eqb p "a.avi") (FilesList ["a.avi"; "b.avi"])
           (Some "out") no_options (job_events "ffpe.exe" three_worlds) H).
Defined.

Lemma convert_accepted_jobs {os : OsPath} (exists_ : string -> bool) (files : list string)
  (dir : string) (o : options) :
  files <> [] -> dir <> "" -> forallb exists_ files = true ->
  let acts := convert exists_ (FilesList files) (Some dir) o in
  started acts = started (start_threads dir o 1 files)
  /\ joined acts = seq 0 (List.length files).
Proof.
  intros Hfiles Hdir Hall acts. unfold acts.
  rewrite (convert_accepted exists_ files dir o Hfiles Hdir Hall).
  rewrite !started_app, !joined_app.
  destruct (banner_quiet files) as [-> ->].
  destruct (join_threads_spec (List.length files)) as [-> ->].
  rewrite start_threads_quiet. cbn. now rewrite app_nil_r.
Qed.

(** C5, as the code has it.  For a batch that passes the checks,
    [convert] can always run to its end; whenever it has, it has started
    one worker per input in the order of submission, joined every one of
    them, and every worker has done all it does, in its own order.
    [convert] hands back no value: what becomes of a job is only what
    its worker prints. *)
Theorem convert_joins_every_worker {os : OsPath} (exists_ : string -> bool)
  (files : list string) (dir : string) (o : options)
  (worker : job -> list event) :
  files <> [] -> dir <> "" -> forallb exists_ files = true ->
  let c0 := initial exists_ (FilesList files) (Some dir) o in
  (exists ls c', steps worker c0 ls c' /\ main c' = [])
  /\ forall ls c',
      steps worker c0 ls c' -> main c' = [] ->
      let jobs := started (main_actions ls) in
      map input_file jobs = files
      /\ map index jobs = seq 1 (List.length files)
      /\ joined (main_actions ls) = seq 0 (List.length files)
      /\ forall k j, nth_error jobs k = Some j -> worker_events k ls = worker j.
Proof.
  intros Hfiles Hdir Hall c0.
  destruct (convert_accepted_jobs exists_ files dir o Hfiles Hdir Hall)
    as [Hstarted Hjoined].
  destruct (start_threads_jobs dir o files 1) as [Hinputs Hindex].
  split.
  - unfold c0, initial.
    rewrite (convert_accepted exists_ files dir o Hfiles Hdir Hall).
    set (acts := banner files ++ [ConsolePrint Rule] ++ start_threads dir o 1 files).
    assert (Hquiet : joined acts = []).
    { unfold acts. rewrite !joined_app.
      destruct (banner_quiet files) as [_ ->].
      now rewrite start_threads_quiet. }
    assert (Hacts : started acts = started (start_threads dir o 1 files)).
    { unfold acts. rewrite !started_app.
      now destruct (banner_quiet files) as [-> _]. }
    destruct (steps_join_all worker (List.length files) 0
                ([] ++ map worker (started acts)))
      as (ls & c' & Hsteps & Hmain).
    { cbn. rewrite length_map, Hacts, <- (length_map input_file), Hinputs.
      reflexivity. }
    exists (map LMain acts ++ ls), c'. split; [| exact Hmain].
    eapply steps_app; [| exact Hsteps].
    apply (steps_no_join worker acts (join_threads (List.length files)) Hquiet []).
  - intros ls c' Hsteps Hmain jobs.
    pose proof (steps_main_actions worker _ _ _ Hsteps) as Hacts.
    rewrite Hmain, app_nil_r in Hacts. unfold c0, initial in Hacts.
    cbn [main] in Hacts.
    unfold jobs. rewrite <- Hacts, Hstarted, Hjoined.
    repeat split; try assumption.
    intros k j Hk.
    pose proof (steps_pending worker _ _ _ k Hsteps) as Hp.
    unfold c0, initial in Hp. unfold pending in Hp. cbn [main threads app] in Hp.
    rewrite Hmain in Hp. cbn [started map] in Hp. rewrite app_nil_r in Hp.
    rewrite Hstarted in Hp.
    assert (Hlt : (k < List.length files)%nat).
    { rewrite <- Hinputs, length_map. apply nth_error_Some. congruence. }
    assert (Hdone : nth_error (threads c') k = Some []).
    { apply (steps_joined worker _ _ _ _ Hsteps).
      rewrite <- Hacts, Hjoined. apply in_seq. lia. }
    rewrite (nth_error_nth _ _ _ Hdone), app_nil_r in Hp.
    rewrite <- Hp.
    apply nth_error_nth. now apply map_nth_error.
Qed.

(** C5 as stated fails at three inputs of which the second one ends
    first: the outcomes come out in the order in which the workers end,
    the second job, then the first, then the third. *)
Lemma outcomes_follow_completion_order :
  let worker := job_events "ffpe.exe" three_worlds in
  let c0 := initial (fun _ => true) (FilesList three_files) (Some "out") no_options in
  exists ls c',
    steps worker c0 ls c'
    /\ main c' = []
    /\ map input_file (started (main_actions ls)) = three_files
    /\ reported ls = [(1%nat, Failed ValueError); (0%nat, Succeeded); (2%nat, Succeeded)]
    /\ map snd (reported ls)
       <> map (fun k => match outcome (worker_events k ls) with
                        | Some out => out
                        | None => Succeeded
                        end) [0%nat; 1%nat; 2%nat].
Proof.
  cbv zeta.
  pose (run := run_schedule (job_events "ffpe.exe" three_worlds) second_first
                 (initial (fun _ => true) (FilesList three_files) (Some "out")
                    no_options)).
  exists (fst run), (snd run). split; [apply run_schedule_steps |].
  repeat split; try (vm_compute; reflexivity).
  vm_compute. discriminate.
Qed.

Lemma convert_joins_every_worker_witness :
  let worker := job_events "ffpe.exe" three_worlds in
  let c0 := initial (fun _ => true) (FilesList three_files) (Some "out") no_options in
  three_files <> [] /\ "out" <> "" /\ forallb (fun _ => true) three_files = true
  /\ (exists ls c', steps worker c0 ls c' /\ main c' = [])
  /\ forall ls c',
      steps worker c0 ls c' -> main c' = [] ->
      let jobs := started (main_actions ls) in
      map input_file jobs = three_files
      /\ map index jobs = seq 1 (List.length three_files)
      /\ joined (main_actions ls) = seq 0 (List.length three_files)
      /\ forall k j, nth_error jobs k = Some j -> worker_events k ls = worker j.
Proof.
  cbv zeta.
  split; [discriminate |]. split; [discriminate |]. split; [reflexivity |].
  apply (convert_joins_every_worker (fun _ => true) three_files "out" no_options
           (job_events "ffpe.exe" three_worlds));
    [discriminate | discriminate | reflexivity].
Defined.

(** ** The output path *)

(** Whatever the platform, a call without [f] asks it to join the
    directory with the name of the input, a dot and [None]. *)
Lemma derive_output_file_without_format {os : OsPath} (dir inp : string) :
  derive_output_file dir None inp
  = os_path_join dir
      (os_path_splitext_root (os_path_basename inp) ++ ".None").
Proof. reflexivity. Qed.

Lemma append_nonempty_r (a b : string) : b <> "" -> (a ++ b)%string <> "".
Proof.
  intros Hb. destruct a; cbn; [exact Hb | discriminate].
Qed.

Lemma posix_join_nonempty (a b : string) : b <> "" -> Posix.join a b <> "".
Proof.
  intros Hb. unfold Posix.join.
  destruct (Posix.startswith_sep b); [exact Hb |].
  destruct (String.eqb a "" || Posix.endswith_sep a).
  - now apply append_nonempty_r.
  - apply append_nonempty_r. discriminate.
Qed.

(** Under [posixpath] every job that [convert] starts has an output path. *)
Lemma posix_output_file_nonempty (dir : string) (fmt : option string) (inp : string) :
  derive_output_file dir fmt inp <> "".
Proof.
  unfold derive_output_file. cbn. apply posix_join_nonempty.
  apply append_nonempty_r. discriminate.
Qed.

Lemma posix_job_command (ffpe_path dir inp : string) (o : options) :
  let out := derive_output_file dir (f o) inp in
  build_command ffpe_path inp out o = spec_command_line ffpe_path inp out o.
Proof.
  cbv zeta. rewrite build_command_shape. unfold spec_command_line.
  now rewrite (truthy_str_true _ (posix_output_file_nonempty dir (f o) inp)).
Qed.

(** ** Lines that carry a well-formed timestamp *)

Lemma append_assoc (a b c : string) : ((a ++ b) ++ c = a ++ (b ++ c))%string.
Proof. induction a as [| x a IH]; cbn; [reflexivity | now rewrite IH]. Qed.

Lemma append_nil_r (a : string) : (a ++ "")%string = a.
Proof. induction a as [| x a IH]; cbn; [reflexivity | now rewrite IH]. Qed.

(** A run of digits followed by something that is not a digit is taken
    whole by [\d+]. *)
Lemma match_many1_digits (k : string -> option string) (d tail m : string) :
  number d -> starts_with_digit tail = false -> k tail = Some m ->
  Re.match_many1 Re.Digit k (d ++ tail) = Some (d ++ m)%string.
Proof.
  intros [Hne Hd] Htail Hk. induction d as [| c d IH]; [contradiction |].
  cbn in Hd. apply andb_prop in Hd as [Hc Hd].
  cbn [append Re.match_many1 Re.atom_matches]. rewrite Hc.
  destruct d as [| c' d].
  - cbn [append].
    assert (Hnone : Re.match_many1 Re.Digit k tail = None).
    { destruct tail as [| a tail]; [reflexivity |].
      cbn in Htail. cbn. now rewrite Htail. }
    now rewrite Hnone, Hk.
  - rewrite IH; [reflexivity | discriminate | exact Hd].
Qed.

Lemma digit_not_colon (c : ascii) : Str.is_digit c = true -> Ascii.eqb c ":" = false.
Proof.
  intros Hc. destruct (Ascii.eqb_spec c ":") as [-> |]; [discriminate | reflexivity].
Qed.

Lemma match_items_timestamp (hh mm ss frac rest : string) :
  number hh -> number mm -> number ss -> number frac ->
  starts_with_digit rest = false ->
  Re.match_items Re.time_group (timestamp hh mm ss frac ++ rest)
  = Some (timestamp hh mm ss frac).
Proof.
  intros Hh Hm Hs Hf Hrest. unfold timestamp, Re.time_group.
  rewrite !append_assoc.
  cbn [Re.match_items].
  erewrite match_many1_digits; [reflexivity | exact Hh | reflexivity |].
  cbn [append Re.atom_matches Ascii.eqb Bool.eqb].
  erewrite match_many1_digits; [reflexivity | exact Hm | reflexivity |].
  cbn [append Re.atom_matches Ascii.eqb Bool.eqb].
  erewrite match_many1_digits; [reflexivity | exact Hs | reflexivity |].
  cbn [append Re.atom_matches Ascii.eqb Bool.eqb Str.newline ascii_of_nat
         ascii_of_pos Pos.of_succ_nat Pos.succ negb].
  erewrite match_many1_digits; [| exact Hf | exact Hrest | reflexivity].
  cbn. now rewrite append_nil_r.
Qed.

Lemma search_after_prefix (pre text : string) :
  lacks "t" pre = true -> Re.search (pre ++ text) = Re.search text.
Proof.
  induction pre as [| c pre IH]; [reflexivity |].
  cbn [lacks]. intros H. apply andb_prop in H as [Hc Hpre].
  cbn [append Re.search]. unfold Re.match_here at 1. cbn [Re.skip_literal].
  destruct (Ascii.eqb c "t"); [discriminate |]. auto.
Qed.

Lemma search_timestamp (pre hh mm ss frac rest : string) :
  lacks "t" pre = true ->
  number hh -> number mm -> number ss -> number frac ->
  starts_with_digit rest = false ->
  Re.search (pre ++ "time=" ++ timestamp hh mm ss frac ++ rest)
  = Some (timestamp hh mm ss frac).
Proof.
  intros Hpre Hh Hm Hs Hf Hrest. rewrite search_after_prefix by exact Hpre.
  assert (Hhere : Re.match_here ("time=" ++ timestamp hh mm ss frac ++ rest)
                  = Some (timestamp hh mm ss frac)).
  { unfold Re.match_here. cbn [append Re.skip_literal Ascii.eqb Bool.eqb].
    now apply match_items_timestamp. }
  destruct ("time=" ++ timestamp hh mm ss frac ++ rest)%string;
    cbn [Re.search]; now rewrite Hhere.
Qed.

Lemma split_from_field (cur x : string) :
  lacks ":" x = true ->
  Str.split_from ":" cur x = [(cur ++ x)%string]
  /\ forall tail,
      Str.split_from ":" cur (x ++ String ":" tail)
      = (cur ++ x)%string :: Str.split_from ":" "" tail.
Proof.
  revert cur. induction x as [| c x IH]; intros cur Hx.
  - cbn. now rewrite append_nil_r.
  - cbn [lacks] in Hx. apply andb_prop in Hx as [Hc Hx].
    apply negb_true_iff in Hc.
    cbn [append Str.split_from]. rewrite Hc.
    destruct (IH (cur ++ String c "")%string Hx) as [H1 H2].
    rewrite append_assoc in H1. cbn [append] in H1.
    split; [exact H1 |].
    intros tail. rewrite H2, append_assoc. reflexivity.
Qed.

Lemma digits_lack_colon (d : string) : Str.all_digits d = true -> lacks ":" d = true.
Proof.
  induction d as [| c d IH]; [reflexivity |].
  cbn. intros H. apply andb_prop in H as [Hc Hd].
  now rewrite (digit_not_colon c Hc), IH.
Qed.

Lemma lacks_app (c : ascii) (a b : string) :
  lacks c a = true -> lacks c b = true -> lacks c (a ++ b) = true.
Proof.
  intros Ha Hb. induction a as [| x a IH]; [exact Hb |].
  cbn in *. apply andb_prop in Ha as [Hx Ha]. now rewrite Hx, IH.
Qed.

Lemma split_timestamp (hh mm ss frac : string) :
  number hh -> number mm -> number ss -> number frac ->
  Str.split ":" (timestamp hh mm ss frac) = [hh; mm; (ss ++ "." ++ frac)%string].
Proof.
  intros [_ Hh] [_ Hm] [_ Hs] [_ Hf]. unfold Str.split, timestamp.
  cbn [append].
  rewrite (proj2 (split_from_field "" hh (digits_lack_colon hh Hh))).
  rewrite (proj2 (split_from_field "" mm (digits_lack_colon mm Hm))).
  assert (Hlast : lacks ":" (ss ++ String "." frac) = true).
  { apply lacks_app; [now apply digits_lack_colon |].
    cbn. now apply digits_lack_colon. }
  rewrite (proj1 (split_from_field "" (ss ++ String "." frac) Hlast)).
  reflexivity.
Qed.

Lemma span_digits_run (d tail : string) :
  Str.all_digits d = true -> starts_with_digit tail = false ->
  Str.span_digits (d ++ tail) = (d, tail).
Proof.
  intros Hd Htail. induction d as [| c d IH].
  - destruct tail as [| a tail]; [reflexivity |].
    cbn in *. now rewrite Htail.
  - cbn in Hd. apply andb_prop in Hd as [Hc Hd].
    cbn. now rewrite Hc, IH.
Qed.

Lemma float_field_digits (d : string) :
  number d -> float_field d = Ok (inject_Z (Str.digits_value d)).
Proof.
  intros [Hne Hd]. unfold float_field.
  rewrite <- (append_nil_r d) at 1.
  rewrite span_digits_run by (exact Hd || reflexivity).
  destruct d; [contradiction | reflexivity].
Qed.

Lemma float_field_decimal (ss frac : string) :
  number ss -> number frac ->
  float_field (ss ++ "." ++ frac)
  = Ok (inject_Z (Str.digits_value ss)
        + inject_Z (Str.digits_value frac)
          / inject_Z (10 ^ Z.of_nat (String.length frac)))%Q.
Proof.
  intros [Hne Hs] [Hnf Hf]. unfold float_field.
  rewrite span_digits_run by (exact Hs || reflexivity).
  destruct ss; [contradiction |]. cbn [append].
  now rewrite Hf.
Qed.

(** A line that carries [time=HH:MM:SS.ss], with no [t] before the mark
    and no digit right after the fraction, is read as
    [h * 3600 + m * 60 + s] seconds. *)
Lemma parse_line_timestamp (pre hh mm ss frac rest : string) :
  lacks "t" pre = true ->
  number hh -> number mm -> number ss -> number frac ->
  starts_with_digit rest = false ->
  parse_line (pre ++ "time=" ++ timestamp hh mm ss frac ++ rest)
  = Elapsed (timestamp_seconds hh mm ss frac).
Proof.
  intros Hpre Hh Hm Hs Hf Hrest. unfold parse_line.
  rewrite search_timestamp by assumption.
  rewrite split_timestamp by assumption.
  unfold unpack_hms.
  rewrite (float_field_digits hh Hh), (float_field_digits mm Hm).
  rewrite (float_field_decimal ss frac Hs Hf).
  reflexivity.
Qed.

(** A line in which the pattern is found has the mark [time=] in it. *)
Lemma search_some_has_mark (line g : string) :
  Re.search line = Some g ->
  exists pre post, line = (pre ++ "time=" ++ post)%string.
Proof.
  induction line as [| c line IH]; cbn [Re.search].
  - unfold Re.match_here. cbn. discriminate.
  - destruct (Re.match_here (String c line)) as [g' |] eqn:Hhere.
    + intros _. unfold Re.match_here in Hhere.
      destruct (Re.skip_literal "time=" (String c line)) as [post |] eqn:Hskip;
        [| discriminate].
      exists "", post. clear Hhere IH.
      cbn in Hskip.
      repeat match type of Hskip with
             | (if Ascii.eqb ?x ?y then _ else _) = _ =>
                 destruct (Ascii.eqb_spec x y); [subst | discriminate]
             | match ?l with EmptyString => _ | String _ _ => _ end = _ =>
                 destruct l; [discriminate |]
             end.
      now injection Hskip as ->.
    + intros H. destruct (IH H) as (pre & post & ->).
      now exists (String c pre), post.
Qed.

(** A line without the mark [time=] is skipped. *)
Lemma parse_line_without_mark (line : string) :
  (forall pre post, line <> (pre ++ "time=" ++ post)%string) ->
  parse_line line = NoMatch.
Proof.
  intros Hmark. unfold parse_line.
  destruct (Re.search line) as [g |] eqn:Hsearch; [| reflexivity].
  destruct (search_some_has_mark line g Hsearch) as (pre & post & Heq).
  now destruct (Hmark pre post).
Qed.

(** * Further properties *)

(** ** The worker: the range of the bar *)

Lemma digit_value_nonneg (c : ascii) :
  Str.is_digit c = true -> (0 <= Str.digit_value c)%Z.
Proof.
  unfold Str.is_digit, Str.digit_value. cbv zeta. intros H.
  apply andb_prop in H as [H1 _]. apply Nat.leb_le in H1.
  generalize dependent (nat_of_ascii c). intros n Hn. lia.
Qed.

Lemma digits_value_from_nonneg (d : string) :
  Str.all_digits d = true ->
  forall acc, (0 <= acc)%Z -> (0 <= Str.digits_value_from acc d)%Z.
Proof.
  induction d as [| c d IH]; cbn [Str.all_digits Str.digits_value_from];
    intros Hd acc Hacc; [exact Hacc |].
  apply andb_prop in Hd as [Hc Hd]. apply IH; [exact Hd |].
  pose proof (digit_value_nonneg c Hc). lia.
Qed.

Lemma digits_value_nonneg (d : string) :
  Str.all_digits d = true -> (0 <= Str.digits_value d)%Z.
Proof. intros Hd. now apply digits_value_from_nonneg. Qed.

Lemma span_digits_spec (text : string) :
  Str.all_digits (fst (Str.span_digits text)) = true
  /\ text = (fst (Str.span_digits text) ++ snd (Str.span_digits text))%string.
Proof.
  induction text as [| c text [IH1 IH2]]; cbn; [now split |].
  destruct (Str.is_digit c) eqn:Hc; [| now split].
  destruct (Str.span_digits text) as [d rest]. cbn in *.
  rewrite Hc, IH1. split; [reflexivity | now f_equal].
Qed.

Lemma all_digits_app (a b : string) :
  Str.all_digits a = true -> Str.all_digits b = true ->
  Str.all_digits (a ++ b) = true.
Proof.
  intros Ha Hb. induction a as [| c a IH]; [exact Hb |].
  cbn in *. apply andb_prop in Ha as [Hc Ha]. now rewrite Hc, IH.
Qed.

Lemma inject_Z_nonneg (z : Z) : (0 <= z)%Z -> (0 <= inject_Z z)%Q.
Proof. intros H. unfold Qle. cbn. lia. Qed.

Lemma float_field_nonneg (field : string) (q : Q) :
  float_field field = Ok q -> (0 <= q)%Q.
Proof.
  unfold float_field.
  destruct (span_digits_spec field) as [Hd1 _].
  destruct (Str.span_digits field) as [d1 rest]. cbn [fst] in Hd1.
  destruct d1 as [| c1 d1]; [discriminate |].
  destruct rest as [| c d2].
  - intros [= <-]. now apply inject_Z_nonneg, digits_value_nonneg.
  - destruct (Str.all_digits d2) eqn:Hd2; cbn [negb]; [| discriminate].
    destruct (Ascii.eqb c ".").
    + intros [= <-].
      apply Qle_trans with (0 + 0)%Q; [discriminate |].
      apply Qplus_le_compat.
      * now apply inject_Z_nonneg, digits_value_nonneg.
      * apply Qmult_le_0_compat.
        -- now apply inject_Z_nonneg, digits_value_nonneg.
        -- apply Qinv_le_0_compat, inject_Z_nonneg. apply Z.pow_nonneg. lia.
    + destruct (String.length d2 =? 0)%nat; [discriminate |].
      destruct (Ascii.eqb c "_").
      * intros [= <-]. apply inject_Z_nonneg, digits_value_nonneg.
        now apply (all_digits_app (String c1 d1) d2).
      * destruct (Ascii.eqb c "e" || Ascii.eqb c "E"); [| discriminate].
        intros [= <-]. apply inject_Z_nonneg.
        apply Z.mul_nonneg_nonneg; [now apply digits_value_nonneg |].
        apply Z.pow_nonneg. lia.
Qed.




(** ** The worker: the shape of a run *)

Lemma updates_total_app (evs evs' : list event) :
  updates_total (evs ++ evs') = (updates_total evs + updates_total evs')%Z.
Proof.
  induction evs as [| e evs IH]; [reflexivity |].
  destruct e; cbn; rewrite ?IH; lia.
Qed.

Lemma last_cons_default {A : Type} (l : list A) (a d : A) :
  last (a :: l) d = last l a.
Proof.
  revert a d. induction l as [| b l IH]; intros a d; [reflexivity |].
  change (last (a :: b :: l) d) with (last (b :: l) d).
  now rewrite !IH.
Qed.

(** The last value the bar shows is its first value plus what was added. *)
Lemma bar_values_last (evs : list event) :
  forall start,
    last (bar_values start evs) start = (start + updates_total evs)%Z.
Proof.
  induction evs as [| e evs IH]; intros start; [cbn; lia |].
  destruct e; cbn [bar_values updates_total]; rewrite ?IH; try reflexivity.
  rewrite last_cons_default, IH. lia.
Qed.

Lemma read_progress_bar (duration : Q) (lines : list string) :
  forall progress_bar : Tqdm.bar,
    let '(evs, bar', _) := read_progress duration lines progress_bar in
    forallb is_update evs = true
    /\ Tqdm.n bar' = (Tqdm.n progress_bar + updates_total evs)%Z
    /\ Tqdm.closed bar' = Tqdm.closed progress_bar.
Proof.
  induction lines as [| line lines IH]; intros progress_bar; cbn [read_progress].
  - cbn. repeat split. lia.
  - destruct (parse_line line) as [| elapsed | e].
    + apply IH.
    + destruct (Qeq_bool duration 0); [cbn; repeat split; lia |].
      specialize (IH (Tqdm.update
                        (progress_percentage elapsed duration - Tqdm.n progress_bar)
                        progress_bar)).
      destruct (read_progress duration lines _) as [[evs bar'] res].
      destruct IH as (Hu & Hn & Hc). cbn in *. repeat split; auto. lia.
    + cbn. repeat split. lia.
Qed.

(** Every run of the worker: the probe, the launch unless the probe
    failed, updates of the bar, the ending, the collection. *)
Lemma convert_single_shape {os : OsPath} (w : world)
  (ffpe_path inp out : string) (o : options) (progress_bar : Tqdm.bar) :
  exists launch evs tail bar' final,
    convert_single w ffpe_path inp out o progress_bar
    = (EvProbe inp :: launch ++ evs ++ tail ++ [EvCollect], final)
    /\ (launch = [] /\ evs = [] /\ (exists e, tail = [handler e])
        \/ launch = [EvPopen (build_command ffpe_path inp out o)])
    /\ forallb is_update evs = true
    /\ Tqdm.n bar' = (Tqdm.n progress_bar + updates_total evs)%Z
    /\ Tqdm.closed bar' = Tqdm.closed progress_bar
    /\ ending bar' tail final.
Proof.
  unfold convert_single, try_body.
  destruct (get_duration w inp) as [duration | e].
  2:{ exists [], [], [handler e], progress_bar, progress_bar. cbn.
      repeat split; try lia; [left; eauto | constructor]. }
  destruct (popen w (build_command ffpe_path inp out o)) as [proc | e].
  2:{ exists [EvPopen (build_command ffpe_path inp out o)], [], [handler e],
        progress_bar, progress_bar. cbn.
      repeat split; try lia; [now right | constructor]. }
  pose proof (read_progress_bar duration (stdout proc) progress_bar) as Hbar.
  destruct (read_progress duration (stdout proc) progress_bar) as [[evs bar'] res].
  destruct Hbar as (Hu & Hn & Hc).
  destruct res as [[] | e]; [destruct (stdout_error proc) as [e |] |].
  - exists [EvPopen (build_command ffpe_path inp out o)], evs, [handler e], bar', bar'.
    cbn. rewrite <- ?app_assoc. cbn. repeat split; auto; constructor.
  - exists [EvPopen (build_command ffpe_path inp out o)], evs,
      [EvClose; EvCompleted (os_path_basename inp); EvSleep], bar', (Tqdm.close bar').
    cbn. rewrite <- ?app_assoc. cbn. repeat split; auto; constructor.
  - exists [EvPopen (build_command ffpe_path inp out o)], evs, [handler e], bar', bar'.
    cbn. rewrite <- ?app_assoc. cbn. repeat split; auto; constructor.
Qed.

Lemma updates_only (evs : list event) :
  forallb is_update evs = true ->
  filter is_report evs = [] /\ filter is_probe evs = []
  /\ filter is_popen evs = []
  /\ (forall c, ~ In (EvPopen c) evs).
Proof.
  induction evs as [| e evs IH]; cbn; [intros _; repeat split; auto |].
  intros H. apply andb_prop in H as [He Hevs].
  destruct (IH Hevs) as (H1 & H2 & H3 & H4).
  destruct e; try discriminate. cbn. repeat split; auto.
  intros c [Hc | Hc]; [discriminate | now apply (H4 c)].
Qed.

Lemma handler_kind (e : exn) :
  is_report (handler e) = true /\ is_update (handler e) = false
  /\ is_probe (handler e) = false /\ is_popen (handler e) = false
  /\ updates_total [handler e] = 0%Z
  /\ (forall c, handler e <> EvPopen c).
Proof. destruct e; repeat split; discriminate. Qed.

(** X7.  Every run of the worker calls the probe first and exactly
    once, launches the transcoder at most once and only with the
    command built from its arguments, prints exactly one report of how
    the job ended, and collects garbage last. *)
Theorem every_run_reports_once {os : OsPath} (w : world)
  (ffpe_path inp out : string) (o : options) (progress_bar : Tqdm.bar) :
  let evs := fst (convert_single w ffpe_path inp out o progress_bar) in
  hd_error evs = Some (EvProbe inp)
  /\ last evs EvSleep = EvCollect
  /\ List.length (filter is_probe evs) = 1%nat
  /\ (List.length (filter is_popen evs) <= 1)%nat
  /\ (forall c, In (EvPopen c) evs -> c = build_command ffpe_path inp out o)
  /\ List.length (filter is_report evs) = 1%nat
  /\ exists result, outcome evs = Some result.
Proof.
  cbv zeta.
  destruct (convert_single_shape w ffpe_path inp out o progress_bar)
    as (launch & evs & tail & bar' & final & -> & Hlaunch & Hu & _ & _ & Hend).
  cbn [fst].
  destruct (updates_only evs Hu) as (Hr & Hp & Hl & Hnone).
  assert (Htail : List.length (filter is_report tail) = 1%nat
                  /\ filter is_probe tail = [] /\ filter is_popen tail = []
                  /\ (forall c, ~ In (EvPopen c) tail)
                  /\ exists result, outcome (tail ++ [EvCollect]) = Some result).
  { destruct Hend as [e | name].
    - destruct (handler_kind e) as (H1 & _ & H3 & H4 & _ & H6).
      cbn [filter hd app]. rewrite H1, H3, H4.
      split; [reflexivity |]. split; [reflexivity |]. split; [reflexivity |].
      split.
      + intros c [Hc | []]. exact (H6 c Hc).
      + exists (Failed e). apply handler_outcome.
    - split; [reflexivity |]. split; [reflexivity |]. split; [reflexivity |].
      split.
      + intros c [Hc | [Hc | [Hc | []]]]; discriminate.
      + now exists Succeeded. }
  destruct Htail as (Tr & Tp & Tl & Tnone & result & Hres).
  assert (Hlaunch' : launch = []
                     \/ launch = [EvPopen (build_command ffpe_path inp out o)])
    by (destruct Hlaunch as [(-> & _) | ->]; auto).
  split; [reflexivity |]. split.
  { rewrite app_comm_cons, !app_assoc. apply last_last. }
  split.
  { cbn [filter is_probe]. rewrite !filter_app, Hp, Tp.
    destruct Hlaunch' as [-> | ->]; reflexivity. }
  split.
  { cbn [filter is_probe is_popen]. rewrite !filter_app, Hl, Tl.
    destruct Hlaunch' as [-> | ->]; cbn; lia. }
  split.
  { intros c [Hc | Hc]; [discriminate |].
    apply in_app_or in Hc as [Hc | Hc].
    - destruct Hlaunch' as [-> | ->]; [destruct Hc |].
      destruct Hc as [Hc | []]. congruence.
    - apply in_app_or in Hc as [Hc | Hc]; [now destruct (Hnone c) |].
      apply in_app_or in Hc as [Hc | [Hc | []]];
        [now destruct (Tnone c) | discriminate]. }
  split.
  { cbn [filter is_report]. rewrite !filter_app, !length_app, Hr, Tr.
    destruct Hlaunch' as [-> | ->]; reflexivity. }
  exists result. cbn [outcome].
  destruct Hlaunch' as [-> | ->]; cbn [app outcome]; now rewrite outcome_updates.
Qed.

Lemma convert_single_counter {os : OsPath} (w : world)
  (ffpe_path inp out : string) (o : options) (progress_bar : Tqdm.bar) :
  Tqdm.n (snd (convert_single w ffpe_path inp out o progress_bar))
  = (Tqdm.n progress_bar
     + updates_total (fst (convert_single w ffpe_path inp out o progress_bar)))%Z.
Proof.
  destruct (convert_single_shape w ffpe_path inp out o progress_bar)
    as (launch & evs & tail & bar' & final & -> & Hlaunch & Hu & Hn & _ & Hend).
  cbn [fst snd updates_total].
  rewrite !updates_total_app.
  assert (Hl : updates_total launch = 0%Z)
    by (destruct Hlaunch as [(-> & _) | ->]; reflexivity).
  assert (Ht : updates_total tail = 0%Z /\ Tqdm.n final = Tqdm.n bar').
  { destruct Hend as [e | name]; [| now split].
    now destruct (handler_kind e) as (_ & _ & _ & _ & H5 & _). }
  destruct Ht as [Ht ->]. rewrite Hl, Ht, Hn. cbn. lia.
Qed.

(** X2.  Whatever happens in a run, the counter of the bar at the end is
    its counter at the start plus the sum of what was handed to
    [update], and it is the last value the bar showed. *)
Theorem bar_counter_is_sum_of_updates {os : OsPath} (w : world)
  (ffpe_path inp out : string) (o : options) (progress_bar : Tqdm.bar) :
  let run := convert_single w ffpe_path inp out o progress_bar in
  Tqdm.n (snd run) = (Tqdm.n progress_bar + updates_total (fst run))%Z
  /\ last (bar_values (Tqdm.n progress_bar) (fst run)) (Tqdm.n progress_bar)
     = Tqdm.n (snd run).
Proof.
  cbv zeta. split; [apply convert_single_counter |].
  now rewrite bar_values_last, convert_single_counter.
Qed.

(** X6.  A bar that is open when the run starts is closed at the end
    exactly when the job is reported as completed: after a failure the
    bar is left open. *)
Theorem bar_closed_iff_completed {os : OsPath} (w : world)
  (ffpe_path inp out : string) (o : options) (progress_bar : Tqdm.bar) :
  Tqdm.closed progress_bar = false ->
  let run := convert_single w ffpe_path inp out o progress_bar in
  Tqdm.closed (snd run) = true <-> outcome (fst run) = Some Succeeded.
Proof.
  intros Hopen. cbv zeta.
  destruct (convert_single_shape w ffpe_path inp out o progress_bar)
    as (launch & evs & tail & bar' & final & -> & Hlaunch & Hu & _ & Hc & Hend).
  cbn [fst snd].
  assert (Hout : outcome (EvProbe inp :: launch ++ evs ++ tail ++ [EvCollect])
                 = outcome (tail ++ [EvCollect])).
  { cbn [outcome].
    destruct Hlaunch as [(-> & _) | ->]; cbn [app outcome];
      now rewrite outcome_updates. }
  rewrite Hout. destruct Hend as [e | name].
  - cbn [app]. rewrite handler_outcome, Hc, Hopen. split; discriminate.
  - cbn. split; reflexivity.
Qed.

Lemma bar_closed_iff_completed_witness :
  let run :=
    convert_single (world_of 60 steady_process) "ffpe.exe" "a.avi" "out/a.mp4"
      no_options Tqdm.create in
  Tqdm.closed Tqdm.create = false
  /\ Tqdm.closed (snd run) = true
  /\ (Tqdm.closed (snd run) = true <-> outcome (fst run) = Some Succeeded).
Proof.
  cbv zeta. split; [reflexivity |]. split; [reflexivity |].
  apply (bar_closed_iff_completed (world_of 60 steady_process) "ffpe.exe"
           "a.avi" "out/a.mp4" no_options Tqdm.create).
  reflexivity.
Defined.



(** ** The worker: which lines count *)

Lemma read_progress_filter (duration : Q) (lines : list string) :
  forall progress_bar : Tqdm.bar,
    read_progress duration (filter has_time lines) progress_bar
    = read_progress duration lines progress_bar.
Proof.
  induction lines as [| line lines IH]; intros progress_bar; [reflexivity |].
  cbn [filter]. unfold has_time at 1.
  destruct (parse_line line) as [| elapsed | e] eqn:Hline;
    cbn [read_progress]; rewrite Hline; [apply IH | | reflexivity].
  destruct (Qeq_bool duration 0); [reflexivity |]. now rewrite IH.
Qed.

(** X3.  The lines of the output in which the pattern is not found have
    no effect whatever: the run on an output and the run on the same
    output without those lines are the same. *)
Theorem lines_without_time_change_nothing {os : OsPath} (w : world)
  (proc : process) (ffpe_path inp out : string) (o : options)
  (progress_bar : Tqdm.bar) :
  convert_single
    (with_process w (with_stdout (filter has_time (stdout proc)) proc))
    ffpe_path inp out o progress_bar
  = convert_single (with_process w proc) ffpe_path inp out o progress_bar.
Proof.
  unfold convert_single, try_body, get_duration. cbn [probe popen with_process].
  destruct (probe w inp) as [duration | e]; [| reflexivity].
  cbn [stdout with_stdout stdout_error]. now rewrite read_progress_filter.
Qed.




Lemma read_progress_quiet (duration : Q) (lines : list string) :
  Forall (fun line => parse_line line = NoMatch) lines ->
  forall (tail : list string) (progress_bar : Tqdm.bar),
    read_progress duration (lines ++ tail) progress_bar
    = read_progress duration tail progress_bar.
Proof.
  induction 1 as [| line lines Hline _ IH]; intros tail progress_bar;
    [reflexivity |].
  cbn [app read_progress]. rewrite Hline. apply IH.
Qed.

(** X5.  When the probe gives a duration of zero, the first line that
    carries a time makes the job fail with [ZeroDivisionError]: the bar
    is never updated and the lines after are not read. *)
Theorem zero_duration_fails_at_first_time {os : OsPath} (w : world)
  (proc : process) (quiet : list string) (line : string) (rest : list string)
  (elapsed duration : Q) (ffpe_path inp out : string) (o : options)
  (progress_bar : Tqdm.bar) :
  get_duration w inp = Ok duration ->
  (duration == 0)%Q ->
  popen w (build_command ffpe_path inp out o) = Ok proc ->
  stdout proc = quiet ++ line :: rest ->
  Forall (fun l => parse_line l = NoMatch) quiet ->
  parse_line line = Elapsed elapsed ->
  convert_single w ffpe_path inp out o progress_bar
  = ([EvProbe inp; EvPopen (build_command ffpe_path inp out o);
      EvError ZeroDivisionError; EvCollect], progress_bar).
Proof.
  intros Hprobe Hzero Hpopen Hout Hquiet Hline.
  apply Qeq_bool_iff in Hzero.
  unfold convert_single, try_body. rewrite Hprobe, Hpopen, Hout.
  rewrite read_progress_quiet by exact Hquiet.
  cbn [read_progress]. rewrite Hline, Hzero. reflexivity.
Qed.


Lemma zero_duration_fails_at_first_time_witness :
  let w := world_of 0 steady_process in
  let command := build_command "ffpe.exe" "a.avi" "out/a.mp4" no_options in
  get_duration w "a.avi" = Ok 0%Q
  /\ (0 == 0)%Q
  /\ popen w command = Ok steady_process
  /\ stdout steady_process
     = [] ++ "time=00:00:15.00" :: ["frame=120 size=..."; "time=00:00:60.00"]
  /\ Forall (fun l => parse_line l = NoMatch) []
  /\ parse_line "time=00:00:15.00" = Elapsed (1500 # 100)
  /\ convert_single w "ffpe.exe" "a.avi" "out/a.mp4" no_options Tqdm.create
     = ([EvProbe "a.avi"; EvPopen command; EvError ZeroDivisionError; EvCollect],
        Tqdm.create).
Proof.
  cbv zeta.
  split; [reflexivity |]. split; [reflexivity |]. split; [reflexivity |].
  split; [reflexivity |]. split; [constructor |].
  split; [vm_compute; reflexivity |].
  apply (zero_duration_fails_at_first_time (world_of 0 steady_process)
           steady_process [] "time=00:00:15.00"
           ["frame=120 size=..."; "time=00:00:60.00"] (1500 # 100) 0
           "ffpe.exe" "a.avi" "out/a.mp4" no_options Tqdm.create);
    first [reflexivity | constructor | vm_compute; reflexivity].
Defined.

(** ** The batch: the checks *)

(** A program that is one error message starts nothing. *)
Lemma error_only_starts_nothing (worker : job -> list event)
  (msg : log_message) (ls : list label) (c' : cfg) :
  steps worker {| main := [LogError msg]; threads := [] |} ls c' ->
  started (main_actions ls) = [] /\ forall k, worker_events k ls = [].
Proof.
  intros Hsteps. split.
  - apply steps_main_actions in Hsteps. cbn [main] in Hsteps.
    destruct (main_actions ls) as [| a [| a' acts]]; [reflexivity | |].
    + injection Hsteps as <- _. reflexivity.
    + destruct acts; discriminate.
  - intros k. pose proof (steps_pending worker _ _ _ k Hsteps) as Hp.
    unfold pending at 1 in Hp. cbn in Hp.
    destruct k; cbn in Hp; symmetry in Hp; now apply app_eq_nil in Hp.
Qed.

(** X9.  Without an output directory ([None] or the empty text) a call
    with inputs is rejected with the message about the directory, before
    any input is looked up in the file system; in every execution no
    thread is started and no worker does anything. *)
Theorem convert_without_directory_starts_nothing {os : OsPath}
  (exists_ : string -> bool) (input_files : py_files)
  (output_dir : option string) (o : options) (worker : job -> list event) :
  no_files input_files = false ->
  output_dir = None \/ output_dir = Some "" ->
  convert exists_ input_files output_dir o = [LogError NoOutputDirectory]
  /\ convert exists_ input_files output_dir o
     = convert (fun _ => false) input_files output_dir o
  /\ forall ls c',
      steps worker (initial exists_ input_files output_dir o) ls c' ->
      started (main_actions ls) = [] /\ forall k, worker_events k ls = [].
Proof.
  intros Hfiles Hdir.
  assert (Hc : forall ex, convert ex input_files output_dir o
                          = [LogError NoOutputDirectory]).
  { intros ex. unfold convert. rewrite Hfiles.
    destruct Hdir as [-> | ->]; reflexivity. }
  split; [apply Hc |]. split; [now rewrite !Hc |].
  intros ls c'. unfold initial. rewrite Hc. apply error_only_starts_nothing.
Qed.

Lemma convert_without_directory_starts_nothing_witness :
  no_files (FilesList three_files) = false
  /\ (@None string = None \/ @None string = Some "")
  /\ convert (fun _ => true) (FilesList three_files) None no_options
     = [LogError NoOutputDirectory]
  /\ convert (fun _ => true) (FilesList three_files) None no_options
     = convert (fun _ => false) (FilesList three_files) None no_options
  /\ forall ls c',
      steps (job_events "ffpe.exe" three_worlds)
        (initial (fun _ => true) (FilesList three_files) None no_options) ls c' ->
      started (main_actions ls) = [] /\ forall k, worker_events k ls = [].
Proof.
  split; [reflexivity |]. split; [now left |].
  apply (convert_without_directory_starts_nothing (fun _ => true)
           (FilesList three_files) None no_options
           (job_events "ffpe.exe" three_worlds)); [reflexivity | now left].
Defined.

Lemma first_missing_found (exists_ : string -> bool)
  (before : list string) (missing : string) (after : list string) :
  forallb exists_ before = true -> exists_ missing = false ->
  first_missing exists_ (before ++ missing :: after) = Some missing.
Proof.
  intros Hbefore Hmissing. induction before as [| p before IH]; cbn.
  - now rewrite Hmissing.
  - cbn in Hbefore. apply andb_prop in Hbefore as [Hp Hbefore].
    rewrite Hp. auto.
Qed.

(** X10.  With an output directory, a batch one of whose inputs does not
    exist is rejected with a message that names the first such input;
    the inputs after it are not looked up, whether they exist or not. *)
Theorem convert_names_first_missing_input {os : OsPath}
  (exists_ : string -> bool) (before : list string) (missing : string)
  (after : list string) (dir : string) (o : options) :
  dir <> "" ->
  forallb exists_ before = true ->
  exists_ missing = false ->
  convert exists_ (FilesList (before ++ missing :: after)) (Some dir) o
  = [LogError (InvalidInputFile missing)]
  /\ forall exists' : string -> bool,
      (forall p, In p (before ++ [missing]) -> exists' p = exists_ p) ->
      convert exists' (FilesList (before ++ missing :: after)) (Some dir) o
      = [LogError (InvalidInputFile missing)].
Proof.
  intros Hdir Hbefore Hmissing.
  assert (H : forall ex, forallb ex before = true -> ex missing = false ->
              convert ex (FilesList (before ++ missing :: after)) (Some dir) o
              = [LogError (InvalidInputFile missing)]).
  { intros ex Hb Hm. unfold convert.
    assert (Hnone : no_files (FilesList (before ++ missing :: after)) = false)
      by (now destruct before).
    rewrite Hnone, (truthy_str_true dir Hdir). cbn [negb as_list].
    now rewrite (first_missing_found ex before missing after Hb Hm). }
  split; [now apply H |].
  intros exists' Hsame. apply H.
  - rewrite forallb_forall in *. intros p Hp.
    rewrite Hsame; [now apply Hbefore | apply in_or_app; now left].
  - rewrite Hsame; [exact Hmissing | apply in_or_app; right; now left].
Qed.

Lemma convert_names_first_missing_input_witness :
  let exists_ := fun p => String.eqb p "a.avi" in
  "out" <> ""
  /\ forallb exists_ ["a.avi"] = true
  /\ exists_ "b.avi" = false
  /\ convert exists_ (FilesList (["a.avi"] ++ "b.avi" :: ["c.avi"])) (Some "out")
       no_options
     = [LogError (InvalidInputFile "b.avi")]
  /\ forall exists' : string -> bool,
      (forall p, In p (["a.avi"] ++ ["b.avi"]) -> exists' p = exists_ p) ->
      convert exists' (FilesList (["a.avi"] ++ "b.avi" :: ["c.avi"])) (Some "out")
        no_options
      = [LogError (InvalidInputFile "b.avi")].
Proof.
  cbv zeta. split; [discriminate |]. split; [reflexivity |]. split; [reflexivity |].
  apply (convert_names_first_missing_input (fun p => String.eqb p "a.avi")
           ["a.avi"] "b.avi" ["c.avi"] "out" no_options);
    [discriminate | reflexivity | reflexivity].
Defined.

(** X11.  A bare path that is not the empty text is handled as the list
    of that one path; the empty text is handled as no input at all,
    while the list of the empty text goes on to the look-up. *)
Theorem convert_bare_path_is_singleton {os : OsPath}
  (exists_ : string -> bool) (path : string) (output_dir : option string)
  (o : options) :
  path <> "" ->
  convert exists_ (FilesStr path) output_dir o
  = convert exists_ (FilesList [path]) output_dir o
  /\ convert exists_ (FilesStr "") output_dir o = [LogError NoInputFiles]
  /\ convert exists_ (FilesList [""]) output_dir o <> [LogError NoInputFiles].
Proof.
  intros Hpath. split; [| split].
  - unfold convert. cbn [no_files as_list].
    now rewrite (truthy_str_true path Hpath).
  - reflexivity.
  - unfold convert. cbn [no_files as_list first_missing].
    destruct output_dir as [dir |]; [| discriminate].
    destruct (negb (truthy_str dir)); [discriminate |].
    destruct (exists_ ""); [| discriminate].
    cbn. discriminate.
Qed.

Lemma convert_bare_path_is_singleton_witness :
  "a.avi" <> ""
  /\ convert (fun _ => true) (FilesStr "a.avi") (Some "out") no_options
     = convert (fun _ => true) (FilesList ["a.avi"]) (Some "out") no_options
  /\ convert (fun _ => true) (FilesStr "") (Some "out") no_options
     = [LogError NoInputFiles]
  /\ convert (fun _ => true) (FilesList [""]) (Some "out") no_options
     <> [LogError NoInputFiles].
Proof.
  split; [discriminate |].
  apply (convert_bare_path_is_singleton (fun _ => true) "a.avi" (Some "out")
           no_options).
  discriminate.
Defined.

(** ** The batch: every interleaving ends *)

Section Progress.

Variable worker : job -> list event.

Lemma step_ready (c c' : cfg) (l : label) :
  step worker c l c' -> ready c -> ready c'.
Proof.
  intros Hstep (acts & ks & Hmain & Hquiet & Hks).
  destruct Hstep as [c l c' Hm | k c l c' Hw].
  - unfold step_main in Hm. rewrite Hmain in Hm.
    destruct acts as [| a acts].
    + cbn [app] in Hm. destruct ks as [| k ks]; [discriminate |].
      cbn [map] in Hm.
      destruct (nth_error (threads c) k) as [[| e evs] |]; try discriminate.
      injection Hm as _ <-. exists [], ks. cbn.
      inversion Hks; subst. repeat split; auto.
    + cbn [app] in Hm.
      destruct a as [msg | | msg | i | j | k]; cbn in Hquiet; try discriminate;
        injection Hm as _ <-; exists acts, ks; cbn [main threads];
        repeat split; auto.
      eapply Forall_impl; [| exact Hks]. cbn. intros k Hk.
      rewrite length_app. cbn. lia.
  - apply step_worker_inv in Hw as (e & rest & _ & Hmain' & _ & Hts).
    exists acts, ks. rewrite Hmain', Hts, set_nth_length. auto.
Qed.

Lemma steps_ready (c c' : cfg) (ls : list label) :
  steps worker c ls c' -> ready c -> ready c'.
Proof.
  induction 1 as [c | c l c1 ls c2 Hstep _ IH]; [auto |].
  intros Hc. apply IH. eapply step_ready; eauto.
Qed.

(** Joins of threads that are there can all be taken, in any order. *)
Lemma steps_join_list (ks : list nat) :
  forall ts,
    Forall (fun k => (k < List.length ts)%nat) ks ->
    exists ls c',
      steps worker {| main := map Join ks; threads := ts |} ls c'
      /\ main c' = [].
Proof.
  induction ks as [| k ks IH]; intros ts Hks; cbn.
  - exists [], {| main := []; threads := ts |}. split; [constructor | reflexivity].
  - inversion Hks as [| k' ks' Hk Hrest]; subst.
    destruct (nth_error ts k) as [evs |] eqn:Hnth.
    2:{ apply nth_error_None in Hnth. lia. }
    destruct (IH (set_nth k [] ts)) as (ls & c' & Hsteps & Hmain).
    { eapply Forall_impl; [| exact Hrest]. cbn. intros i Hi.
      now rewrite set_nth_length. }
    exists (map (LWorker k) evs ++ LMain (Join k) :: ls), c'.
    split; [| exact Hmain].
    eapply steps_app; [apply steps_drain; exact Hnth |].
    econstructor; [| exact Hsteps].
    apply StepMain. unfold step_main. cbn.
    now rewrite nth_error_set_nth_same.
Qed.

Lemma ready_completes (c : cfg) :
  ready c -> exists ls c', steps worker c ls c' /\ main c' = [].
Proof.
  intros (acts & ks & Hmain & Hquiet & Hks).
  destruct (steps_join_list ks (threads c ++ map worker (started acts)))
    as (ls & c' & Hsteps & Hdone).
  { eapply Forall_impl; [| exact Hks]. cbn. intros k Hk.
    now rewrite length_app, length_map. }
  exists (map LMain acts ++ ls), c'. split; [| exact Hdone].
  eapply steps_app; [| exact Hsteps].
  destruct c as [m ts]. cbn [main threads] in *. subst m.
  now apply steps_no_join.
Qed.

End Progress.

Lemma convert_ready {os : OsPath} (exists_ : string -> bool)
  (input_files : py_files) (output_dir : option string) (o : options) :
  ready (initial exists_ input_files output_dir o).
Proof.
  unfold initial, convert, ready. cbn [main threads].
  assert (Hlog : forall msg,
             exists acts ks,
               [LogError msg] = acts ++ map Join ks /\ joined acts = []
               /\ Forall (fun k => (k < List.length (@nil (list event))
                                        + List.length (started acts))%nat) ks).
  { intros msg. exists [LogError msg], []. repeat split. constructor. }
  destruct (no_files input_files); [apply Hlog |].
  destruct output_dir as [dir |]; [| apply Hlog].
  destruct (negb (truthy_str dir)); [apply Hlog |].
  destruct (first_missing exists_ (as_list input_files)); [apply Hlog |].
  set (files := as_list input_files).
  exists (banner files ++ [ConsolePrint Rule] ++ start_threads dir o 1 files),
    (seq 0 (List.length files)).
  split; [now rewrite <- !app_assoc |]. split.
  - rewrite !joined_app. destruct (banner_quiet files) as [_ ->].
    now rewrite start_threads_quiet.
  - rewrite !started_app. destruct (banner_quiet files) as [-> _].
    cbn [started app List.length Nat.add].
    destruct (start_threads_jobs dir o files 1) as [Hin _].
    rewrite <- (length_map input_file), Hin.
    apply Forall_forall. intros k Hk. apply in_seq in Hk. lia.
Qed.

(** X12.  Whatever the arguments of [convert] and however the threads
    have been interleaved so far, the call can still run to its end: no
    interleaving leaves the main thread waiting for ever at a [join]
    (the workers being ones that end). *)
Theorem convert_never_deadlocks {os : OsPath} (exists_ : string -> bool)
  (input_files : py_files) (output_dir : option string) (o : options)
  (worker : job -> list event) (ls : list label) (c : cfg) :
  steps worker (initial exists_ input_files output_dir o) ls c ->
  exists ls' c',
    steps worker c ls' c' /\ main c' = []
    /\ steps worker (initial exists_ input_files output_dir o) (ls ++ ls') c'.
Proof.
  intros Hsteps.
  destruct (ready_completes worker c) as (ls' & c' & Hrest & Hdone).
  { eapply steps_ready; [exact Hsteps | apply convert_ready]. }
  exists ls', c'. repeat split; auto. eapply steps_app; eauto.
Qed.

Lemma convert_never_deadlocks_witness :
  let worker := job_events "ffpe.exe" three_worlds in
  let c0 := initial (fun _ => true) (FilesList three_files) (Some "out") no_options in
  let run := run_schedule worker (repeat None 7 ++ repeat (Some 0%nat) 3) c0 in
  steps worker c0 (fst run) (snd run)
  /\ main (snd run) <> []
  /\ exists ls' c',
      steps worker (snd run) ls' c' /\ main c' = []
      /\ steps worker c0 (fst run ++ ls') c'.
Proof.
  cbv zeta. split; [apply run_schedule_steps |]. split; [vm_compute; discriminate |].
  apply (convert_never_deadlocks (fun _ => true) (FilesList three_files)
           (Some "out") no_options (job_events "ffpe.exe" three_worlds)).
  apply run_schedule_steps.
Defined.

(** ** The output path under [posixpath] *)

Lemma length_append (a b : string) :
  String.length (a ++ b) = (String.length a + String.length b)%nat.
Proof. induction a as [| c a IH]; cbn; [reflexivity | now rewrite IH]. Qed.

Lemma substring_all (a : string) : substring 0 (String.length a) a = a.
Proof. induction a as [| c a IH]; cbn; [reflexivity | now rewrite IH]. Qed.

Lemma substring_prefix (a b : string) :
  substring 0 (String.length a) (a ++ b) = a.
Proof.
  induction a as [| c a IH]; cbn; [now destruct b | now rewrite IH].
Qed.

Lemma substring_suffix (a b : string) :
  substring (String.length a) (String.length b) (a ++ b) = b.
Proof.
  induction a as [| c a IH]; cbn; [apply substring_all | exact IH].
Qed.

Lemma posix_drop_app (a b : string) :
  Posix.drop (Z.of_nat (String.length a)) (a ++ b) = b.
Proof.
  unfold Posix.drop. rewrite Nat2Z.id, length_append.
  replace (String.length a + String.length b - String.length a)%nat
    with (String.length b) by lia.
  apply substring_suffix.
Qed.

Lemma posix_drop_zero (p : string) : Posix.drop 0 p = p.
Proof. apply (posix_drop_app "" p). Qed.

Lemma posix_take_app (a b : string) :
  Posix.take (Z.of_nat (String.length a)) (a ++ b) = a.
Proof. unfold Posix.take. rewrite Nat2Z.id. apply substring_prefix. Qed.

Lemma rfind_from_lacks (c : ascii) (p : string) :
  lacks c p = true -> forall i last, Posix.rfind_from c i last p = last.
Proof.
  induction p as [| a p IH]; cbn; intros H i last; [reflexivity |].
  apply andb_prop in H as [Ha Hp]. apply negb_true_iff in Ha.
  rewrite Ha. now apply IH.
Qed.

Lemma rfind_from_last (c : ascii) (a b : string) :
  lacks c b = true ->
  forall i last,
    Posix.rfind_from c i last (a ++ String c b)
    = (i + Z.of_nat (String.length a))%Z.
Proof.
  intros Hb. induction a as [| x a IH]; intros i last.
  - cbn. rewrite Ascii.eqb_refl, rfind_from_lacks by exact Hb. lia.
  - cbn [append Posix.rfind_from String.length]. rewrite IH. lia.
Qed.

Lemma posix_basename_of_name (name : string) :
  lacks "/" name = true -> Posix.basename name = name.
Proof.
  intros H. unfold Posix.basename, Posix.rfind, Posix.sep.
  rewrite rfind_from_lacks by exact H.
  apply (posix_drop_app "" name).
Qed.

Lemma posix_basename_in_folder (folder name : string) :
  lacks "/" name = true ->
  Posix.basename (folder ++ String "/" name) = name.
Proof.
  intros H. unfold Posix.basename, Posix.rfind, Posix.sep.
  rewrite rfind_from_last by exact H.
  replace (folder ++ String "/" name)%string
    with ((folder ++ "/") ++ name)%string
    by (rewrite append_assoc; reflexivity).
  replace (0 + Z.of_nat (String.length folder) + 1)%Z
    with (Z.of_nat (String.length (folder ++ "/")))
    by (rewrite length_append; cbn; lia).
  apply posix_drop_app.
Qed.

Lemma posix_splitext_root_of_name (stem ext : string) :
  lacks "/" stem = true -> lacks "/" ext = true -> lacks "." ext = true ->
  Posix.only_dots stem = false ->
  Posix.splitext_root (stem ++ String "." ext) = stem.
Proof.
  intros Hs He Hd Hdots. unfold Posix.splitext_root, Posix.rfind, Posix.sep, Posix.extsep.
  rewrite (rfind_from_lacks "/") by (apply lacks_app; [exact Hs | cbn; exact He]).
  rewrite rfind_from_last by exact Hd.
  assert (Hlt : (-1 <? 0 + Z.of_nat (String.length stem))%Z = true)
    by (apply Z.ltb_lt; lia).
  rewrite Hlt.
  replace (0 + Z.of_nat (String.length stem) - (-1 + 1))%Z
    with (Z.of_nat (String.length stem)) by lia.
  change (-1 + 1)%Z with 0%Z. rewrite posix_drop_zero.
  rewrite posix_take_app, Hdots.
  replace (0 + Z.of_nat (String.length stem))%Z
    with (Z.of_nat (String.length stem)) by lia.
  apply posix_take_app.
Qed.

Lemma only_dots_false_nonempty (stem : string) :
  Posix.only_dots stem = false -> lacks "/" stem = true ->
  forall tail, Posix.startswith_sep (stem ++ tail) = false.
Proof.
  intros Hdots Hs tail. destruct stem as [| c stem]; [discriminate |].
  cbn in *. apply andb_prop in Hs as [Hc _]. now apply negb_true_iff in Hc.
Qed.

(** X13.  Under [posixpath], for an input whose name is a stem that is
    not made of dots only, a dot and an extension without a dot, the
    output file is the stem with the format as its extension, inside
    the output directory: whatever folder the input is in, and with one
    separator between the directory and the name. *)
Theorem posix_output_file_is_stem_with_format
  (dir folder stem ext : string) (fmt : option string) :
  dir <> "" ->
  lacks "/" stem = true -> lacks "/" ext = true -> lacks "." ext = true ->
  Posix.only_dots stem = false ->
  let name := (stem ++ "." ++ format_opt fmt)%string in
  let out :=
    (if Posix.endswith_sep dir then dir ++ name else dir ++ "/" ++ name)%string in
  derive_output_file dir fmt (stem ++ "." ++ ext) = out
  /\ derive_output_file dir fmt (folder ++ "/" ++ stem ++ "." ++ ext) = out.
Proof.
  intros Hdir Hs He Hd Hdots. cbv zeta.
  assert (Hname : lacks "/" (stem ++ String "." ext) = true)
    by (apply lacks_app; [exact Hs | cbn; exact He]).
  assert (Hjoin : Posix.join dir (stem ++ "." ++ format_opt fmt)
                  = (if Posix.endswith_sep dir
                     then dir ++ stem ++ "." ++ format_opt fmt
                     else dir ++ "/" ++ stem ++ "." ++ format_opt fmt)%string).
  { unfold Posix.join.
    rewrite (only_dots_false_nonempty stem Hdots Hs).
    destruct (String.eqb_spec dir ""); [contradiction |].
    cbn [orb]. now destruct (Posix.endswith_sep dir). }
  unfold derive_output_file. cbn [os_path_basename os_path_splitext_root
                                    os_path_join posixpath].
  split.
  - change (stem ++ "." ++ ext)%string with (stem ++ String "." ext)%string.
    rewrite posix_basename_of_name by exact Hname.
    rewrite posix_splitext_root_of_name by assumption. exact Hjoin.
  - change (folder ++ "/" ++ stem ++ "." ++ ext)%string
      with (folder ++ String "/" (stem ++ String "." ext))%string.
    rewrite posix_basename_in_folder by exact Hname.
    rewrite posix_splitext_root_of_name by assumption. exact Hjoin.
Qed.

Lemma posix_output_file_is_stem_with_format_witness :
  "out" <> ""
  /\ lacks "/" "clip.final" = true /\ lacks "/" "avi" = true
  /\ lacks "." "avi" = true /\ Posix.only_dots "clip.final" = false
  /\ derive_output_file "out" (Some "mp4") "clip.final.avi" = "out/clip.final.mp4"
  /\ derive_output_file "out" (Some "mp4") "/home/me/videos/clip.final.avi"
     = "out/clip.final.mp4".
Proof.
  split; [discriminate |]. repeat (split; [reflexivity |]).
  apply (posix_output_file_is_stem_with_format "out" "/home/me/videos"
           "clip.final" "avi" (Some "mp4")); first [discriminate | reflexivity].
Defined.

(** ** The queries: the cache *)

Lemma call_eqb_refl (c : call) : call_eqb c c = true.
Proof.
  destruct c as [| [e |] | [e |] | |]; cbn; auto using String.eqb_refl.
Qed.

Section Cache.

Variable upper : string -> string.
Variable ffpe_path : string.

Lemma query_keeps (w : query_world) (c c' : call) (cache : list call) :
  existsb (call_eqb c') cache = true ->
  existsb (call_eqb c') (snd (query upper w ffpe_path c cache)) = true.
Proof.
  intros H. unfold query.
  destruct (existsb (call_eqb c) cache); cbn; [exact H |].
  rewrite H. apply orb_true_r.
Qed.

Lemma query_adds (w : query_world) (c : call) (cache : list call) :
  existsb (call_eqb c) (snd (query upper w ffpe_path c cache)) = true.
Proof.
  unfold query. destruct (existsb (call_eqb c) cache) eqn:H; cbn; [exact H |].
  now rewrite call_eqb_refl.
Qed.

Lemma session_keeps (calls : list (query_world * call)) (c' : call) :
  forall cache,
    existsb (call_eqb c') cache = true ->
    existsb (call_eqb c') (snd (session upper ffpe_path calls cache)) = true.
Proof.
  induction calls as [| [w c] calls IH]; intros cache H; [exact H |].
  cbn [session].
  pose proof (query_keeps w c c' cache H) as Hq.
  destruct (query upper w ffpe_path c cache) as [out cache'].
  specialize (IH cache' Hq).
  now destruct (session upper ffpe_path calls cache') as [outs cache''].
Qed.

Lemma session_app (calls calls' : list (query_world * call)) :
  forall cache,
    session upper ffpe_path (calls ++ calls') cache
    = let (outs, cache') := session upper ffpe_path calls cache in
      let (outs', cache'') := session upper ffpe_path calls' cache' in
      (outs ++ outs', cache'').
Proof.
  induction calls as [| [w c] calls IH]; intros cache; cbn [app session].
  - now destruct (session upper ffpe_path calls' cache).
  - destruct (query upper w ffpe_path c cache) as [out cache'].
    rewrite IH.
    destruct (session upper ffpe_path calls cache') as [outs cache''].
    now destruct (session upper ffpe_path calls' cache'') as [outs' cache'''].
Qed.

End Cache.

(** X14.  A query that is called again in the same way runs no command
    and shows nothing, whatever was called in between, whatever the
    executable would answer by then, and also when the first call ended
    in an error.  Passing the encoder by position and by keyword are
    two ways: each runs the command once. *)
Theorem query_runs_once_per_way_of_calling (upper : string -> string)
  (ffpe_path : string) (before between : list (query_world * call))
  (w w' : query_world) (c : call) (cache : list call) :
  (exists outs,
      fst (session upper ffpe_path
             (before ++ (w, c) :: between ++ [(w', c)]) cache)
      = outs ++ [[]])
  /\ forall encoder,
      fst (session upper ffpe_path
             [(w, CodecsKeyword encoder); (w', CodecsPositional encoder)] [])
      = [codecs_body upper w ffpe_path encoder;
         codecs_body upper w' ffpe_path encoder].
Proof.
  split; [| reflexivity].
  rewrite session_app.
  destruct (session upper ffpe_path before cache) as [outs0 cache0].
  cbn [session].
  pose proof (query_adds upper ffpe_path w c cache0) as Hin.
  destruct (query upper w ffpe_path c cache0) as [out1 cache1]. cbn [snd] in Hin.
  rewrite session_app.
  pose proof (session_keeps upper ffpe_path between c cache1 Hin) as Hin'.
  destruct (session upper ffpe_path between cache1) as [outs2 cache2].
  cbn [snd] in Hin'. cbn [session]. unfold query. rewrite Hin'. cbn [fst].
  exists (outs0 ++ out1 :: outs2).
  now rewrite <- app_assoc.
Qed.

(** ** The queries: the features of a codec or a format *)

Lemma contains_app (c : ascii) (a b : string) :
  Text.contains c (a ++ b) = Text.contains c a || Text.contains c b.
Proof.
  induction a as [| x a IH]; cbn; [reflexivity |].
  now rewrite IH, orb_assoc.
Qed.

Lemma features_str_same_letters (a b : string) :
  (forall c, In c ["D"; "E"; "V"; "A"; "S"; "T"; "I"; "L"]%char ->
             Text.contains c a = Text.contains c b) ->
  features_str a = features_str b.
Proof.
  intros H. unfold features_str.
  rewrite !(H _); [reflexivity | ..]; cbn; tauto.
Qed.

(** X15.  The features shown for a codec or a format depend only on
    which of the letters D, E, V, A, S, T, I, L occur in the flags, not
    on where or how often: they are the same for a text and for the text
    read in another order or twice; showing is idempotent, the result is
    at most 16 characters long, and it is empty exactly when none of
    the letters occurs. *)
Theorem features_str_ignores_positions (a b : string) :
  features_str (a ++ b) = features_str (b ++ a)
  /\ features_str (a ++ a) = features_str a
  /\ features_str (features_str a) = features_str a
  /\ (String.length (features_str a) <= 16)%nat
  /\ (features_str a = ""
      <-> forall c, In c ["D"; "E"; "V"; "A"; "S"; "T"; "I"; "L"]%char ->
                    Text.contains c a = false).
Proof.
  split; [| split; [| split; [| split]]].
  - apply features_str_same_letters. intros c _.
    rewrite !contains_app. apply orb_comm.
  - apply features_str_same_letters. intros c _.
    rewrite contains_app. apply orb_diag.
  - apply features_str_same_letters. intros c Hc. unfold features_str.
    destruct (Text.contains "D" a) eqn:HD, (Text.contains "E" a) eqn:HE,
      (Text.contains "V" a) eqn:HV, (Text.contains "A" a) eqn:HA,
      (Text.contains "S" a) eqn:HS, (Text.contains "T" a) eqn:HT,
      (Text.contains "I" a) eqn:HI, (Text.contains "L" a) eqn:HL;
      cbn in Hc;
      repeat (destruct Hc as [<- | Hc]; [cbn; congruence |]);
      destruct Hc.
  - unfold features_str.
    destruct (Text.contains "D" a), (Text.contains "E" a),
      (Text.contains "V" a), (Text.contains "A" a), (Text.contains "S" a),
      (Text.contains "T" a), (Text.contains "I" a), (Text.contains "L" a);
      cbn; lia.
  - split.
    + intros Hempty c Hc. unfold features_str in Hempty.
      destruct (Text.contains "D" a) eqn:HD, (Text.contains "E" a) eqn:HE,
        (Text.contains "V" a) eqn:HV, (Text.contains "A" a) eqn:HA,
        (Text.contains "S" a) eqn:HS, (Text.contains "T" a) eqn:HT,
        (Text.contains "I" a) eqn:HI, (Text.contains "L" a) eqn:HL;
        try discriminate Hempty.
      cbn in Hc. repeat (destruct Hc as [<- | Hc]; [assumption |]). destruct Hc.
    + intros H. unfold features_str.
      rewrite !(H _); [reflexivity | ..]; cbn; tauto.
Qed.

(** ** The queries: the rows of the tables *)

Lemma split_ws_from_word (w : string) :
  no_space w = true ->
  forall cur rest,
    Text.split_ws_from cur (w ++ rest) = Text.split_ws_from (cur ++ w) rest.
Proof.
  induction w as [| a w IH]; cbn [no_space append]; intros Hw cur rest.
  - now rewrite append_nil_r.
  - apply andb_prop in Hw as [Ha Hw]. apply negb_true_iff in Ha.
    cbn [Text.split_ws_from]. rewrite Ha, IH by exact Hw.
    now rewrite append_assoc.
Qed.

Lemma split_ws_from_lead (lead : string) :
  all_space lead = true ->
  forall rest, Text.split_ws_from "" (lead ++ rest) = Text.split_ws_from "" rest.
Proof.
  induction lead as [| a lead IH]; cbn [all_space append]; intros Hl rest;
    [reflexivity |].
  apply andb_prop in Hl as [Ha Hl].
  cbn [Text.split_ws_from]. rewrite Ha. cbn. now apply IH.
Qed.

Lemma is_word_spec (w : string) :
  is_word w = true -> w <> "" /\ no_space w = true /\ String.eqb w "" = false.
Proof.
  unfold is_word, truthy_str. intros H. apply andb_prop in H as [Hne Hw].
  apply negb_true_iff in Hne. repeat split; auto.
  intros ->. discriminate.
Qed.

(** Fields joined by single spaces are found again by [split()]. *)
Lemma split_ws_join (fields : list string) :
  Forall (fun w => is_word w = true) fields ->
  Text.split_ws (Text.join " " fields) = fields.
Proof.
  unfold Text.split_ws. induction 1 as [| w fields Hw Hfields IH]; [reflexivity |].
  destruct (is_word_spec w Hw) as (_ & Hns & Hne).
  destruct fields as [| w' fields].
  - cbn [Text.join]. rewrite <- (append_nil_r w) at 1.
    rewrite split_ws_from_word by exact Hns. cbn. now rewrite Hne.
  - change (Text.join " " (w :: w' :: fields))
      with (w ++ String " " (Text.join " " (w' :: fields)))%string.
    rewrite split_ws_from_word by exact Hns.
    cbn [Text.split_ws_from append]. change (Text.is_space " ") with true.
    cbn iota. rewrite Hne. now rewrite IH.
Qed.

Lemma join_word_nonempty (w : string) (fields : list string) :
  w <> "" -> Text.join " " (w :: fields) <> "".
Proof.
  intros Hw. destruct fields; cbn [Text.join]; [exact Hw |].
  destruct w; [contradiction | discriminate].
Qed.

Lemma line_of_fields (lead : string) (fields : list string) :
  all_space lead = true ->
  Forall (fun w => is_word w = true) fields ->
  fields <> [] ->
  truthy_str (lead ++ Text.join " " fields) = true
  /\ Text.split_ws (lead ++ Text.join " " fields) = fields.
Proof.
  intros Hlead Hfields Hne. split.
  - apply truthy_str_true, append_nonempty_r.
    destruct fields as [| w fields]; [contradiction |].
    inversion Hfields; subst.
    apply join_word_nonempty. now apply is_word_spec.
  - unfold Text.split_ws. rewrite split_ws_from_lead by exact Hlead.
    now apply split_ws_join.
Qed.

(** X16.  A line made of a flags field, a name and further words, with
    white space in front and single spaces between, gives the row one
    expects from the code: for a codec the name, the third field
    without parentheses at its ends, the words from the fourth on
    joined by spaces, and the features of the flags; for a format the
    name, the words from the third field on, and the features. *)
Theorem rows_of_well_formed_lines
  (lead flags name kind word : string) (words : list string) :
  all_space lead = true ->
  Forall (fun w => is_word w = true) (flags :: name :: kind :: word :: words) ->
  codec_row (lead ++ Text.join " " (flags :: name :: kind :: word :: words))
  = Some [name; Text.strip_parens kind; Text.join " " (word :: words);
          features_str flags]
  /\ format_row (lead ++ Text.join " " (flags :: name :: kind :: word :: words))
     = Some [name; Text.join " " (kind :: word :: words); features_str flags]
  /\ format_row (lead ++ Text.join " " [flags; name])
     = Some [name; ""; features_str flags]
  /\ codec_row (lead ++ Text.join " " [flags; name; kind]) = None.
Proof.
  intros Hlead Hfields.
  assert (H3 : Forall (fun w => is_word w = true) [flags; name; kind]).
  { inversion Hfields as [| ? ? Hf H1]; subst.
    inversion H1 as [| ? ? Hn H2]; subst.
    inversion H2 as [| ? ? Hk _]; subst. repeat constructor; assumption. }
  assert (H2 : Forall (fun w => is_word w = true) [flags; name]).
  { inversion H3 as [| ? ? Hf H1]; subst.
    inversion H1 as [| ? ? Hn _]; subst. repeat constructor; assumption. }
  destruct (line_of_fields lead _ Hlead Hfields) as [Ht Hs]; [discriminate |].
  destruct (line_of_fields lead _ Hlead H3) as [Ht3 Hs3]; [discriminate |].
  destruct (line_of_fields lead _ Hlead H2) as [Ht2 Hs2]; [discriminate |].
  unfold codec_row, format_row.
  rewrite Ht, Hs, Ht3, Hs3, Ht2, Hs2. repeat split.
Qed.

Lemma rows_of_well_formed_lines_witness :
  all_space " " = true
  /\ Forall (fun w => is_word w = true)
       ["DEV.LS"; "h264"; "H.264"; "/"; "AVC"; "(decoders:"; "h264"; ")"]
  /\ codec_row " DEV.LS h264 H.264 / AVC (decoders: h264 )"
     = Some ["h264"; "H.264"; "/ AVC (decoders: h264 )"; ".D.E.V.S.L"]
  /\ format_row " DEV.LS h264 H.264 / AVC (decoders: h264 )"
     = Some ["h264"; "H.264 / AVC (decoders: h264 )"; ".D.E.V.S.L"].
Proof.
  assert (Hw : Forall (fun w => is_word w = true)
                 ["DEV.LS"; "h264"; "H.264"; "/"; "AVC"; "(decoders:"; "h264"; ")"])
    by (repeat constructor).
  split; [reflexivity |]. split; [exact Hw |].
  destruct (rows_of_well_formed_lines " " "DEV.LS" "h264" "H.264" "/"
              ["AVC"; "(decoders:"; "h264"; ")"] eq_refl Hw) as (H1 & H2 & _).
  split; [exact H1 | exact H2].
Defined.

Lemma rows_of_length (row : string -> option (list string)) (lines : list string) :
  (List.length (rows_of row lines) <= List.length lines)%nat.
Proof.
  induction lines as [| line lines IH]; cbn; [lia |].
  destruct (row line); cbn; lia.
Qed.

Lemma rows_of_cells (row : string -> option (list string)) (width : nat)
  (lines : list string) :
  (forall line cells, row line = Some cells -> List.length cells = width) ->
  Forall (fun cells => List.length cells = width) (rows_of row lines).
Proof.
  intros Hrow. induction lines as [| line lines IH]; cbn; [constructor |].
  destruct (row line) as [cells |] eqn:Hline; [| exact IH].
  constructor; [now apply (Hrow line) | exact IH].
Qed.

Lemma codec_row_cells (line : string) (cells : list string) :
  codec_row line = Some cells -> List.length cells = 4%nat.
Proof.
  unfold codec_row. destruct (truthy_str line); [| discriminate].
  destruct (4 <=? _)%nat; [| discriminate]. now intros [= <-].
Qed.

Lemma format_row_cells (line : string) (cells : list string) :
  format_row line = Some cells -> List.length cells = 3%nat.
Proof.
  unfold format_row. destruct (truthy_str line); [| discriminate].
  destruct (2 <=? _)%nat; [| discriminate]. now intros [= <-].
Qed.

Lemma encoder_rows_cells (upper : string -> string) (lines : list string) :
  Forall (fun cells => List.length cells = 2%nat) (encoder_rows upper lines).
Proof.
  induction lines as [| line lines IH]; cbn [encoder_rows]; [constructor |].
  destruct (truthy_str line && Text.contains ":" line); [| exact IH].
  destruct (Text.split_once ":" line) as [property value].
  repeat constructor. exact IH.
Qed.

(** X17.  Whatever the executable prints, every row of the table a
    query shows has exactly one cell per column title; and every query,
    whether the command ran well or not, runs exactly one command first
    and collects garbage last. *)
Theorem query_tables_are_well_formed (upper : string -> string)
  (w : query_world) (ffpe_path : string) (c : call) :
  let evs := body_of upper w ffpe_path c in
  Forall well_formed evs
  /\ (exists command, hd_error evs = Some (Ran command))
  /\ last evs ShowRule = Collected.
Proof.
  cbv zeta.
  assert (Hfail : forall e, well_formed (show_failure e)) by (now intros []).
  assert (Hcodecs : forall encoder,
             Forall well_formed (codecs_body upper w ffpe_path encoder)
             /\ (exists command,
                    hd_error (codecs_body upper w ffpe_path encoder)
                    = Some (Ran command))
             /\ last (codecs_body upper w ffpe_path encoder) ShowRule = Collected).
  { intros encoder. unfold codecs_body.
    destruct (match encoder with Some e => truthy_str e | None => false end);
      cbv zeta; destruct (run_command w _) as [output | e];
      (split; [| split; [eexists; reflexivity | reflexivity]]);
      repeat (apply Forall_cons;
              [first [exact I | apply Hfail | cbn; apply encoder_rows_cells
                     | cbn; apply rows_of_cells, codec_row_cells] |]);
      apply Forall_nil. }
  destruct c as [| encoder | encoder | |]; cbn [body_of]; try apply Hcodecs.
  - unfold formats_body. destruct (run_command w _) as [output | e];
      (split; [| split; [eexists; reflexivity | reflexivity]]);
      repeat (apply Forall_cons;
              [first [exact I | apply Hfail
                     | cbn; apply rows_of_cells, format_row_cells] |]);
      apply Forall_nil.
  - unfold hwaccels_body. destruct (run_command w _) as [output | e];
      (split; [| split; [eexists; reflexivity | reflexivity]]);
      repeat (apply Forall_cons;
              [first [exact I | apply Hfail
                     | cbn; apply Forall_map, Forall_forall; reflexivity] |]);
      apply Forall_nil.
Qed.

Lemma skipn_length_le {A : Type} (k : nat) (l : list A) :
  List.length (skipn k l) = (List.length l - k)%nat.
Proof. apply length_skipn. Qed.

(** X18.  The lines at the head of the output never give rows: the
    table of the codecs has at most as many rows as there are lines
    after the first 11, the table of the formats as there are after the
    first 5, the help of an encoder two rows for each line after the
    first at most; so an output of no more lines than that gives an
    empty table. *)
Theorem query_tables_skip_the_head (upper : string -> string)
  (ffpe_path output encoder : string) :
  encoder <> "" ->
  let w := answering output in
  (exists rows,
      table_rows (codecs_body upper w ffpe_path None) = Some rows
      /\ (List.length rows <= line_count output - 11)%nat)
  /\ (exists rows,
         table_rows (formats_body w ffpe_path) = Some rows
         /\ (List.length rows <= line_count output - 5)%nat)
  /\ (exists rows,
         table_rows (codecs_body upper w ffpe_path (Some encoder)) = Some rows
         /\ (List.length rows <= 2 * (line_count output - 1))%nat).
Proof.
  intros Hencoder. cbv zeta. unfold line_count.
  split; [| split].
  - eexists. split; [reflexivity |].
    rewrite <- length_skipn. apply rows_of_length.
  - eexists. split; [reflexivity |].
    rewrite <- length_skipn. apply rows_of_length.
  - unfold codecs_body. rewrite (truthy_str_true encoder Hencoder).
    eexists. split; [reflexivity |].
    rewrite <- length_skipn.
    generalize (skipn 1 (Str.split Str.newline output)). intros lines.
    induction lines as [| line lines IH]; cbn [encoder_rows List.length]; [lia |].
    destruct (truthy_str line && Text.contains ":" line); [| lia].
    destruct (Text.split_once ":" line). cbn [List.length]. lia.
Qed.

Lemma query_tables_skip_the_head_witness :
  let output := ("Codecs:" ++ line_break ++ " D..... = Decoding supported")%string in
  let w := answering output in
  "aac" <> ""
  /\ table_rows (codecs_body ascii_upper w "ffpe.exe" None) = Some []
  /\ (exists rows,
         table_rows (codecs_body ascii_upper w "ffpe.exe" None) = Some rows
         /\ (List.length rows <= line_count output - 11)%nat)
  /\ (exists rows,
         table_rows (formats_body w "ffpe.exe") = Some rows
         /\ (List.length rows <= line_count output - 5)%nat)
  /\ (exists rows,
         table_rows (codecs_body ascii_upper w "ffpe.exe" (Some "aac")) = Some rows
         /\ (List.length rows <= 2 * (line_count output - 1))%nat).
Proof.
  cbv zeta. split; [discriminate |]. split; [reflexivity |].
  apply (query_tables_skip_the_head ascii_upper "ffpe.exe"
           ("Codecs:" ++ line_break ++ " D..... = Decoding supported")%string "aac").
  discriminate.
Defined.

(** ** The queries: the help of an encoder *)

Lemma split_once_spec (line : string) :
  Text.contains ":" line = true ->
  line = (fst (Text.split_once ":" line) ++ ":"
          ++ snd (Text.split_once ":" line))%string
  /\ Text.contains ":" (fst (Text.split_once ":" line)) = false.
Proof.
  induction line as [| a line IH]; cbn; [discriminate |].
  destruct (Ascii.eqb_spec a ":") as [-> | Hne]; cbn; [now split |].
  intros H. destruct (IH H) as [Heq Hno].
  destruct (Text.split_once ":" line) as [before after]. cbn in *.
  split; [now f_equal |].
  destruct (Ascii.eqb_spec a ":"); [contradiction | exact Hno].
Qed.

(** X19.  In the help of an encoder every line with a colon gives a row
    of two cells followed by a blank row: the line is cut at its first
    colon (what follows may have colons), and when upper-casing keeps a
    text that is not empty from becoming empty no cell of such a row is
    empty, [NONE] standing for a blank part. *)
Theorem encoder_rows_come_in_pairs (upper : string -> string)
  (lines : list string) :
  (forall text, text <> "" -> upper text <> "") ->
  exists data,
    encoder_rows upper lines
    = flat_map (fun cells => [cells; [""; ""]]) data
    /\ Forall2
         (fun line cells =>
            exists property value,
              line = (property ++ ":" ++ value)%string
              /\ Text.contains ":" property = false
              /\ cells = [cell upper property; cell upper value]
              /\ cell upper property <> "" /\ cell upper value <> "")
         (filter (Text.contains ":") lines) data.
Proof.
  intros Hupper.
  assert (Hcell : forall x, cell upper x <> "").
  { intros x. unfold cell. destruct (truthy_str (Text.strip x)) eqn:Hx;
      [| discriminate].
    apply Hupper. intros Heq. now rewrite Heq in Hx. }
  induction lines as [| line lines (data & Hrows & Hdata)].
  - exists []. split; [reflexivity | constructor].
  - cbn [encoder_rows filter].
    destruct (Text.contains ":" line) eqn:Hcolon.
    + assert (Hne : truthy_str line = true) by (now destruct line).
      rewrite Hne. cbn [andb].
      destruct (split_once_spec line Hcolon) as [Heq Hno].
      destruct (Text.split_once ":" line) as [property value]. cbn [fst snd] in *.
      exists ([cell upper property; cell upper value] :: data).
      split; [cbn; now rewrite Hrows |].
      constructor; [| exact Hdata].
      exists property, value. repeat split; auto.
    + rewrite andb_false_r. now exists data.
Qed.

Lemma ascii_upper_nonempty (text : string) : text <> "" -> ascii_upper text <> "".
Proof. destruct text; [contradiction | discriminate]. Qed.

Lemma encoder_rows_come_in_pairs_witness :
  (forall text, text <> "" -> ascii_upper text <> "")
  /\ encoder_rows ascii_upper ["  Threading capabilities: none"; "no colon"; " : "]
     = [["THREADING CAPABILITIES"; "NONE"]; [""; ""]; ["NONE"; "NONE"]; [""; ""]]
  /\ exists data,
      encoder_rows ascii_upper ["  Threading capabilities: none"; "no colon"; " : "]
      = flat_map (fun cells => [cells; [""; ""]]) data
      /\ Forall2
           (fun line cells =>
              exists property value,
                line = (property ++ ":" ++ value)%string
                /\ Text.contains ":" property = false
                /\ cells = [cell ascii_upper property; cell ascii_upper value]
                /\ cell ascii_upper property <> "" /\ cell ascii_upper value <> "")
           (filter (Text.contains ":")
              ["  Threading capabilities: none"; "no colon"; " : "]) data.
Proof.
  split; [exact ascii_upper_nonempty |]. split; [reflexivity |].
  apply (encoder_rows_come_in_pairs ascii_upper
           ["  Threading capabilities: none"; "no colon"; " : "]
           ascii_upper_nonempty).
Defined.

(** ** The queries: the acceleration methods *)

Lemma split_from_piece (sep : ascii) (x : string) :
  lacks sep x = true ->
  forall cur,
    Str.split_from sep cur x = [(cur ++ x)%string]
    /\ forall tail,
        Str.split_from sep cur (x ++ String sep tail)
        = (cur ++ x)%string :: Str.split_from sep "" tail.
Proof.
  induction x as [| c x IH]; intros Hx cur.
  - cbn. rewrite append_nil_r, Ascii.eqb_refl. now split.
  - cbn [lacks] in Hx. apply andb_prop in Hx as [Hc Hx].
    apply negb_true_iff in Hc.
    cbn [append Str.split_from]. rewrite Hc.
    destruct (IH Hx (cur ++ String c "")%string) as [H1 H2].
    rewrite append_assoc in H1. cbn [append] in H1.
    split; [exact H1 |].
    intros tail. rewrite H2, append_assoc. reflexivity.
Qed.

(** Lines joined by line breaks are found again by the split. *)
Lemma split_join_lines (first : string) (others : list string) :
  Forall (fun line => lacks Str.newline line = true) (first :: others) ->
  Str.split Str.newline (Text.join line_break (first :: others))
  = first :: others.
Proof.
  unfold Str.split. revert first.
  induction others as [| second others IH]; intros first Hlines;
    inversion Hlines as [| ? ? Hfirst Hothers]; subst.
  - cbn [Text.join]. now apply (split_from_piece Str.newline first Hfirst "").
  - change (Text.join line_break (first :: second :: others))
      with (first ++ String Str.newline (Text.join line_break (second :: others)))%string.
    rewrite (proj2 (split_from_piece Str.newline first Hfirst "")).
    cbn [append]. now rewrite IH.
Qed.

Lemma rstrip_if_dropped (trail : string) :
  all_space trail = true -> Text.rstrip_if Text.is_space trail = "".
Proof.
  induction trail as [| a trail IH]; cbn; [reflexivity |].
  intros H. apply andb_prop in H as [Ha Htrail].
  now rewrite IH, Ha.
Qed.

Lemma rstrip_if_app (text trail : string) :
  all_space trail = true ->
  Text.rstrip_if Text.is_space (text ++ trail) = Text.rstrip_if Text.is_space text.
Proof.
  intros Htrail. induction text as [| a text IH]; cbn [append Text.rstrip_if].
  - now apply rstrip_if_dropped.
  - now rewrite IH.
Qed.

Lemma lstrip_if_dropped (trail : string) :
  all_space trail = true -> Text.lstrip_if Text.is_space trail = "".
Proof.
  induction trail as [| a trail IH]; cbn; [reflexivity |].
  intros H. apply andb_prop in H as [Ha Htrail]. now rewrite Ha, IH.
Qed.

(** White space at the end of a text does not change what [strip] gives. *)
Lemma strip_app (text trail : string) :
  all_space trail = true -> Text.strip (text ++ trail) = Text.strip text.
Proof.
  intros Htrail. unfold Text.strip, Text.strip_if.
  induction text as [| a text IH]; cbn [append Text.lstrip_if].
  - now rewrite lstrip_if_dropped.
  - destruct (Text.is_space a); [exact IH |].
    now apply (rstrip_if_app (String a text)).
Qed.

(** X20.  When the executable prints a first line and then one method
    per line, with white space after the last one at most, the table of
    [hwaccels] has exactly the methods, in order, one per row: the first
    line is left out.  An output of white space only gives an empty
    table. *)
Theorem hwaccels_rows_are_the_methods (ffpe_path first : string)
  (methods : list string) (trail blank : string) :
  Forall (fun line => lacks Str.newline line = true) (first :: methods) ->
  Text.strip (Text.join line_break (first :: methods))
  = Text.join line_break (first :: methods) ->
  all_space trail = true ->
  all_space blank = true ->
  hwaccels_body (answering (Text.join line_break (first :: methods) ++ trail))
    ffpe_path
  = [Ran [ffpe_path; "-hwaccels"];
     ShowTable ["HARDWARE ACCELERATION METHODS"]
       (map (fun method => [method]) methods);
     Collected]
  /\ hwaccels_body (answering blank) ffpe_path
     = [Ran [ffpe_path; "-hwaccels"];
        ShowTable ["HARDWARE ACCELERATION METHODS"] [];
        Collected].
Proof.
  intros Hlines Hstrip Htrail Hblank. unfold hwaccels_body. cbn [run_command answering].
  split.
  - rewrite strip_app by exact Htrail. rewrite Hstrip.
    now rewrite split_join_lines.
  - assert (Hb : Text.strip blank = "") by (apply (strip_app "" blank Hblank)).
    now rewrite Hb.
Qed.

Lemma hwaccels_rows_are_the_methods_witness :
  let text := Text.join line_break ["Hardware acceleration methods:"; "cuda"; "dxva2"] in
  Forall (fun line => lacks Str.newline line = true)
    ["Hardware acceleration methods:"; "cuda"; "dxva2"]
  /\ Text.strip text = text
  /\ all_space (line_break ++ line_break) = true
  /\ hwaccels_body (answering (text ++ (line_break ++ line_break))) "ffpe.exe"
     = [Ran ["ffpe.exe"; "-hwaccels"];
        ShowTable ["HARDWARE ACCELERATION METHODS"] [["cuda"]; ["dxva2"]];
        Collected]
  /\ hwaccels_body (answering (line_break ++ line_break)) "ffpe.exe"
     = [Ran ["ffpe.exe"; "-hwaccels"];
        ShowTable ["HARDWARE ACCELERATION METHODS"] [];
        Collected].
Proof.
  cbv zeta.
  assert (H : Forall (fun line => lacks Str.newline line = true)
                ["Hardware acceleration methods:"; "cuda"; "dxva2"])
    by (repeat constructor).
  split; [exact H |]. split; [reflexivity |]. split; [reflexivity |].
  apply (hwaccels_rows_are_the_methods "ffpe.exe"
           "Hardware acceleration methods:" ["cuda"; "dxva2"]
           (line_break ++ line_break) (line_break ++ line_break) H);
    reflexivity.
Defined.

(** ** The command line: the resolution and the output path *)

Lemma replace_spec (old new : ascii) (text : string) :
  old <> new ->
  lacks old (Str.replace old new text) = true
  /\ String.length (Str.replace old new text) = String.length text
  /\ (lacks old text = true -> Str.replace old new text = text)
  /\ Str.replace old new (Str.replace old new text) = Str.replace old new text.
Proof.
  intros Hne. induction text as [| c text (H1 & H2 & H3 & H4)]; cbn;
    [repeat split |].
  destruct (Ascii.eqb_spec c old) as [-> | Hc].
  - destruct (Ascii.eqb_spec new old) as [Heq | _]; [now destruct Hne |].
    cbn. rewrite H1, H2, H4. repeat split. discriminate.
  - destruct (Ascii.eqb_spec c old) as [Heq | _]; [contradiction |].
    cbn. rewrite H1, H2, H4. repeat split.
    intros Hl. now rewrite H3.
Qed.

(** X21.  When a resolution is passed, the value that follows [-s] in
    the command has no multiplication sign left; it is the text that
    was passed with every such sign turned into [x] and nothing else
    changed (same length, a text without the sign is passed as it is). *)
Theorem resolution_has_no_multiplication_sign
  (ffpe_path inp out : string) (o : options) (resolution : string) :
  s o = Some resolution ->
  resolution <> "" ->
  let value := Str.replace times_sign "x" resolution in
  (exists before after,
      build_command ffpe_path inp out o = before ++ ["-s"; value] ++ after)
  /\ lacks times_sign value = true
  /\ String.length value = String.length resolution
  /\ (lacks times_sign resolution = true -> value = resolution).
Proof.
  intros Hs Hne. cbv zeta.
  destruct (replace_spec times_sign "x" resolution) as (H1 & H2 & H3 & _);
    [discriminate |].
  split; [| repeat split; assumption].
  rewrite build_command_shape. unfold option_pairs.
  rewrite Hs. cbn [present_str]. rewrite (truthy_str_true resolution Hne).
  cbn [option_map flag_pair].
  eexists ([ffpe_path; "-hide_banner"]
           ++ flag_pair "-hwaccel" (present_str (hwaccel o))
           ++ ["-i"; inp]
           ++ flag_pair "-c:v" (present_str (cv o))
           ++ flag_pair "-c:a" (present_str (ca o))), _.
  rewrite <- !app_assoc. reflexivity.
Qed.

Lemma resolution_has_no_multiplication_sign_witness :
  let value := Str.replace times_sign "x" ("1920" ++ String times_sign "1080") in
  s docstring_options = Some ("1920" ++ String times_sign "1080")%string
  /\ ("1920" ++ String times_sign "1080")%string <> ""
  /\ value = "1920x1080"
  /\ (exists before after,
         build_command "ffpe.exe" "a.avi" "out/a.mp4" docstring_options
         = before ++ ["-s"; value] ++ after)
  /\ lacks times_sign value = true
  /\ String.length value = String.length ("1920" ++ String times_sign "1080")
  /\ (lacks times_sign ("1920" ++ String times_sign "1080") = true ->
      value = ("1920" ++ String times_sign "1080")%string).
Proof.
  cbv zeta. split; [reflexivity |]. split; [discriminate |]. split; [reflexivity |].
  apply (resolution_has_no_multiplication_sign "ffpe.exe" "a.avi" "out/a.mp4"
           docstring_options ("1920" ++ String times_sign "1080")%string);
    [reflexivity | discriminate].
Defined.

(** X22.  The output path is guarded like an option: with the empty
    text as output path the command ends with the last option, without
    [-y] and without a path, and with any other output path the command
    is that one followed by [-y] and the path.  The options themselves
    do not depend on the output path. *)
Theorem empty_output_path_is_left_out
  (ffpe_path inp : string) (o : options) :
  build_command ffpe_path inp "" o
  = [ffpe_path; "-hide_banner"]
    ++ flag_pair "-hwaccel" (present_str (hwaccel o))
    ++ ["-i"; inp] ++ option_pairs o
  /\ forall out,
      out <> "" ->
      build_command ffpe_path inp out o
      = build_command ffpe_path inp "" o ++ ["-y"; out].
Proof.
  split.
  - rewrite build_command_shape. cbn [truthy_str String.eqb negb].
    now rewrite !app_nil_r.
  - intros out Hout. rewrite !build_command_shape.
    rewrite (truthy_str_true out Hout). cbn [truthy_str String.eqb negb].
    now rewrite !app_nil_r, <- !app_assoc.
Qed.

(** ** The logger *)

Lemma written_length (st : logging) (acts : list action) :
  List.length (written st acts)
  = (handlers st * List.length (errors acts))%nat.
Proof.
  induction acts as [| a acts IH]; cbn; [lia |].
  destruct a; cbn; rewrite ?length_app, ?repeat_length, ?IH; lia.
Qed.

(** X23.  Every instance that is made attaches one more handler to the
    one logger of the process: after [k] instances each error message
    of [convert] is written [k] times. *)
Theorem each_instance_adds_a_handler {os : OsPath} (k : nat)
  (exists_ : string -> bool) (input_files : py_files)
  (output_dir : option string) (o : options) :
  let st := Nat.iter k __init__ fresh_logging in
  let acts := convert exists_ input_files output_dir o in
  handlers st = k
  /\ List.length (written st acts) = (k * List.length (errors acts))%nat
  /\ forall msg, acts = [LogError msg] -> written st acts = repeat msg k.
Proof.
  cbv zeta.
  assert (Hk : handlers (Nat.iter k __init__ fresh_logging) = k).
  { induction k as [| k IH]; [reflexivity |].
    change (S (handlers (Nat.iter k __init__ fresh_logging)) = S k).
    now f_equal. }
  split; [exact Hk |]. split.
  - now rewrite written_length, Hk.
  - intros msg ->. cbn [written]. now rewrite Hk, app_nil_r.
Qed.

(** ** The worker: why a launched job fails *)





(** ** The worker: an output without progress lines *)

(** X26.  When no line of the output has the mark [time=] in it and the
    reading ends without an error, the worker closes the bar untouched
    and reports the job as completed, whatever the duration the probe
    gave (zero included) and whatever the exit status. *)
Theorem output_without_mark_completes {os : OsPath} (w : world)
  (ffpe_path inp out : string) (o : options) (progress_bar : Tqdm.bar)
  (duration : Q) (proc : process) :
  get_duration w inp = Ok duration ->
  popen w (build_command ffpe_path inp out o) = Ok proc ->
  stdout_error proc = None ->
  Forall (fun line => forall pre post, line <> (pre ++ "time=" ++ post)%string)
    (stdout proc) ->
  convert_single w ffpe_path inp out o progress_bar
  = ([EvProbe inp; EvPopen (build_command ffpe_path inp out o); EvClose;
      EvCompleted (os_path_basename inp); EvSleep; EvCollect],
     Tqdm.close progress_bar).
Proof.
  intros Hprobe Hpopen Herr Hlines.
  assert (Hquiet : Forall (fun line => parse_line line = NoMatch) (stdout proc)).
  { eapply Forall_impl; [| exact Hlines]. cbn. intros line.
    apply parse_line_without_mark. }
  unfold convert_single, try_body. rewrite Hprobe, Hpopen, Herr.
  rewrite <- (app_nil_r (stdout proc)).
  rewrite read_progress_quiet by exact Hquiet. reflexivity.
Qed.

Lemma output_without_mark_completes_witness :
  let w := world_of 0 rejected_process in
  let command := build_command "ffpe.exe" "a.avi" "out/a.mp4" no_options in
  get_duration w "a.avi" = Ok 0%Q
  /\ popen w command = Ok rejected_process
  /\ stdout_error rejected_process = None
  /\ Forall (fun line => forall pre post, line <> (pre ++ "time=" ++ post)%string)
       (stdout rejected_process)
  /\ convert_single w "ffpe.exe" "a.avi" "out/a.mp4" no_options Tqdm.create
     = ([EvProbe "a.avi"; EvPopen command; EvClose; EvCompleted "a.avi";
         EvSleep; EvCollect], Tqdm.close Tqdm.create).
Proof.
  cbv zeta.
  assert (H : Forall (fun line => forall pre post,
                          line <> (pre ++ "time=" ++ post)%string)
                (stdout rejected_process)).
  { constructor; [| constructor]. intros pre post Heq.
    assert (Hs : Re.search "Unknown encoder 'h265x'" = None) by reflexivity.
    rewrite Heq in Hs.
    assert (Hc : lacks "=" ("Unknown encoder 'h265x'") = true) by reflexivity.
    rewrite Heq in Hc. clear Heq Hs.
    induction pre as [| c pre IH]; cbn in Hc.
    - discriminate.
    - apply andb_prop in Hc as [_ Hc]. auto. }
  split; [reflexivity |]. split; [reflexivity |]. split; [reflexivity |].
  split; [exact H |].
  rewrite (output_without_mark_completes (world_of 0 rejected_process) "ffpe.exe"
             "a.avi" "out/a.mp4" no_options Tqdm.create 0 rejected_process);
    [reflexivity | reflexivity | reflexivity | reflexivity | exact H].
Defined.

(** * The binary64 arithmetic of the loop *)

(** ** Rounding *)

Lemma b64_pow2_pos (e : Z) : (0 < B64.pow2 e)%Q.
Proof. unfold B64.pow2. now apply Qpower_0_lt. Qed.

Lemma b64_pow2_nat (k : Z) : (0 <= k)%Z -> (B64.pow2 k == inject_Z (2 ^ k))%Q.
Proof. intros Hk. unfold B64.pow2. now rewrite Zpower_Qpower. Qed.

Lemma b64_pow2_le (a b : Z) : (a <= b)%Z -> (B64.pow2 a <= B64.pow2 b)%Q.
Proof. intros H. unfold B64.pow2. apply Qpower_le_compat_l; [exact H | discriminate]. Qed.

(** [2 ^ ilog2 a <= a]. *)
Lemma b64_ilog2_lower (a : Q) : (0 < a)%Q -> (B64.pow2 (B64.ilog2 a) <= a)%Q.
Proof.
  intros Ha. unfold B64.ilog2.
  set (lp := Z.log2 (Qnum a)). set (lq := Z.log2 (Z.pos (Qden a))).
  destruct (Qle_bool (B64.pow2 (lp - lq)) a) eqn:Hle; [now apply Qle_bool_iff |].
  assert (Hp : (0 < Qnum a)%Z).
  { destruct a as [p q]. unfold Qlt in Ha. cbn in *. lia. }
  assert (Hlp : (0 <= lp)%Z) by apply Z.log2_nonneg.
  assert (Hlq : (0 <= lq)%Z) by apply Z.log2_nonneg.
  destruct (Z.log2_spec (Qnum a) Hp) as [Hp1 _].
  destruct (Z.log2_spec (Z.pos (Qden a)) eq_refl) as [_ Hq2].
  fold lp in Hp1. fold lq in Hq2.
  replace (lp - lq - 1)%Z with (lp - (lq + 1))%Z by lia.
  unfold B64.pow2. rewrite Qpower_minus by discriminate.
  change (B64.pow2 lp / B64.pow2 (lq + 1) <= a)%Q.
  rewrite (b64_pow2_nat lp), (b64_pow2_nat (lq + 1)) by lia.
  assert (H2 : (0 < 2 ^ (lq + 1))%Z) by (apply Z.pow_pos_nonneg; lia).
  apply Qle_shift_div_r.
  - change 0%Q with (inject_Z 0). now rewrite <- Zlt_Qlt.
  - destruct a as [p q]. unfold Qle. cbn in *.
    replace (Z.succ lq) with (lq + 1)%Z in Hq2 by lia.
    assert (H0 : (0 <= 2 ^ lp)%Z) by (apply Z.pow_nonneg; lia).
    nia.
Qed.

(** Rounding to the nearest integer does not cross an integer. *)
Lemma b64_rne_ge (x : Q) (N : Z) : (inject_Z N <= x)%Q -> (N <= B64.rne x)%Z.
Proof.
  intros H. pose proof (Qfloor_resp_le _ _ H) as Hf. rewrite Qfloor_Z in Hf.
  unfold B64.rne.
  destruct (x - inject_Z (Qfloor x) ?= 1 # 2)%Q; [destruct (Z.even (Qfloor x)) | |]; lia.
Qed.

Lemma b64_rne_le (x : Q) (N : Z) : (x <= inject_Z N)%Q -> (B64.rne x <= N)%Z.
Proof.
  intros H. pose proof (Qfloor_resp_le _ _ H) as Hf. rewrite Qfloor_Z in Hf.
  assert (Hstep : (1 # 2 <= x - inject_Z (Qfloor x))%Q -> (Qfloor x + 1 <= N)%Z).
  { intros Hhalf.
    assert (Hlt : (inject_Z (Qfloor x) < inject_Z N)%Q).
    { apply Qlt_le_trans with x; [| exact H].
      apply Qlt_minus_iff. apply Qlt_le_trans with (1 # 2)%Q; [reflexivity |].
      exact Hhalf. }
    rewrite <- Zlt_Qlt in Hlt. lia. }
  unfold B64.rne.
  destruct (x - inject_Z (Qfloor x) ?= 1 # 2)%Q eqn:Hc.
  - destruct (Z.even (Qfloor x)); [lia |].
    apply Hstep. apply Qeq_alt in Hc. rewrite Hc. apply Qle_refl.
  - lia.
  - apply Hstep. apply Qgt_alt in Hc. now apply Qlt_le_weak.
Qed.

Lemma b64_ulp_pos (a : Q) : (0 < B64.ulp a)%Q.
Proof. apply b64_pow2_pos. Qed.

Lemma b64_round_abs_nonneg (a : Q) : (0 <= a)%Q -> (0 <= B64.round_abs a)%Q.
Proof.
  intros Ha. unfold B64.round_abs. rewrite Qred_correct.
  apply Qmult_le_0_compat; [| apply Qlt_le_weak, b64_ulp_pos].
  change 0%Q with (inject_Z 0). rewrite <- Zle_Qle. apply b64_rne_ge.
  apply Qle_shift_div_l; [apply b64_ulp_pos |].
  now rewrite Qmult_0_l.
Qed.

(** Rounding does not cross a whole number that binary64 holds exactly. *)
Lemma b64_round_abs_le (a : Q) (M : Z) :
  (0 < a)%Q -> (a <= inject_Z M)%Q -> (M < 2 ^ 53)%Z ->
  (B64.round_abs a <= inject_Z M)%Q.
Proof.
  intros Ha HM Hsmall.
  set (e := Z.max (B64.ilog2 a) B64.emin).
  assert (He : (e <= 52)%Z).
  { assert (Hlog : (B64.ilog2 a < 53)%Z).
    { apply (Qpower_lt_compat_l_inv 2); [| reflexivity].
      change (B64.pow2 (B64.ilog2 a) < B64.pow2 53)%Q.
      apply Qle_lt_trans with a; [now apply b64_ilog2_lower |].
      apply Qle_lt_trans with (inject_Z M); [exact HM |].
      rewrite (b64_pow2_nat 53) by lia. now rewrite <- Zlt_Qlt. }
    unfold e, B64.emin. lia. }
  set (k := (52 - e)%Z).
  assert (Hulp : (B64.ulp a == / inject_Z (2 ^ k))%Q).
  { unfold B64.ulp, B64.prec. fold e.
    replace (e - (53 - 1))%Z with (- k)%Z by (unfold k; lia).
    unfold B64.pow2. rewrite Qpower_opp.
    change (/ B64.pow2 k == / inject_Z (2 ^ k))%Q.
    rewrite b64_pow2_nat by (unfold k; lia). reflexivity. }
  assert (Hk : (0 < 2 ^ k)%Z) by (apply Z.pow_pos_nonneg; unfold k; lia).
  assert (HkQ : (0 < inject_Z (2 ^ k))%Q).
  { change 0%Q with (inject_Z 0). now rewrite <- Zlt_Qlt. }
  assert (Hn : (B64.rne (a / B64.ulp a) <= M * 2 ^ k)%Z).
  { apply b64_rne_le. rewrite Hulp. unfold Qdiv. rewrite Qinv_involutive.
    rewrite inject_Z_mult. apply Qmult_le_compat_r; [exact HM |].
    now apply Qlt_le_weak. }
  unfold B64.round_abs. rewrite Qred_correct.
  set (n := B64.rne (a / B64.ulp a)) in *. rewrite Hulp.
  apply Qle_shift_div_r; [exact HkQ |].
  rewrite <- inject_Z_mult. now rewrite <- Zle_Qle.
Qed.

Lemma b64_round_nonneg (x : Q) : (0 <= x)%Q -> B64.nonneg (B64.round x).
Proof.
  intros Hx. unfold B64.round.
  destruct (x ?= 0)%Q eqn:Hc.
  - cbn. apply Qle_refl.
  - apply Qlt_alt in Hc. exfalso. apply (Qlt_irrefl x).
    now apply Qlt_le_trans with 0%Q.
  - cbv zeta. destruct (Qle_bool (B64.pow2 B64.emax) (B64.round_abs x)); cbn;
      [exact I | now apply b64_round_abs_nonneg].
Qed.

Lemma b64_round_at_most (x : Q) (M : Z) :
  (0 <= M < 2 ^ 53)%Z -> (x <= inject_Z M)%Q -> B64.at_most M (B64.round x).
Proof.
  intros [HM0 HM] Hx. unfold B64.round.
  assert (HM0Q : (0 <= inject_Z M)%Q).
  { change 0%Q with (inject_Z 0). now rewrite <- Zle_Qle. }
  destruct (x ?= 0)%Q eqn:Hc; cbv zeta.
  - cbn. exact HM0Q.
  - apply Qlt_alt in Hc.
    destruct (Qle_bool (B64.pow2 B64.emax) (B64.round_abs (- x))); cbn; [exact I |].
    apply Qle_trans with 0%Q; [| exact HM0Q].
    apply (Qopp_le_compat 0). apply b64_round_abs_nonneg.
    apply (Qopp_le_compat x 0). now apply Qlt_le_weak.
  - apply Qgt_alt in Hc.
    pose proof (b64_round_abs_le x M Hc Hx HM) as Hr.
    destruct (Qle_bool (B64.pow2 B64.emax) (B64.round_abs x)) eqn:Hover; cbn;
      [| exact Hr].
    apply Qle_bool_iff in Hover. exfalso.
    apply (Qlt_irrefl (inject_Z M)).
    apply Qlt_le_trans with (B64.pow2 53).
    + rewrite (b64_pow2_nat 53) by lia. now rewrite <- Zlt_Qlt.
    + apply Qle_trans with (B64.round_abs x); [| exact Hr].
      apply Qle_trans with (B64.pow2 B64.emax); [| exact Hover].
      apply b64_pow2_le. unfold B64.emax. lia.
Qed.

(** ** Values of the arithmetic

    Known values of binary64: the number nearest to 3.04; the sum
    [0.1 + 0.2], which is not the number nearest to 0.3; a text beyond
    the range, which is an infinity, and one below it, which is zero. *)
Example binary64_values :
  B64.float "03.04" = Ok (B64.Finite (3422735716801577 # 1125899906842624))
  /\ B64.add (B64.round (1 # 10)) (B64.round (2 # 10))
     = B64.Finite (1351079888211149 # 4503599627370496)
  /\ B64.round (3 # 10) = B64.Finite (5404319552844595 # 18014398509481984)
  /\ B64.float "1e999" = Ok B64.PosInf
  /\ B64.round (1 / inject_Z (10 ^ 331)) = B64.Finite 0
  /\ B64.round (inject_Z (2 ^ 53 + 1)) = B64.Finite (inject_Z (2 ^ 53))
  /\ B64.round (inject_Z (2 ^ 53 + 3)) = B64.Finite (inject_Z (2 ^ 53 + 4)).
Proof. repeat split; vm_compute; reflexivity. Qed.

(** Of the whole seconds 0 to 100 of a 100-second input, those whose
    percent is not the number of seconds are 7, 14, 28, 55 and 56: the
    percent is one more. *)
Example binary64_whole_seconds :
  filter (fun e => match B64.progress_percentage (B64.Finite (inject_Z e))
                           (B64.Finite 100) with
                   | Ok percent => negb (percent =? e)%Z
                   | Raise _ => true
                   end)
    (map Z.of_nat (seq 0 101))
  = [7; 14; 28; 55; 56]%Z
  /\ map (fun e => B64.progress_percentage (B64.Finite (inject_Z e)) (B64.Finite 100))
       [7; 14; 28; 55; 56]%Z
     = [Ok 8; Ok 15; Ok 29; Ok 56; Ok 57]%Z.
Proof. split; vm_compute; reflexivity. Qed.

(** ** The percent *)

(** [min(quotient, 1.0)] is a number that is at most one, or it is a
    quotient that is minus infinity or NaN. *)
Lemma b64_min_one (x : B64.t) :
  match B64.min x (B64.Finite 1) with
  | B64.Finite q => (q <= 1)%Q /\ (B64.nonneg x -> (0 <= q)%Q)
  | B64.PosInf => False
  | B64.NegInf => x = B64.NegInf
  | B64.NaN => x = B64.NaN
  end.
Proof.
  unfold B64.min. destruct x as [r | | |]; cbn [B64.ltb]; try reflexivity.
  - destruct (Qle_bool r 1) eqn:Hr; cbn [negb].
    + apply Qle_bool_iff in Hr. split; [exact Hr | now cbn].
    + split; [apply Qle_refl | discriminate].
  - split; [apply Qle_refl | discriminate].
Qed.

(** [int(np.ceil(x))] for a number. *)
Lemma b64_int_ceil (r : Q) :
  B64.int (B64.ceil (B64.Finite r)) = Ok (Qceiling r).
Proof.
  cbn [B64.ceil B64.int]. rewrite Qfloor_Z, Qceiling_Z. now destruct (Qle_bool 0 _).
Qed.

(** The product [progress * 100] of a progress that is at most one. *)
Lemma b64_times_100 (q : Q) :
  (q <= 1)%Q ->
  B64.at_most 100 (B64.mul (B64.Finite q) (B64.Finite 100))
  /\ ((0 <= q)%Q -> B64.nonneg (B64.mul (B64.Finite q) (B64.Finite 100))).
Proof.
  intros Hq. cbn [B64.mul]. split.
  - apply b64_round_at_most; [split; [lia | reflexivity] |].
    change (inject_Z 100) with (1 * 100)%Q.
    apply Qmult_le_compat_r; [exact Hq | discriminate].
  - intros H0. apply b64_round_nonneg.
    apply Qmult_le_0_compat; [exact H0 | discriminate].
Qed.

(** For an elapsed time that is not negative and a positive duration the
    percent is computed, and it lies between 0 and 100. *)
Lemma b64_percent_computed (elapsed : B64.t) (duration : Q) :
  B64.nonneg elapsed -> (0 < duration)%Q ->
  exists percent,
    B64.progress_percentage elapsed (B64.Finite duration) = Ok percent
    /\ (0 <= percent <= 100)%Z.
Proof.
  intros He Hd. unfold B64.progress_percentage, B64.progress, B64.div.
  assert (Hnz : Qeq_bool duration 0 = false).
  { destruct (Qeq_bool duration 0) eqn:Hz; [| reflexivity].
    apply Qeq_bool_iff in Hz. rewrite Hz in Hd. discriminate. }
  cbn [B64.is_zero]. rewrite Hnz. cbn [bind].
  set (x := match elapsed with B64.Finite _ => _ | _ => _ end).
  assert (Hx : B64.nonneg x).
  { unfold x. destruct elapsed as [e | | |]; cbn in He; try contradiction.
    - apply b64_round_nonneg. apply Qle_shift_div_l; [exact Hd |].
      now rewrite Qmult_0_l.
    - unfold B64.scale_inf. apply Qgt_alt in Hd. now rewrite Hd. }
  pose proof (b64_min_one x) as Hmin.
  destruct (B64.min x (B64.Finite 1)) as [q | | |];
    [| contradiction | subst x; rewrite Hmin in Hx; contradiction
     | subst x; rewrite Hmin in Hx; contradiction].
  destruct Hmin as [Hq H0]. specialize (H0 Hx).
  destruct (b64_times_100 q Hq) as [Hup Hlow]. specialize (Hlow H0).
  destruct (B64.mul (B64.Finite q) (B64.Finite 100)) as [r | | |];
    try contradiction.
  rewrite b64_int_ceil. eexists. split; [reflexivity |].
  cbn in Hup, Hlow. split.
  - change 0%Z with (Qceiling (inject_Z 0)). now apply Qceiling_resp_le.
  - change 100%Z with (Qceiling (inject_Z 100)). now apply Qceiling_resp_le.
Qed.

(** ** The elapsed time of a line *)

Lemma b64_float_nonneg (field : string) (x : B64.t) :
  B64.float field = Ok x -> B64.nonneg x.
Proof.
  unfold B64.float. destruct (float_field field) as [q |] eqn:Hq; [| discriminate].
  cbn [bind]. intros [= <-]. apply b64_round_nonneg.
  now apply (float_field_nonneg field).
Qed.

Lemma b64_mul_nonneg (x : B64.t) (c : Q) :
  B64.nonneg x -> (0 < c)%Q -> B64.nonneg (B64.mul x (B64.Finite c)).
Proof.
  intros Hx Hc. destruct x as [a | | |]; cbn in Hx; try contradiction.
  - cbn [B64.mul]. apply b64_round_nonneg.
    apply Qmult_le_0_compat; [exact Hx | now apply Qlt_le_weak].
  - cbn [B64.mul]. unfold B64.scale_inf. apply Qgt_alt in Hc. now rewrite Hc.
Qed.

Lemma b64_add_nonneg (x y : B64.t) :
  B64.nonneg x -> B64.nonneg y -> B64.nonneg (B64.add x y).
Proof.
  intros Hx Hy.
  destruct x as [a | | |], y as [b | | |]; cbn in Hx, Hy; try contradiction;
    cbn [B64.add]; try exact I.
  apply b64_round_nonneg.
  rewrite <- (Qplus_0_l 0). now apply Qplus_le_compat.
Qed.

Lemma b64_parse_line_nonneg (line : string) (elapsed : B64.t) :
  B64.parse_line line = B64.Elapsed elapsed -> B64.nonneg elapsed.
Proof.
  unfold B64.parse_line. destruct (Re.search line) as [time_str |]; [| discriminate].
  unfold B64.unpack_hms.
  destruct (Str.split ":" time_str) as [| fh [| fm [| fs [| x fields]]]];
    try discriminate.
  destruct (B64.float fh) as [h |] eqn:Hh; [| discriminate].
  destruct (B64.float fm) as [m |] eqn:Hm; [| discriminate].
  destruct (B64.float fs) as [sec |] eqn:Hs; [| discriminate].
  cbn [bind]. intros [= <-]. unfold B64.elapsed_time.
  apply b64_add_nonneg; [apply b64_add_nonneg |].
  - apply b64_mul_nonneg; [now apply (b64_float_nonneg fh) | reflexivity].
  - apply b64_mul_nonneg; [now apply (b64_float_nonneg fm) | reflexivity].
  - now apply (b64_float_nonneg fs).
Qed.

(** ** The percent of a line *)

(** C6.  For a line that carries an elapsed time and a positive duration
    the worker computes [int(ceil(min(elapsed / duration, 1.0) * 100))]
    in binary64 without raising; the percent lies between 0 and 100
    however large the elapsed time is, and it is the value the bar is
    moved to. *)
Theorem binary64_percent_at_most_100
  (line : string) (elapsed : B64.t) (duration : Q) (progress_bar : Tqdm.bar) :
  (0 < duration)%Q ->
  B64.parse_line line = B64.Elapsed elapsed ->
  exists percent,
    B64.progress_percentage elapsed (B64.Finite duration) = Ok percent
    /\ (0 <= percent <= 100)%Z
    /\ exists bar',
        B64.read_progress (B64.Finite duration) [line] progress_bar
        = ([EvUpdate (percent - Tqdm.n progress_bar)], bar', Ok tt)
        /\ Tqdm.n bar' = percent.
Proof.
  intros Hd Hline.
  destruct (b64_percent_computed elapsed duration
              (b64_parse_line_nonneg line elapsed Hline) Hd)
    as (percent & Hpercent & Hrange).
  exists percent. split; [exact Hpercent |]. split; [exact Hrange |].
  eexists. split.
  - cbn [B64.read_progress]. rewrite Hline, Hpercent. reflexivity.
  - cbn. lia.
Qed.

(** Elapsed 150 seconds of a 100-second input: the percent is 100. *)
Lemma binary64_percent_at_most_100_witness :
  let line := "size=1024kB time=00:02:30.00 bitrate=1k" in
  (0 < 100)%Q
  /\ B64.parse_line line = B64.Elapsed (B64.Finite 150)
  /\ B64.progress_percentage (B64.Finite 150) (B64.Finite 100) = Ok 100%Z
  /\ exists percent,
      B64.progress_percentage (B64.Finite 150) (B64.Finite 100) = Ok percent
      /\ (0 <= percent <= 100)%Z
      /\ exists bar',
          B64.read_progress (B64.Finite 100) [line] Tqdm.create
          = ([EvUpdate (percent - Tqdm.n Tqdm.create)], bar', Ok tt)
          /\ Tqdm.n bar' = percent.
Proof.
  cbv zeta.
  split; [reflexivity |].
  split; [vm_compute; reflexivity |].
  split; [vm_compute; reflexivity |].
  apply (binary64_percent_at_most_100
           "size=1024kB time=00:02:30.00 bitrate=1k" (B64.Finite 150) 100
           Tqdm.create).
  - reflexivity.
  - vm_compute; reflexivity.
Defined.

(** C6, as stated, fails: the percent is not the exact
    [ceil(min(elapsed / duration, 1) * 100)].  For 7 seconds of a
    100-second input the quotient is rounded to the binary64 number next
    to 0.07, the product to the one just above 7, and the percent is 8,
    where the exact formula gives 7. *)
Lemma binary64_percent_is_not_exact_ceiling :
  let line := "frame=  168 time=00:00:07.00 bitrate=1k" in
  B64.parse_line line = B64.Elapsed (B64.Finite 7)
  /\ B64.progress_percentage (B64.Finite 7) (B64.Finite 100) = Ok 8%Z
  /\ Qceiling (Qmin (7 / 100) 1 * 100) = 7%Z
  /\ B64.progress_percentage (B64.Finite 7) (B64.Finite 100)
     <> Ok (Qceiling (Qmin (7 / 100) 1 * 100))
  /\ fst (fst (B64.read_progress (B64.Finite 100) [line] Tqdm.create))
     = [EvUpdate 8].
Proof.
  cbv zeta.
  split; [vm_compute; reflexivity |].
  split; [vm_compute; reflexivity |].
  split; [vm_compute; reflexivity |].
  split; [vm_compute; discriminate |].
  vm_compute; reflexivity.
Qed.

(** X27.  Whatever the elapsed time and the duration are (negative,
    infinite or NaN included), a percent that is computed is at most
    100. *)
Theorem binary64_percent_never_exceeds_100
  (elapsed duration : B64.t) (percent : Z) :
  B64.progress_percentage elapsed duration = Ok percent -> (percent <= 100)%Z.
Proof.
  unfold B64.progress_percentage, B64.progress, B64.div.
  destruct (B64.is_zero duration); [discriminate |]. cbn [bind].
  set (x := match elapsed with B64.Finite _ => _ | _ => _ end).
  pose proof (b64_min_one x) as Hmin.
  destruct (B64.min x (B64.Finite 1)) as [q | | |]; [| contradiction | |].
  - destruct Hmin as [Hq _]. destruct (b64_times_100 q Hq) as [Hup _].
    destruct (B64.mul (B64.Finite q) (B64.Finite 100)) as [r | | |];
      [| contradiction | discriminate | contradiction].
    rewrite b64_int_ceil. intros [= <-].
    change 100%Z with (Qceiling (inject_Z 100)). now apply Qceiling_resp_le.
  - discriminate.
  - discriminate.
Qed.

(** An elapsed time beyond the range of binary64 over 5 seconds, and
    7 seconds over minus 100 seconds. *)
Lemma binary64_percent_never_exceeds_100_witness :
  B64.progress_percentage B64.PosInf (B64.Finite 5) = Ok 100%Z
  /\ (100 <= 100)%Z
  /\ B64.progress_percentage (B64.Finite 7) (B64.Finite (-100)) = Ok (-7)%Z
  /\ (-7 <= 100)%Z.
Proof.
  split; [vm_compute; reflexivity |].
  split; [apply (binary64_percent_never_exceeds_100 B64.PosInf (B64.Finite 5) 100);
          vm_compute; reflexivity |].
  split; [vm_compute; reflexivity |].
  apply (binary64_percent_never_exceeds_100 (B64.Finite 7) (B64.Finite (-100)) (-7)).
  vm_compute; reflexivity.
Defined.

(** ** Why the loop raises *)

Lemma float_field_raises (field : string) (e : exn) :
  float_field field = Raise e -> e = ValueError.
Proof.
  unfold float_field.
  destruct (Str.span_digits field) as [d1 rest].
  destruct d1; [now intros [= <-] |].
  destruct rest as [| c d2]; [discriminate |].
  destruct (negb (Str.all_digits d2)); [now intros [= <-] |].
  destruct (Ascii.eqb c "."); [discriminate |].
  destruct (String.length d2 =? 0)%nat; [now intros [= <-] |].
  destruct (Ascii.eqb c "_"); [discriminate |].
  destruct (Ascii.eqb c "e" || Ascii.eqb c "E"); [discriminate |].
  now intros [= <-].
Qed.

Lemma b64_float_raises (field : string) (e : exn) :
  B64.float field = Raise e -> e = ValueError.
Proof.
  unfold B64.float. destruct (float_field field) as [q |] eqn:Hq; [discriminate |].
  cbn [bind]. intros [= <-]. now apply (float_field_raises field).
Qed.

Lemma b64_parse_line_failure (line : string) (e : exn) :
  B64.parse_line line = B64.Failure e -> e = ValueError.
Proof.
  unfold B64.parse_line. destruct (Re.search line) as [time_str |]; [| discriminate].
  unfold B64.unpack_hms.
  destruct (Str.split ":" time_str) as [| fh [| fm [| fs [| x fields]]]];
    try (now intros [= <-]).
  destruct (B64.float fh) as [h |] eqn:Hh; cbn [bind];
    [| intros [= <-]; now apply (b64_float_raises fh)].
  destruct (B64.float fm) as [m |] eqn:Hm; cbn [bind];
    [| intros [= <-]; now apply (b64_float_raises fm)].
  destruct (B64.float fs) as [sec |] eqn:Hs; cbn [bind];
    [discriminate | intros [= <-]; now apply (b64_float_raises fs)].
Qed.

Lemma b64_int_raises (x : B64.t) (e : exn) :
  B64.int x = Raise e -> e = OverflowError \/ e = ValueError.
Proof. destruct x; cbn; [discriminate | | |]; intros [= <-]; auto. Qed.

(** Why the percent of a parsed elapsed time is not computed. *)
Lemma b64_percent_raises (elapsed duration : B64.t) (e : exn) :
  B64.nonneg elapsed ->
  B64.progress_percentage elapsed duration = Raise e ->
  e = ValueError
  \/ (e = ZeroDivisionError /\ B64.is_zero duration = true)
  \/ (e = OverflowError /\ exists d, duration = B64.Finite d /\ (d < 0)%Q).
Proof.
  intros He.
  destruct duration as [d | | |].
  - destruct (Qlt_le_dec 0 d) as [Hpos | Hneg].
    + destruct (b64_percent_computed elapsed d He Hpos) as (percent & -> & _).
      discriminate.
    + unfold B64.progress_percentage, B64.progress, B64.div. cbn [B64.is_zero].
      destruct (Qeq_bool d 0) eqn:Hz.
      * cbn [bind]. intros [= <-]. right; left. now split.
      * cbn [bind]. intros Hint. apply b64_int_raises in Hint.
        destruct Hint as [-> | ->]; [| now left].
        right; right. split; [reflexivity |]. exists d. split; [reflexivity |].
        apply Qle_lt_or_eq in Hneg. destruct Hneg as [Hlt | Heq]; [exact Hlt |].
        apply Qeq_bool_neq in Hz. contradiction.
  - destruct elapsed as [q | | |]; cbn in He; try contradiction.
    + vm_compute. discriminate.
    + vm_compute. intros [= <-]. now left.
  - destruct elapsed as [q | | |]; cbn in He; try contradiction.
    + vm_compute. discriminate.
    + vm_compute. intros [= <-]. now left.
  - destruct elapsed as [q | | |]; cbn in He; try contradiction.
    + vm_compute. intros [= <-]. now left.
    + vm_compute. intros [= <-]. now left.
Qed.

(** X28.  What the body of the loop does with the lines it is given
    raises for one of three reasons only: the text after [time=] could
    not be converted or the quotient was a NaN ([ValueError]), the
    duration was zero ([ZeroDivisionError]), or the duration was
    negative and the product was minus infinity ([OverflowError]). *)
Theorem loop_raises_for_three_reasons
  (duration : B64.t) (lines : list string) (progress_bar : Tqdm.bar) (e : exn) :
  snd (B64.read_progress duration lines progress_bar) = Raise e ->
  e = ValueError
  \/ (e = ZeroDivisionError /\ B64.is_zero duration = true)
  \/ (e = OverflowError /\ exists d, duration = B64.Finite d /\ (d < 0)%Q).
Proof.
  revert progress_bar.
  induction lines as [| line lines IH]; intros progress_bar;
    cbn [B64.read_progress]; [discriminate |].
  destruct (B64.parse_line line) as [| elapsed | e'] eqn:Hline.
  - apply IH.
  - destruct (B64.progress_percentage elapsed duration) as [percent | e'] eqn:Hp.
    + specialize (IH (Tqdm.update (percent - Tqdm.n progress_bar) progress_bar)).
      now destruct (B64.read_progress duration lines _) as [[evs bar'] res].
    + cbn [snd]. intros [= <-].
      exact (b64_percent_raises elapsed duration e'
               (b64_parse_line_nonneg line elapsed Hline) Hp).
  - cbn [snd]. intros [= <-]. left. now apply (b64_parse_line_failure line).
Qed.

(** A duration of minus 5 seconds and a time beyond the range of
    binary64: [int] of minus infinity. *)
Lemma loop_raises_for_three_reasons_witness :
  let lines := ["time=00:00:10.00"; "time=00:00:1e999"; "time=00:00:20.00"] in
  B64.read_progress (B64.Finite (-5)) lines Tqdm.create
  = ([EvUpdate (-200)], Tqdm.update (-200) Tqdm.create, Raise OverflowError)
  /\ (OverflowError = ValueError
      \/ (OverflowError = ZeroDivisionError /\ B64.is_zero (B64.Finite (-5)) = true)
      \/ (OverflowError = OverflowError
          /\ exists d, B64.Finite (-5) = B64.Finite d /\ (d < 0)%Q)).
Proof.
  cbv zeta. split; [vm_compute; reflexivity |].
  apply (loop_raises_for_three_reasons (B64.Finite (-5))
           ["time=00:00:10.00"; "time=00:00:1e999"; "time=00:00:20.00"]
           Tqdm.create OverflowError).
  vm_compute; reflexivity.
Defined.

(** ** From the text of a line to the bar *)

Lemma b64_parse_line_timestamp (pre hh mm ss frac rest : string) :
  lacks "t" pre = true ->
  number hh -> number mm -> number ss -> number frac ->
  starts_with_digit rest = false ->
  B64.parse_line (pre ++ "time=" ++ timestamp hh mm ss frac ++ rest)
  = B64.Elapsed (B64.timestamp_seconds hh mm ss frac).
Proof.
  intros Hpre Hh Hm Hs Hf Hrest. unfold B64.parse_line.
  rewrite search_timestamp by assumption.
  rewrite split_timestamp by assumption.
  unfold B64.unpack_hms, B64.float.
  rewrite (float_field_digits hh Hh), (float_field_digits mm Hm).
  rewrite (float_field_decimal ss frac Hs Hf).
  reflexivity.
Qed.

(** X25.  A line that carries [time=HH:MM:SS.ss] (no [t] before the
    mark, no digit right after the fraction) is read as the binary64
    value of [h * 3600 + m * 60 + s], the fields rounded first; the
    value is not negative and not NaN, and for a positive duration the
    line moves the bar to a percent between 0 and 100. *)
Theorem timestamp_line_moves_bar (pre hh mm ss frac rest : string)
  (duration : Q) (progress_bar : Tqdm.bar) :
  lacks "t" pre = true ->
  number hh -> number mm -> number ss -> number frac ->
  starts_with_digit rest = false ->
  (0 < duration)%Q ->
  let line := (pre ++ "time=" ++ timestamp hh mm ss frac ++ rest)%string in
  let seconds := B64.timestamp_seconds hh mm ss frac in
  B64.parse_line line = B64.Elapsed seconds
  /\ B64.nonneg seconds
  /\ exists percent,
      B64.progress_percentage seconds (B64.Finite duration) = Ok percent
      /\ (0 <= percent <= 100)%Z
      /\ B64.read_progress (B64.Finite duration) [line] progress_bar
         = ([EvUpdate (percent - Tqdm.n progress_bar)],
            Tqdm.update (percent - Tqdm.n progress_bar) progress_bar, Ok tt)
      /\ Tqdm.n (Tqdm.update (percent - Tqdm.n progress_bar) progress_bar)
         = percent.
Proof.
  intros Hpre Hh Hm Hs Hf Hrest Hd. cbv zeta.
  pose proof (b64_parse_line_timestamp pre hh mm ss frac rest Hpre Hh Hm Hs Hf Hrest)
    as Hline.
  pose proof (b64_parse_line_nonneg _ _ Hline) as Hnonneg.
  split; [exact Hline |]. split; [exact Hnonneg |].
  destruct (b64_percent_computed _ duration Hnonneg Hd) as (percent & Hp & Hrange).
  exists percent. split; [exact Hp |]. split; [exact Hrange |]. split.
  - cbn [B64.read_progress]. now rewrite Hline, Hp.
  - cbn. lia.
Qed.

(** One hour, two minutes and 3.04 seconds of a 7447-second input: 3.04
    is read as the binary64 number nearest to it, and the percent is
    50. *)
Lemma timestamp_line_moves_bar_witness :
  let line := ("frame= 10 q=2.0 " ++ "time=" ++ timestamp "01" "02" "03" "04"
               ++ " bitrate=1k")%string in
  let seconds := B64.timestamp_seconds "01" "02" "03" "04" in
  lacks "t" "frame= 10 q=2.0 " = true
  /\ number "01" /\ number "02" /\ number "03" /\ number "04"
  /\ starts_with_digit " bitrate=1k" = false
  /\ (0 < 7447)%Q
  /\ seconds = B64.Finite (4093525770675159 # 1099511627776)
  /\ B64.progress_percentage seconds (B64.Finite 7447) = Ok 50%Z
  /\ B64.parse_line line = B64.Elapsed seconds
  /\ B64.nonneg seconds
  /\ exists percent,
      B64.progress_percentage seconds (B64.Finite 7447) = Ok percent
      /\ (0 <= percent <= 100)%Z
      /\ B64.read_progress (B64.Finite 7447) [line] Tqdm.create
         = ([EvUpdate (percent - Tqdm.n Tqdm.create)],
            Tqdm.update (percent - Tqdm.n Tqdm.create) Tqdm.create, Ok tt)
      /\ Tqdm.n (Tqdm.update (percent - Tqdm.n Tqdm.create) Tqdm.create)
         = percent.
Proof.
  cbv zeta.
  assert (Hn : forall d, d <> "" -> Str.all_digits d = true -> number d)
    by (intros d H1 H2; now split).
  split; [reflexivity |].
  split; [apply Hn; [discriminate | reflexivity] |].
  split; [apply Hn; [discriminate | reflexivity] |].
  split; [apply Hn; [discriminate | reflexivity] |].
  split; [apply Hn; [discriminate | reflexivity] |].
  split; [reflexivity |]. split; [reflexivity |].
  split; [vm_compute; reflexivity |]. split; [vm_compute; reflexivity |].
  apply (timestamp_line_moves_bar "frame= 10 q=2.0 " "01" "02" "03" "04"
           " bitrate=1k" 7447 Tqdm.create);
    first [reflexivity | apply Hn; [discriminate | reflexivity]].
Defined.

(** ** The worker: a direct call without a progress bar *)

Lemma read_progress_no_bar_quiet (duration : B64.t) (lines : list string) :
  Forall (fun line => B64.parse_line line = B64.NoMatch) lines ->
  read_progress_no_bar duration lines = Ok tt.
Proof.
  induction 1 as [| line lines Hline _ IH]; [reflexivity |].
  cbn [read_progress_no_bar]. now rewrite Hline.
Qed.

(** The body without a bar ends with the report of a failure and never
    with the report of a completion. *)
Lemma convert_single_no_bar_fails {os : OsPath} (w : world)
  (ffpe_path inp out : string) (o : options) :
  let evs := convert_single_no_bar w ffpe_path inp out o in
  (exists e, outcome evs = Some (Failed e))
  /\ existsb is_update evs = false
  /\ (forall name, ~ In (EvCompleted name) evs).
Proof.
  cbv zeta. unfold convert_single_no_bar.
  assert (Hh : forall e name, ~ In (EvCompleted name) [handler e; EvCollect]).
  { intros e name [Hc | [Hc | []]]; [now destruct e | discriminate]. }
  destruct (B64.get_duration w inp) as [duration | e].
  2:{ split; [exists e; apply handler_outcome |].
      split; [now destruct e |].
      intros name [Hc | Hc]; [discriminate | now apply (Hh e name)]. }
  destruct (popen w (build_command ffpe_path inp out o)) as [proc | e].
  2:{ split; [exists e; apply handler_outcome |].
      split; [now destruct e |].
      intros name [Hc | [Hc | Hc]]; try discriminate. now apply (Hh e name). }
  set (raised := match read_progress_no_bar duration (stdout proc), stdout_error proc with
                 | Raise e, _ => e
                 | Ok _, Some e => e
                 | Ok _, None => no_attribute "close"
                 end).
  split; [exists raised; apply handler_outcome |].
  split; [now destruct raised |].
  intros name [Hc | [Hc | Hc]]; try discriminate. now apply (Hh raised name).
Qed.

Lemma convert_single_direct_cached {os : OsPath} (w : world)
  (ffpe_path : string) (c : direct_call) (cache : list direct_call) :
  In c cache -> convert_single_direct w ffpe_path c cache = ([], cache).
Proof.
  intros Hin. unfold convert_single_direct.
  now destruct (in_dec direct_call_eq_dec c cache).
Qed.

Lemma convert_single_direct_fresh {os : OsPath} (w : world)
  (ffpe_path : string) (c : direct_call) (cache : list direct_call) :
  ~ In c cache ->
  convert_single_direct w ffpe_path c cache
  = (convert_single_no_bar w ffpe_path (call_input c) (call_output c)
       (call_options c), c :: cache).
Proof.
  intros Hout. unfold convert_single_direct.
  now destruct (in_dec direct_call_eq_dec c cache).
Qed.

(** X8.  A direct call of [convert_single] with the default
    [progress_bar=None] never reports a completion and hands nothing to
    a bar.  A call that is not in the cache runs the body, which ends
    with the report of a failure (the [AttributeError] of
    [progress_bar.close()] when the probe, the launch and the reading
    all go well), and the call is kept; the same call made again,
    whatever the world has become, is answered from the cache and does
    nothing at all. *)
Theorem call_without_bar_never_completes {os : OsPath} (w w' : world)
  (ffpe_path : string) (c : direct_call) (cache : list direct_call) :
  let first := convert_single_direct w ffpe_path c cache in
  let again := convert_single_direct w' ffpe_path c (snd first) in
  existsb is_update (fst first) = false
  /\ (forall name, ~ In (EvCompleted name) (fst first))
  /\ (In c cache -> first = ([], cache))
  /\ (~ In c cache ->
      (exists e, outcome (fst first) = Some (Failed e))
      /\ snd first = c :: cache
      /\ forall duration proc,
          B64.get_duration w (call_input c) = Ok duration ->
          popen w (build_command ffpe_path (call_input c) (call_output c)
                     (call_options c)) = Ok proc ->
          Forall (fun line => B64.parse_line line = B64.NoMatch) (stdout proc) ->
          stdout_error proc = None ->
          outcome (fst first) = Some (Failed (no_attribute "close")))
  /\ again = ([], snd first).
Proof.
  cbv zeta.
  destruct (convert_single_no_bar_fails w ffpe_path (call_input c) (call_output c)
              (call_options c)) as (Hfail & Hupd & Hdone).
  destruct (in_dec direct_call_eq_dec c cache) as [Hin | Hout].
  - rewrite (convert_single_direct_cached w ffpe_path c cache Hin). cbn [fst snd].
    split; [reflexivity |]. split; [intros name [] |].
    split; [reflexivity |]. split; [contradiction |].
    now apply convert_single_direct_cached.
  - rewrite (convert_single_direct_fresh w ffpe_path c cache Hout). cbn [fst snd].
    split; [exact Hupd |]. split; [exact Hdone |].
    split; [contradiction |]. split.
    + intros _. split; [exact Hfail |]. split; [reflexivity |].
      intros duration proc Hprobe Hpopen Hquiet Herr.
      unfold convert_single_no_bar. rewrite Hprobe, Hpopen.
      rewrite (read_progress_no_bar_quiet duration (stdout proc) Hquiet), Herr.
      apply handler_outcome.
    + apply convert_single_direct_cached. now left.
Qed.

(** A direct call of the documented kind, made twice: the first one
    fails on [progress_bar.update], the second one does nothing. *)
Example direct_call_twice :
  let w := world_of 60 halfway_process in
  let c := {| passing := 0; call_input := "a.avi"; call_output := "out/a.mp4";
              call_options := no_options |} in
  let first := convert_single_direct w "ffpe.exe" c [] in
  outcome (fst first) = Some (Failed (no_attribute "update"))
  /\ convert_single_direct w "ffpe.exe" c (snd first) = ([], [c]).
Proof. cbv zeta. split; vm_compute; reflexivity. Qed.
